(** * Lipsync demo page: capture and export of viseme segments

    A shallow embedding of the viseme-capture logic of the demo page (the
    module-level capture state, [round2], [resetCapture], [analyzeAudio],
    [finalizeAndDownloadJSON] and the handlers of the file input, the
    buttons and the audio element), and the properties its specification
    states about it.

    - JavaScript numbers are IEEE-754 binary64 values.  They are Rocq's
      primitive floats, whose operations [Stdlib.Floats] specifies on
      [spec_float] ([prec = 53], [emax = 1024]); [Math.round], which the
      primitive floats lack, is defined on [spec_float].  The general
      facts about [round2] (it never yields [NaN] on a number, it is
      monotone, it is a whole number of hundredths up to one rounding) are
      proved from that specification, in the second half of the file.
    - JavaScript strings are [string]s; a cue [{start, end, value}] is a
      record whose field [end_] stands for [end].
    - The module-level [let] variables, the audio element and the
      analyzer's current viseme are the fields of one record, [Page],
      threaded through a small state monad.  A download is recorded in the
      page instead of being handed to the browser.
    - DOM updates that only paint the page (status toast, mouth image,
      chart highlight, button enablement) and the scheduling of animation
      frames are left out: an animation frame is the environment
      refreshing the audio clock and the analyzer's viseme and then
      calling [analyzeAudio].
    - A session is a list of events: the browser writing the audio
      element, the analyzer yielding a viseme, an animation frame, or one
      of the handlers of the page.  The last part of the file proves what
      holds of every session. *)

From Stdlib Require Import ZArith List String Ascii Bool Lia Floats.
Import ListNotations.

(* Decimal literals denote the nearest binary64 value, as in JavaScript. *)
Set Warnings "-inexact-float".

Local Open Scope string_scope.
Local Open Scope list_scope.
Local Open Scope float_scope.

(** ** JavaScript numbers *)

(** The integer [n] as a binary64 value (rounded to nearest even when it
    does not fit in 53 bits). *)
Definition SF_of_Z (n : Z) : spec_float :=
  binary_normalize prec emax n 0 false.

(** [Math.round] on the specification side: the integral value closest
    to [x], ties going towards [+infinity], that is [floor (x + 1/2)]
    computed exactly; [NaN], the infinities and the zeros are returned
    unchanged, and a result of zero keeps the sign of [x]. *)
Definition SF_round (x : spec_float) : spec_float :=
  match x with
  | S754_finite s m e =>
      if (0 <=? e)%Z then x
      else
        let n := ((2 * cond_Zopp s (Zpos m) + 2 ^ (- e)) / 2 ^ (1 - e))%Z in
        match n with
        | Z0 => S754_zero s
        | _ => SF_of_Z n
        end
  | _ => x
  end.

Module Math.

(** [Math.round(x)] *)
Definition round (x : float) : float :=
  SF2Prim (SF_round (Prim2SF x)).

End Math.

Module JS.

(** [ToBoolean] on a number: [+0], [-0] and [NaN] are falsy. *)
Definition ToBoolean (x : float) : bool :=
  negb (is_nan x || (x =? 0)).

(** [a || b] on numbers. *)
Definition or (a b : float) : float :=
  if ToBoolean a then a else b.

(** [a || b] where [a] is a possibly missing string: [undefined], [null]
    and the empty string are falsy. *)
Definition or_string (a : option string) (b : string) : string :=
  match a with
  | Some s => if String.eqb s "" then b else s
  | None => b
  end.

End JS.

Notation "a '|||' b" := (JS.or a b) (at level 50, left associativity).

(** ** Page state *)

(** One entry of [mouthCues]. *)
Record MouthCue : Type := mkCue {
  start : float;
  end_ : float;
  value : string
}.

(** The fields of the audio element the page reads and writes. *)
Record AudioPlayer : Type := mkAudio {
  paused : bool;
  currentTime : float;
  duration : float
}.

Record Metadata : Type := mkMetadata {
  soundFile : string;
  meta_duration : float
}.

(** The object serialised by [finalizeAndDownloadJSON]. *)
Record ExportData : Type := mkData {
  metadata : Metadata;
  data_mouthCues : list MouthCue
}.

(** A file handed to the browser: its name and the object serialised in
    it. *)
Record Download : Type := mkDownload {
  download : string;
  data : ExportData
}.

Record Page : Type := mkPage {
  audioPlayer : AudioPlayer;
  (** [lipsyncManager.viseme], refreshed by [lipsyncManager.processAudio()];
      [None] stands for [undefined]. *)
  lipsync_viseme : option string;
  isConnected : bool;
  (** Capture state for JSON export. *)
  mouthCues : list MouthCue;
  currentViseme : string;
  segmentStart : float;
  uploadedFileName : string;
  audioDuration : float;
  (** The files downloaded so far, oldest first. *)
  downloads : list Download
}.

Definition set_audioPlayer (a : AudioPlayer) (p : Page) : Page :=
  mkPage a (lipsync_viseme p) (isConnected p) (mouthCues p)
         (currentViseme p) (segmentStart p) (uploadedFileName p) (audioDuration p) (downloads p).

Definition set_lipsync_viseme (v : option string) (p : Page) : Page :=
  mkPage (audioPlayer p) v (isConnected p) (mouthCues p)
         (currentViseme p) (segmentStart p) (uploadedFileName p) (audioDuration p) (downloads p).

Definition set_isConnected (b : bool) (p : Page) : Page :=
  mkPage (audioPlayer p) (lipsync_viseme p) b (mouthCues p)
         (currentViseme p) (segmentStart p) (uploadedFileName p) (audioDuration p) (downloads p).

Definition set_mouthCues (l : list MouthCue) (p : Page) : Page :=
  mkPage (audioPlayer p) (lipsync_viseme p) (isConnected p) l
         (currentViseme p) (segmentStart p) (uploadedFileName p) (audioDuration p) (downloads p).

Definition set_currentViseme (v : string) (p : Page) : Page :=
  mkPage (audioPlayer p) (lipsync_viseme p) (isConnected p) (mouthCues p)
         v (segmentStart p) (uploadedFileName p) (audioDuration p) (downloads p).

Definition set_segmentStart (t : float) (p : Page) : Page :=
  mkPage (audioPlayer p) (lipsync_viseme p) (isConnected p) (mouthCues p)
         (currentViseme p) t (uploadedFileName p) (audioDuration p) (downloads p).

Definition set_uploadedFileName (n : string) (p : Page) : Page :=
  mkPage (audioPlayer p) (lipsync_viseme p) (isConnected p) (mouthCues p)
         (currentViseme p) (segmentStart p) n (audioDuration p) (downloads p).

Definition set_audioDuration (d : float) (p : Page) : Page :=
  mkPage (audioPlayer p) (lipsync_viseme p) (isConnected p) (mouthCues p)
         (currentViseme p) (segmentStart p) (uploadedFileName p) d (downloads p).

Definition set_downloads (l : list Download) (p : Page) : Page :=
  mkPage (audioPlayer p) (lipsync_viseme p) (isConnected p) (mouthCues p)
         (currentViseme p) (segmentStart p) (uploadedFileName p) (audioDuration p) l.

(** ** A state monad over the page *)

Definition M (A : Type) : Type := Page -> A * Page.

Definition ret {A : Type} (a : A) : M A := fun p => (a, p).

Definition bind {A B : Type} (c : M A) (k : A -> M B) : M B :=
  fun p => let (a, p') := c p in k a p'.

Definition gets {A : Type} (f : Page -> A) : M A := fun p => (f p, p).

Definition modify (f : Page -> Page) : M unit := fun p => (tt, f p).

Definition when (b : bool) (c : M unit) : M unit :=
  if b then c else ret tt.

Definition exec {A : Type} (c : M A) (p : Page) : Page := snd (c p).

Definition eval {A : Type} (c : M A) (p : Page) : A := fst (c p).

Notation "x <- c ;; k" := (bind c (fun x => k))
  (at level 61, c at next level, right associativity).
Notation "c ;; k" := (bind c (fun _ => k))
  (at level 61, right associativity).

(** ** The code *)

(** [const round2 = (t) => Math.round(t * 100) / 100;] *)
Definition round2 (t : float) : float := Math.round (t * 100) / 100.

(** [mouthCues.push(c)] *)
Definition mouthCues_push (c : MouthCue) : M unit :=
  modify (fun p => set_mouthCues (mouthCues p ++ [c]) p).

Definition resetCapture : M unit :=
  modify (set_mouthCues []) ;;
  modify (set_currentViseme "X") ;;
  modify (set_segmentStart 0) ;;
  modify (set_audioDuration 0).

(** The capture step of [analyzeAudio] for the playback time [now] and the
    viseme [viseme] read in this frame. *)
Definition captureViseme (now : float) (viseme : string) : M unit :=
  (* Initialize first segment on first frame of playback *)
  cues <- gets mouthCues ;;
  when ((List.length cues =? 0)%nat && (now =? 0))
       (modify (set_currentViseme viseme) ;;
        modify (set_segmentStart 0)) ;;
  (* If viseme changed, close previous segment and start a new one *)
  current <- gets currentViseme ;;
  when (negb (String.eqb viseme current))
       (segStart <- gets segmentStart ;;
        mouthCues_push (mkCue (round2 segStart) (round2 now) current) ;;
        modify (set_currentViseme viseme) ;;
        modify (set_segmentStart now)).

(** The animation loop body.  [lipsyncManager.processAudio()] and the
    advance of the audio clock are the environment's (see [frame]). *)
Definition analyzeAudio : M unit :=
  a <- gets audioPlayer ;;
  if paused a then ret tt
  else
    v <- gets lipsync_viseme ;;
    let now := currentTime a ||| 0 in
    let viseme := JS.or_string v "X" in
    captureViseme now viseme.

(** [uploadedFileName.replace(/\.[^/.]+$/, '')]: when the text after the
    last dot is not empty and has no slash, that dot and what follows are
    removed.  [strip_ext_rev] works on the reversed string, [seen] counting
    the characters read so far: [None] when nothing matches. *)
Fixpoint strip_ext_rev (seen : nat) (r : string) : option string :=
  match r with
  | EmptyString => None
  | String c r' =>
      if Ascii.eqb c "." then
        match seen with
        | O => None
        | S _ => Some r'
        end
      else if Ascii.eqb c "/" then None
      else strip_ext_rev (S seen) r'
  end.

Fixpoint string_rev (s : string) : string :=
  match s with
  | EmptyString => EmptyString
  | String c s' => (string_rev s' ++ String c EmptyString)%string
  end.

Definition replace_extension (s : string) : string :=
  match strip_ext_rev 0 (string_rev s) with
  | Some r => string_rev r
  | None => s
  end.

(** [a || b] on strings. *)
Definition or_str (a b : string) : string :=
  if String.eqb a "" then b else a.

(** "Close the last open segment, if any": the first block of
    [finalizeAndDownloadJSON]. *)
Definition closeLastSegment (endTime : float) : M unit :=
  segStart <- gets segmentStart ;;
  when (segStart <=? endTime)
       (current <- gets currentViseme ;;
        mouthCues_push (mkCue (round2 segStart) (round2 endTime) current)).

(** "Build JSON object": the object [data] of [finalizeAndDownloadJSON]. *)
Definition buildData (endTime : float) : M ExportData :=
  name <- gets uploadedFileName ;;
  cues <- gets mouthCues ;;
  ret (mkData (mkMetadata (or_str name "unknown") (round2 endTime)) cues).

(** "Create a download": the anchor click, recorded in [downloads]. *)
Definition createDownload (d : ExportData) : M unit :=
  name <- gets uploadedFileName ;;
  let base := or_str (if String.eqb name "" then "" else replace_extension name)
                     "audio" in
  modify (fun p => set_downloads
                     (downloads p ++ [mkDownload (base ++ ".visemes.json")%string d]) p).

Definition finalizeAndDownloadJSON : M unit :=
  a <- gets audioPlayer ;;
  let endTime := duration a ||| currentTime a ||| 0 in
  closeLastSegment endTime ;;
  d <- buildData endTime ;;
  createDownload d.

(** "Close any open segment up to current time (0)": the branch of the stop
    handler that runs before [finalizeAndDownloadJSON]. *)
Definition stopBtn_closeSegment : M unit :=
  cues <- gets mouthCues ;;
  if (List.length cues =? 0)%nat then
    (* If nothing captured, produce a single X segment [0, 0] *)
    mouthCues_push (mkCue 0 0 "X")
  else
    (* If last segment is still open and starts > 0, close it at current time *)
    a <- gets audioPlayer ;;
    let endTime := currentTime a ||| 0 in
    segStart <- gets segmentStart ;;
    when (segStart <? endTime)
         (current <- gets currentViseme ;;
          mouthCues_push (mkCue (round2 segStart) (round2 endTime) current)).

(** "Stop playback": [audioPlayer.pause(); audioPlayer.currentTime = 0;] *)
Definition stopBtn_stopPlayback : M unit :=
  modify (fun p => set_audioPlayer
                     (mkAudio true (currentTime (audioPlayer p))
                              (duration (audioPlayer p))) p) ;;
  modify (fun p => set_audioPlayer
                     (mkAudio (paused (audioPlayer p)) 0
                              (duration (audioPlayer p))) p).

(** The click handler of the stop button. *)
Definition stopBtn_click : M unit :=
  stopBtn_stopPlayback ;;
  stopBtn_closeSegment ;;
  (* Optional: also download partial JSON on stop *)
  finalizeAndDownloadJSON ;;
  (* Prepare for next run *)
  resetCapture.

(** The [ended] handler of the audio element. *)
Definition audioPlayer_ended : M unit :=
  finalizeAndDownloadJSON ;;
  resetCapture.

(** The [change] handler of the file input: [file] is [e.target.files[0]],
    given by its name.  Assigning [audioPlayer.src] unloads what the
    element played: it is paused at 0 and its duration is unknown. *)
Definition audioFile_change (file : option string) : M unit :=
  match file with
  | None => ret tt
  | Some name =>
      modify (set_uploadedFileName name) ;;
      (* Reset state *)
      resetCapture ;;
      modify (set_audioPlayer (mkAudio true 0 nan))
  end.

(** The [loadedmetadata] handler registered by [audioFile_change];
    [connects] tells whether [lipsyncManager.connectAudio] returns (it may
    throw).  The element's duration is known when the event fires. *)
Definition audioPlayer_loadedmetadata (connects : bool) : M unit :=
  a <- gets audioPlayer ;;
  modify (set_audioDuration (duration a ||| 0)) ;;
  when connects (modify (set_isConnected true)).

(** The click handler of the play button; [audioPlayer.play()] leaves the
    element not paused. *)
Definition playBtn_click : M unit :=
  connected <- gets isConnected ;;
  if negb connected then ret tt
  else
    a <- gets audioPlayer ;;
    (* Reset capture if we are starting from 0 again *)
    when (currentTime a =? 0)
         (resetCapture ;;
          (* Initialize first segment with current (likely X) *)
          v <- gets lipsync_viseme ;;
          modify (set_currentViseme (JS.or_string v "X")) ;;
          modify (set_segmentStart 0)) ;;
    modify (fun p => set_audioPlayer
                       (mkAudio false (currentTime (audioPlayer p))
                                (duration (audioPlayer p))) p) ;;
    analyzeAudio.

(** The click handler of the pause button. *)
Definition pauseBtn_click : M unit :=
  modify (fun p => set_audioPlayer
                     (mkAudio true (currentTime (audioPlayer p))
                              (duration (audioPlayer p))) p).

(** ** The environment *)

(** The browser has read the metadata of the file: its duration is [d]. *)
Definition metadata_loaded (d : float) : M unit :=
  modify (fun p => set_audioPlayer
                     (mkAudio (paused (audioPlayer p))
                              (currentTime (audioPlayer p)) d) p).

(** One animation frame while the audio plays: the clock reads [now], the
    analyzer yields [v], and [analyzeAudio] runs. *)
Definition frame (now : float) (v : option string) : M unit :=
  modify (fun p => set_audioPlayer
                     (mkAudio false now (duration (audioPlayer p))) p) ;;
  modify (set_lipsync_viseme v) ;;
  analyzeAudio.

Fixpoint frames (l : list (float * option string)) : M unit :=
  match l with
  | [] => ret tt
  | (now, v) :: l' => frame now v ;; frames l'
  end.

(** The specification's [sample(time, label)]: a frame at [time] on which
    the analyzer yields [label]. *)
Definition sample (time : float) (label : string) : M unit :=
  frame time (Some label).

(** The specification's [finalize(endTime)]: [finalizeAndDownloadJSON] on
    an audio element whose duration is [endTime]. *)
Definition finalize (endTime : float) : M unit :=
  modify (fun p => set_audioPlayer
                     (mkAudio (paused (audioPlayer p))
                              (currentTime (audioPlayer p)) endTime) p) ;;
  finalizeAndDownloadJSON.

(** A page on which nothing has been loaded yet. *)
Definition initial : Page :=
  mkPage (mkAudio true 0 nan) None false [] "X" 0 "" 0 [].

(** ** Notions used by the properties *)

(** The last file downloaded, if any. *)
Definition last_download (p : Page) : option Download :=
  List.last (List.map Some (downloads p)) None.

(** The cue [finalizeAndDownloadJSON] and the capture step append when they
    close the open segment at [t]. *)
Definition closing_cue (p : Page) (t : float) : MouthCue :=
  mkCue (round2 (segmentStart p)) (round2 t) (currentViseme p).

(** The end time [finalizeAndDownloadJSON] reads from the audio element. *)
Definition endTime_of (a : AudioPlayer) : float :=
  duration a ||| currentTime a ||| 0.

(** The file name under which the export is downloaded. *)
Definition download_name (p : Page) : string :=
  (or_str (if String.eqb (uploadedFileName p) "" then ""
           else replace_extension (uploadedFileName p)) "audio"
   ++ ".visemes.json")%string.

(** The object [finalizeAndDownloadJSON] serialises on page [p] (after the
    open segment has been closed) for the end time [t]. *)
Definition export_of (p : Page) (t : float) : ExportData :=
  mkData (mkMetadata (or_str (uploadedFileName p) "unknown") (round2 t))
         (mouthCues p).

(** The capture state the specification calls the recorder state. *)
Definition recorder (p : Page) : list MouthCue * string * float * float :=
  (mouthCues p, currentViseme p, segmentStart p, audioDuration p).

(** The page as a frame finds it: the clock reads [now] and the analyzer
    yields [v]. *)
Definition at_frame (now : float) (v : option string) (p : Page) : Page :=
  set_lipsync_viseme v
    (set_audioPlayer (mkAudio false now (duration (audioPlayer p))) p).

(** What the specification's claim about [sample] says, taken for every
    recorder state. *)
Definition sample_always_appends : Prop :=
  forall (p : Page) (time : float) (label : string),
    String.eqb label (currentViseme p) = false ->
    mouthCues (exec (sample time label) p) =
    mouthCues p ++ [closing_cue p time].

(** ** Contiguity and ordering of cues *)

(** The cues exported by the last download, if any. *)
Definition exported_cues (p : Page) : option (list MouthCue) :=
  option_map (fun d => data_mouthCues (data d)) (last_download p).

(** The [metadata.duration] of the last download, if any. *)
Definition exported_duration (p : Page) : option float :=
  option_map (fun d => meta_duration (metadata (data d))) (last_download p).

(** The last cue of a list, if any. *)
Definition last_cue (l : list MouthCue) : option MouthCue :=
  List.last (List.map Some l) None.

(** [chain t l]: the first cue of [l] starts at [t], every cue starts where
    the one before it ends, and no end is [NaN]. *)
Fixpoint chain (t : float) (l : list MouthCue) : Prop :=
  match l with
  | [] => True
  | c :: l' => start c = t /\ is_nan (end_ c) = false /\ chain (end_ c) l'
  end.

(** The end of the last cue of [l], or [t] when [l] is empty. *)
Fixpoint last_end (t : float) (l : list MouthCue) : float :=
  match l with
  | [] => t
  | c :: l' => last_end (end_ c) l'
  end.

(** Contiguity as the specification states it, with JavaScript's [==]:
    [l[i].end == l[i+1].start] for every adjacent pair, and
    [l[0].start == 0]. *)
Definition contiguous (l : list MouthCue) : Prop :=
  (forall (i : nat) (a b : MouthCue),
      nth_error l i = Some a -> nth_error l (S i) = Some b ->
      (end_ a =? start b) = true) /\
  (forall a : MouthCue, nth_error l 0 = Some a -> (start a =? 0) = true).

(** The clock readings [l] never go back, starting from [t0]. *)
Fixpoint nondecreasing_from (t0 : float) (l : list float) : bool :=
  match l with
  | [] => true
  | t :: l' => (t0 <=? t) && nondecreasing_from t l'
  end.

(** A cue whose bounds are [round2] of two non-negative times in order,
    and which is itself in order. *)
Definition cue_ok (c : MouthCue) : Prop :=
  (start c <=? end_ c) = true /\
  exists s t : float,
    (0 <=? s) = true /\ (s <=? t) = true /\
    start c = round2 s /\ end_ c = round2 t.

(** The capture state chains: the cues are contiguous from 0, and the open
    segment starts where the last cue ends (at 0 when there is none). *)
Definition capture_chain (p : Page) : Prop :=
  is_nan (segmentStart p) = false /\
  chain 0 (mouthCues p) /\
  last_end 0 (mouthCues p) = round2 (segmentStart p).

(** The capture state is ordered up to the clock reading [t0]: the open
    segment starts between 0 and [t0], and every cue is in order. *)
Definition capture_ordered (t0 : float) (p : Page) : Prop :=
  (0 <=? segmentStart p) = true /\
  (segmentStart p <=? t0) = true /\
  Forall cue_ok (mouthCues p).

(** What the specification's invariant [start <= end] says, taken for
    every run: whatever the frames sampled after a reset, every cue left by
    [finalize] is in order. *)
Definition segments_always_ordered : Prop :=
  forall (p0 : Page) (l : list (float * option string)) (endTime : float)
         (c : MouthCue),
    In c (mouthCues (exec (finalize endTime) (exec (resetCapture ;; frames l) p0))) ->
    (start c <=? end_ c) = true.

(** ** Sessions

    A session is what happens to the page from the moment it is loaded:
    the browser changes the audio element (the clock advances, the user
    seeks, the duration becomes known), the analyzer yields another
    viseme, an animation frame fires, or the user acts on the file input
    or on a button. *)

Inductive Event : Type :=
| Browser (a : AudioPlayer)
| Analyzer (v : option string)
| AnimationFrame
| FileChange (file : option string)
| LoadedMetadata (connects : bool)
| PlayClick
| PauseClick
| StopClick
| Ended.

(** What runs on an event: the browser and the analyzer write their own
    part of the page, every other event runs the handler registered for
    it. *)
Definition handle (ev : Event) : M unit :=
  match ev with
  | Browser a => modify (set_audioPlayer a)
  | Analyzer v => modify (set_lipsync_viseme v)
  | AnimationFrame => analyzeAudio
  | FileChange file => audioFile_change file
  | LoadedMetadata connects => audioPlayer_loadedmetadata connects
  | PlayClick => playBtn_click
  | PauseClick => pauseBtn_click
  | StopClick => stopBtn_click
  | Ended => audioPlayer_ended
  end.

Fixpoint session (evs : list Event) : M unit :=
  match evs with
  | [] => ret tt
  | ev :: evs' => handle ev ;; session evs'
  end.

(** The playback position the browser reports is never negative. *)
Definition clock_ok (ev : Event) : bool :=
  match ev with
  | Browser a => 0 <=? currentTime a
  | _ => true
  end.

(** The events whose handler calls [finalizeAndDownloadJSON]. *)
Definition exports (ev : Event) : bool :=
  match ev with
  | StopClick | Ended => true
  | _ => false
  end.

(** The page as the play button leaves it before [analyzeAudio] runs:
    [start_run] is the block run when the clock reads 0, [unpause] is
    [audioPlayer.play()]. *)
Definition start_run (p : Page) : Page :=
  set_segmentStart 0
    (set_currentViseme (JS.or_string (lipsync_viseme p) "X")
       (exec resetCapture p)).

Definition unpause (p : Page) : Page :=
  set_audioPlayer (mkAudio false (currentTime (audioPlayer p))
                           (duration (audioPlayer p))) p.

(** ** Well-formed cues and exports *)

(** No two neighbours of the list are equal. *)
Fixpoint no_repeat (l : list string) : Prop :=
  match l with
  | a :: l' =>
      match l' with
      | b :: _ => a <> b /\ no_repeat l'
      | [] => True
      end
  | [] => True
  end.

(** No two adjacent cues carry the same viseme. *)
Definition alternating (l : list MouthCue) : Prop :=
  forall (i : nat) (a b : MouthCue),
    nth_error l i = Some a -> nth_error l (S i) = Some b ->
    value a <> value b.

(** A cue whose bounds are numbers and whose viseme is not empty. *)
Definition cue_wf (c : MouthCue) : Prop :=
  is_nan (start c) = false /\ is_nan (end_ c) = false /\ value c <> "".

(** A download named [<base>.visemes.json] for a non-empty [base], whose
    [soundFile] is not empty, whose [duration] is a number and whose cues
    are well formed. *)
Definition export_wf (d : Download) : Prop :=
  (exists base : string,
      base <> "" /\ download d = (base ++ ".visemes.json")%string) /\
  soundFile (metadata (data d)) <> "" /\
  is_nan (meta_duration (metadata (data d))) = false /\
  Forall cue_wf (data_mouthCues (data d)).

(** The capture state holds numbers and non-empty visemes only. *)
Definition capture_wf (p : Page) : Prop :=
  is_nan (segmentStart p) = false /\
  is_nan (audioDuration p) = false /\
  currentViseme p <> "" /\
  Forall cue_wf (mouthCues p).

(** ** File names *)

(** A text the pattern [[^/.]+] matches as a whole: it is not empty and
    holds no slash and no dot. *)
Fixpoint no_dot_slash (s : string) : bool :=
  match s with
  | EmptyString => true
  | String c s' =>
      negb (Ascii.eqb c ".") && negb (Ascii.eqb c "/") && no_dot_slash s'
  end.

Definition is_extension (s : string) : bool :=
  negb (String.eqb s "") && no_dot_slash s.

(** The text holds no dot. *)
Fixpoint no_dot (s : string) : bool :=
  match s with
  | EmptyString => true
  | String c s' => negb (Ascii.eqb c ".") && no_dot s'
  end.

(** ** Visemes as runs *)

(** The viseme [analyzeAudio] reads on each frame of a list. *)
Definition labels (l : list (float * option string)) : list string :=
  map (fun f : float * option string => JS.or_string (snd f) "X") l.

(** The runs of a sequence of visemes that follows a run of [cur]: equal
    neighbours are collapsed into one. *)
Fixpoint compress (cur : string) (l : list string) : list string :=
  match l with
  | [] => [cur]
  | v :: l' => if String.eqb v cur then compress cur l' else cur :: compress v l'
  end.

(** The clock of the frame reads something else than 0. *)
Definition after_zero (f : float * option string) : bool :=
  negb (fst f ||| 0 =? 0).

(** The events that leave a paused audio paused: the analyzer, an
    animation frame, the pause button. *)
Definition idle (ev : Event) : bool :=
  match ev with
  | Analyzer _ | AnimationFrame | PauseClick => true
  | _ => false
  end.



(** ** Invariants of a session *)

(** The capture state of a session whose clock is never negative: it
    chains, and neither the open segment nor the playback position is
    before 0. *)
Definition capture_sound (p : Page) : Prop :=
  capture_chain p /\
  (0 <=? segmentStart p) = true /\
  (0 <=? currentTime (audioPlayer p)) = true.

(** Every file downloaded so far holds contiguous cues. *)
Definition exports_contiguous (p : Page) : Prop :=
  Forall (fun d : Download => contiguous (data_mouthCues (data d))) (downloads p).

(** The visemes of the cues captured so far, followed by the viseme of
    the open segment. *)
Definition visemes (p : Page) : list string :=
  map value (mouthCues p) ++ [currentViseme p].

(** Every file downloaded so far is well formed. *)
Definition exports_wf (p : Page) : Prop := Forall export_wf (downloads p).

(** * Binary64 rounding: definitions

    [SpecFloat] rounds a mantissa [m] at exponent [e], located with respect
    to the exact value by a [location], with [binary_round_aux].  The
    definitions below describe that computation on the exact value, a
    fraction [a / b] scaled by [2 ^ e]. *)

Local Open Scope Z_scope.

(** A mantissa with its location, as one integer: four times the mantissa
    plus 0 (exact), 1 (below half), 2 (half) or 3 (above half). *)
Definition loc_code (l : location) : Z :=
  match l with
  | loc_Exact => 0
  | loc_Inexact Lt => 1
  | loc_Inexact Eq => 2
  | loc_Inexact Gt => 3
  end.

Definition rpos (r : shr_record) : Z :=
  4 * shr_m r + (if shr_r r then 2 else 0) + (if shr_s r then 1 else 0).

(** The same integer for the fraction [a / b]. *)
Definition qpos (a b : Z) : Z :=
  4 * (a / b) +
  (if a mod b =? 0 then 0
   else match 2 * (a mod b) ?= b with Lt => 1 | Eq => 2 | Gt => 3 end).

(** The effect of one right shift ([shr_1]) on it. *)
Definition half_pos (p : Z) : Z := 2 * (p / 4) + (if p mod 4 =? 0 then 0 else 1).

(** Rounding to nearest, ties to even ([round_nearest_even]). *)
Definition rne (p : Z) : Z :=
  let m := p / 4 in
  let c := p mod 4 in
  if c <=? 1 then m
  else if c =? 2 then (if Z.even m then m else m + 1)
  else m + 1.

(** The second stage of [binary_round_aux]: renormalisation of the rounded
    mantissa and the overflow test. *)
Definition stage2 (s : bool) (M E : Z) : spec_float :=
  let '(mrs, e') := shr_fexp prec emax M E loc_Exact in
  match shr_m mrs with
  | Z0 => S754_zero s
  | Zpos m => if e' <=? emax - prec then S754_finite s m e' else S754_infinity s
  | Zneg _ => S754_nan
  end.

(** The binary64 value nearest to [(a / b) * 2 ^ e] (ties to even), signed
    by [s]. *)
Definition RN (s : bool) (a b e : Z) : spec_float :=
  let E := fexp prec emax (Zdigits2 (a / b) + e) in
  stage2 s (rne (qpos a (2 ^ (E - e) * b))) E.

(** Its exponent, its rounded mantissa, and the condition under which
    [binary_round_aux] computes it. *)
Definition RN_exp (a b e : Z) : Z := fexp prec emax (Zdigits2 (a / b) + e).

Definition RN_man (a b e : Z) : Z :=
  rne (qpos a (2 ^ (RN_exp a b e - e) * b)).

Definition RN_pre (a b e : Z) : Prop :=
  0 <= a /\ 0 < b /\ e <= RN_exp a b e.

(** The value with mantissa [M] at exponent [E], and the same after the
    renormalisation of a mantissa that reached [2 ^ 53]. *)
Definition fin (s : bool) (M E : Z) : spec_float :=
  match M with
  | Z0 => S754_zero s
  | Zpos m => if E <=? emax - prec then S754_finite s m E else S754_infinity s
  | Zneg _ => S754_nan
  end.

Definition norm (s : bool) (M E : Z) : spec_float :=
  if M <? 2 ^ 53 then fin s M E else fin s (2 ^ 52) (E + 1).

(** The value of a non-negative binary64 number in units of [2 ^ -1074],
    the smallest positive binary64 value: every finite value is a whole
    number of them.  [+infinity] is given [2 ^ 2098], above every finite
    value; negative values and [NaN] are given [-1]. *)
Definition units (x : spec_float) : Z :=
  match x with
  | S754_zero _ => 0
  | S754_finite false m e => Z.pos m * 2 ^ (e + 1074)
  | S754_infinity false => 2 ^ 2098
  | _ => -1
  end.

(** Zero of either sign, a positive finite value or [+infinity]. *)
Definition nonneg (x : spec_float) : bool :=
  match x with
  | S754_zero _ | S754_finite false _ _ | S754_infinity false => true
  | _ => false
  end.

Definition is_nanSF (x : spec_float) : bool :=
  match x with S754_nan => true | _ => false end.

(** [(a1 / b1) * 2 ^ e1 <= (a2 / b2) * 2 ^ e2], written over the integers
    with a common lower bound [L] of the exponents. *)
Definition vle (L a1 b1 e1 a2 b2 e2 : Z) : Prop :=
  L <= e1 /\ L <= e2 /\ a1 * b2 * 2 ^ (e1 - L) <= a2 * b1 * 2 ^ (e2 - L).

(** The binary64 constant [100] is [m100 * 2 ^ -46]. *)
Definition m100 : Z := 7036874417766400.
Definition c100 : spec_float := S754_finite false 7036874417766400 (-46).

Definition mul100 (x : spec_float) : spec_float := SF64mul x c100.
Definition div100 (x : spec_float) : spec_float := SF64div x c100.

(** The exponent at which [SFdiv] computes the quotient of [m * 2 ^ e] by
    [100]. *)
Definition div100_exp (m : positive) (e : Z) : Z :=
  Z.min (fexp prec emax (Zdigits2 (Z.pos m) + e - 7)) (e + 46).

(** [floor (x + 1/2)] on a value given in units of [2 ^ -1074]. *)
Definition round_units (k : Z) : Z := (2 * k + 2 ^ 1074) / 2 ^ 1075 * 2 ^ 1074.

(** [round2] on the specification side. *)
Definition SF_round2 (x : spec_float) : spec_float :=
  div100 (SF_round (mul100 x)).

Local Open Scope float_scope.

(** * Binary64 rounding: lemmas *)

Section Rounding.

Local Open Scope Z_scope.

(** ** Mantissas and locations as integers *)

Lemma divmod4 (m c : Z) :
  0 <= c < 4 -> (4 * m + c) / 4 = m /\ (4 * m + c) mod 4 = c.
Proof.
  intros Hc. split.
  - symmetry. apply Z.div_unique with c; lia.
  - symmetry. apply Z.mod_unique with m; lia.
Qed.

Lemma rpos_of_loc (m : Z) (l : location) :
  rpos (shr_record_of_loc m l) = 4 * m + loc_code l.
Proof. destruct l as [|[| |]]; unfold rpos; simpl; lia. Qed.

Lemma shr_m_of_loc (m : Z) (l : location) : shr_m (shr_record_of_loc m l) = m.
Proof. destruct l as [|[| |]]; reflexivity. Qed.

Lemma rpos_split (r : shr_record) :
  exists c, 0 <= c < 4 /\ rpos r = 4 * shr_m r + c /\
            c = (if shr_r r then 2 else 0) + (if shr_s r then 1 else 0).
Proof.
  eexists; split; [|split; [|reflexivity]].
  - destruct (shr_r r), (shr_s r); lia.
  - unfold rpos; lia.
Qed.

Lemma rne_rpos (r : shr_record) :
  round_nearest_even (shr_m r) (loc_of_shr_record r) = rne (rpos r).
Proof.
  destruct (rpos_split r) as (c & Hc & Hr & Hcd). rewrite Hr. unfold rne.
  destruct (divmod4 (shr_m r) c Hc) as [-> ->].
  destruct r as [m [|] [|]]; simpl in *; subst c; reflexivity.
Qed.

Lemma rpos_shr_1 (r : shr_record) :
  0 <= shr_m r -> rpos (shr_1 r) = half_pos (rpos r) /\ 0 <= shr_m (shr_1 r).
Proof.
  intros Hm.
  destruct (rpos_split r) as (c & Hc & Hr & Hcd). rewrite Hr. unfold half_pos.
  destruct (divmod4 (shr_m r) c Hc) as [-> ->].
  destruct r as [m rb sb]; simpl in *.
  destruct m as [|[q|q|]|q]; try lia; unfold rpos; simpl;
    destruct rb, sb; simpl in *; subst c; simpl; split; lia.
Qed.

Lemma qpos_double (a b : Z) :
  0 <= a -> 0 < b -> qpos a (2 * b) = half_pos (qpos a b).
Proof.
  intros Ha Hb. unfold qpos, half_pos.
  pose proof (Z.div_mod a b ltac:(lia)) as Hab.
  pose proof (Z.mod_pos_bound a b Hb) as Hr.
  set (q := a / b) in *. set (r := a mod b) in *.
  pose proof (Z.div_mod q 2 ltac:(lia)) as Hq.
  pose proof (Z.mod_pos_bound q 2 ltac:(lia)) as Hq2.
  set (q2 := q / 2) in *. set (r2 := q mod 2) in *.
  assert (Hd : a / (2 * b) = q2).
  { symmetry. apply Z.div_unique with (r2 * b + r); nia. }
  assert (Hm : a mod (2 * b) = r2 * b + r).
  { symmetry. apply Z.mod_unique with q2; nia. }
  rewrite Hd, Hm.
  set (c := if r =? 0 then 0 else match 2 * r ?= b with Lt => 1 | Eq => 2 | Gt => 3 end).
  assert (Hc : 0 <= c <= 3 /\ (c = 0 <-> r = 0)).
  { unfold c. destruct (Z.eqb_spec r 0); [lia|]. destruct (2 * r ?= b); lia. }
  destruct (divmod4 q c ltac:(lia)) as [-> ->].
  assert (Hr2 : r2 = 0 \/ r2 = 1) by lia.
  clearbody c r2 q2 r q.
  destruct (Z.eqb_spec c 0) as [Hc0|Hc0].
  - assert (r = 0) by lia. subst r.
    destruct Hr2 as [-> | ->]; rewrite ?Z.mul_0_l, ?Z.mul_1_l, ?Z.add_0_r.
    + rewrite ?Z.eqb_refl. lia.
    + destruct (Z.eqb_spec b 0); [lia|].
      rewrite Z.compare_refl. lia.
  - assert (r <> 0) by lia.
    destruct Hr2 as [-> | ->]; rewrite ?Z.mul_0_l, ?Z.mul_1_l, ?Z.add_0_l.
    + destruct (Z.eqb_spec r 0); [lia|].
      destruct (Z.compare_spec (2 * r) (2 * b)); lia.
    + destruct (Z.eqb_spec (b + r) 0); [lia|].
      destruct (Z.compare_spec (2 * (b + r)) (2 * b)); lia.
Qed.

Lemma qpos_split (a b : Z) :
  exists c, 0 <= c < 4 /\ qpos a b = 4 * (a / b) + c.
Proof.
  eexists; split; [|reflexivity].
  destruct (a mod b =? 0); [lia|]. destruct (2 * (a mod b) ?= b); lia.
Qed.

Lemma qpos_div4 (a b : Z) : qpos a b / 4 = a / b.
Proof.
  destruct (qpos_split a b) as (c & Hc & ->). apply (divmod4 _ _ Hc).
Qed.

Lemma rpos_div4 (r : shr_record) : rpos r / 4 = shr_m r.
Proof.
  destruct (rpos_split r) as (c & Hc & -> & _). apply (divmod4 _ _ Hc).
Qed.

Lemma qpos_exact (a : Z) : qpos a 1 = 4 * a.
Proof. unfold qpos. rewrite Z.mod_1_r, Z.div_1_r. simpl. lia. Qed.

Lemma iter_shr_1 (p : positive) :
  forall (r : shr_record) (a b : Z),
    0 <= a -> 0 < b -> 0 <= shr_m r -> rpos r = qpos a b ->
    0 <= shr_m (iter_pos shr_1 p r) /\
    rpos (iter_pos shr_1 p r) = qpos a (2 ^ Z.pos p * b).
Proof.
  assert (step : forall r a b, 0 <= a -> 0 < b -> 0 <= shr_m r ->
                   rpos r = qpos a b ->
                   0 <= shr_m (shr_1 r) /\ rpos (shr_1 r) = qpos a (2 * b)).
  { intros r a b Ha Hb Hm Hr. destruct (rpos_shr_1 r Hm) as [H1 H2].
    split; [exact H2|]. rewrite H1, Hr. symmetry. apply qpos_double; assumption. }
  induction p as [p IH|p IH|]; intros r a b Ha Hb Hm Hr; cbn [iter_pos].
  - destruct (step r a b Ha Hb Hm Hr) as [H1 H2].
    assert (Hp : 0 < 2 ^ Z.pos p) by (apply Z.pow_pos_nonneg; lia).
    destruct (IH _ a (2 * b) Ha ltac:(lia) H1 H2) as [H3 H4].
    destruct (IH _ a (2 ^ Z.pos p * (2 * b)) Ha ltac:(nia) H3 H4) as [H5 H6].
    split; [exact H5|]. rewrite H6. apply (f_equal (qpos a)).
    replace (Z.pos p~1) with (Z.pos p + Z.pos p + 1) by lia.
    rewrite !Z.pow_add_r, Z.pow_1_r by lia. ring.
  - assert (Hp : 0 < 2 ^ Z.pos p) by (apply Z.pow_pos_nonneg; lia).
    destruct (IH _ a b Ha Hb Hm Hr) as [H3 H4].
    destruct (IH _ a (2 ^ Z.pos p * b) Ha ltac:(nia) H3 H4) as [H5 H6].
    split; [exact H5|]. rewrite H6. apply (f_equal (qpos a)).
    replace (Z.pos p~0) with (Z.pos p + Z.pos p) by lia.
    rewrite Z.pow_add_r by lia. ring.
  - rewrite Z.pow_1_r. apply step; assumption.
Qed.

(** ** Digits and exponents *)

Lemma fexp_eq (e : Z) : fexp prec emax e = Z.max (e - 53) (-1074).
Proof. reflexivity. Qed.

Lemma digits2_bounds (m : positive) :
  2 ^ (Z.pos (digits2_pos m) - 1) <= Z.pos m < 2 ^ Z.pos (digits2_pos m).
Proof.
  induction m as [m IH|m IH|]; simpl digits2_pos.
  - rewrite Pos2Z.inj_succ. change (Z.pos m~1) with (2 * Z.pos m + 1).
    replace (Z.succ (Z.pos (digits2_pos m)) - 1) with (Z.succ (Z.pos (digits2_pos m) - 1)) by lia.
    rewrite !Z.pow_succ_r by lia. lia.
  - rewrite Pos2Z.inj_succ. change (Z.pos m~0) with (2 * Z.pos m).
    replace (Z.succ (Z.pos (digits2_pos m)) - 1) with (Z.succ (Z.pos (digits2_pos m) - 1)) by lia.
    rewrite !Z.pow_succ_r by lia. lia.
  - simpl. lia.
Qed.

Lemma Zdigits2_nonneg (m : Z) : 0 <= Zdigits2 m.
Proof. destruct m; simpl; lia. Qed.

Lemma Zdigits2_bounds (m : Z) :
  0 < m -> 2 ^ (Zdigits2 m - 1) <= m < 2 ^ Zdigits2 m.
Proof. destruct m; try lia. intros _. apply digits2_bounds. Qed.

Lemma Zdigits2_lt (m d : Z) : 0 <= m -> 0 <= d -> m < 2 ^ d -> Zdigits2 m <= d.
Proof.
  intros Hm Hd H. destruct (Z.eq_dec m 0) as [->|Hn]; [simpl; lia|].
  pose proof (Zdigits2_bounds m ltac:(lia)) as [Hl _].
  destruct (Z_lt_le_dec d (Zdigits2 m)) as [Hlt|]; [|assumption].
  assert (2 ^ d <= 2 ^ (Zdigits2 m - 1)) by (apply Z.pow_le_mono_r; lia). lia.
Qed.

Lemma Zdigits2_ge (m d : Z) : 0 <= d -> 2 ^ d <= m -> d < Zdigits2 m.
Proof.
  intros Hd H.
  assert (0 < 2 ^ d) by (apply Z.pow_pos_nonneg; lia).
  pose proof (Zdigits2_bounds m ltac:(lia)) as [_ Hu].
  destruct (Z_lt_le_dec d (Zdigits2 m)) as [|Hle]; [assumption|].
  assert (2 ^ Zdigits2 m <= 2 ^ d) by (apply Z.pow_le_mono_r; lia). lia.
Qed.

(** ** What [binary_round_aux] computes *)

Lemma shr_fexp_spec (m e : Z) (l : location) (a b : Z) :
  0 <= a -> 0 < b -> 4 * m + loc_code l = qpos a b ->
  e <= fexp prec emax (Zdigits2 m + e) ->
  exists r,
    shr_fexp prec emax m e l = (r, fexp prec emax (Zdigits2 m + e)) /\
    0 <= shr_m r /\
    rpos r = qpos a (2 ^ (fexp prec emax (Zdigits2 m + e) - e) * b).
Proof.
  intros Ha Hb Hl He.
  assert (Hm : m = a / b).
  { rewrite <- qpos_div4, <- Hl.
    symmetry; apply divmod4. destruct l as [|[| |]]; simpl; lia. }
  assert (Hm0 : 0 <= m) by (subst m; apply Z.div_pos; lia).
  unfold shr_fexp, shr.
  set (E := fexp prec emax (Zdigits2 m + e)) in *.
  destruct (E - e) as [|n|n] eqn:En; try lia.
  - exists (shr_record_of_loc m l). replace E with e by lia.
    rewrite shr_m_of_loc, rpos_of_loc, Hl, Z.pow_0_r, Z.mul_1_l.
    repeat split; assumption.
  - destruct (iter_shr_1 n (shr_record_of_loc m l) a b Ha Hb) as [H1 H2].
    + rewrite shr_m_of_loc; assumption.
    + rewrite rpos_of_loc; assumption.
    + exists (iter_pos shr_1 n (shr_record_of_loc m l)).
      replace (e + Z.pos n) with E by lia. repeat split; assumption.
Qed.

(** On a mantissa located with respect to [(a / b) * 2 ^ e], and not
    shorter than the format allows, [binary_round_aux] returns [RN s a b e]. *)
Lemma binary_round_aux_RN (s : bool) (m e : Z) (l : location) (a b : Z) :
  0 <= a -> 0 < b -> 4 * m + loc_code l = qpos a b ->
  e <= fexp prec emax (Zdigits2 m + e) ->
  binary_round_aux prec emax s m e l = RN s a b e.
Proof.
  intros Ha Hb Hl He.
  assert (Hm : m = a / b).
  { rewrite <- qpos_div4, <- Hl.
    symmetry; apply divmod4. destruct l as [|[| |]]; simpl; lia. }
  destruct (shr_fexp_spec m e l a b Ha Hb Hl He) as (r & Hr & Hr0 & Hrp).
  unfold binary_round_aux, RN. rewrite Hr, rne_rpos, Hrp, <- Hm. reflexivity.
Qed.

Lemma stage2_norm (s : bool) (M E : Z) :
  0 <= M <= 2 ^ 53 -> -1074 <= E -> stage2 s M E = norm s M E.
Proof.
  intros HM HE. unfold stage2, norm, shr_fexp, shr.
  destruct (Z.ltb_spec M (2 ^ 53)) as [Hlt|Hge].
  - assert (Hd : Zdigits2 M <= 53) by (apply Zdigits2_lt; lia).
    rewrite fexp_eq.
    destruct (Z.max (Zdigits2 M + E - 53) (-1074) - E) as [|n|n] eqn:En; try lia;
      rewrite shr_m_of_loc; reflexivity.
  - assert (M = 2 ^ 53) by lia. subst M.
    change (Zdigits2 (2 ^ 53)) with 54. rewrite fexp_eq.
    replace (Z.max (54 + E - 53) (-1074) - E) with 1 by lia.
    reflexivity.
Qed.

Lemma rne_bounds (p : Z) : p / 4 <= rne p <= p / 4 + 1.
Proof.
  unfold rne. destruct (p mod 4 <=? 1); [lia|].
  destruct (p mod 4 =? 2); [|lia]. destruct (Z.even (p / 4)); lia.
Qed.

Lemma rne_mono (p q : Z) : p <= q -> rne p <= rne q.
Proof.
  intros Hpq.
  pose proof (Z.div_mod p 4 ltac:(lia)) as Hp.
  pose proof (Z.div_mod q 4 ltac:(lia)) as Hq.
  pose proof (Z.mod_pos_bound p 4 ltac:(lia)) as Hp4.
  pose proof (Z.mod_pos_bound q 4 ltac:(lia)) as Hq4.
  pose proof (rne_bounds p) as Bp. pose proof (rne_bounds q) as Bq.
  destruct (Z.eq_dec (p / 4) (q / 4)) as [E|N]; [|lia].
  unfold rne in *. rewrite E in *.
  destruct (Z.leb_spec (p mod 4) 1), (Z.leb_spec (q mod 4) 1); try lia;
    destruct (Z.eqb_spec (p mod 4) 2), (Z.eqb_spec (q mod 4) 2);
    destruct (Z.even (q / 4)); lia.
Qed.

Lemma rne_exact (m : Z) : rne (4 * m) = m.
Proof.
  unfold rne. replace (4 * m) with (4 * m + 0) by lia.
  destruct (divmod4 m 0 ltac:(lia)) as [-> ->]. reflexivity.
Qed.

Lemma RN_man_bounds (a b e : Z) :
  RN_pre a b e ->
  0 <= RN_man a b e <= 2 ^ 53 /\ -1074 <= RN_exp a b e /\
  (-1074 < RN_exp a b e -> 2 ^ 52 <= RN_man a b e).
Proof.
  intros (Ha & Hb & He). unfold RN_man.
  set (E := RN_exp a b e) in *.
  assert (HE : E = Z.max (Zdigits2 (a / b) + e - 53) (-1074)) by reflexivity.
  set (n := E - e). assert (Hn : 0 <= n) by lia.
  assert (Hp : 0 < 2 ^ n) by (apply Z.pow_pos_nonneg; lia).
  pose proof (rne_bounds (qpos a (2 ^ n * b))) as Hr.
  rewrite qpos_div4 in Hr.
  assert (Hdiv : a / (2 ^ n * b) = a / b / 2 ^ n).
  { rewrite Z.mul_comm. symmetry. apply Z.div_div; lia. }
  rewrite Hdiv in Hr.
  set (m := a / b) in *.
  assert (Hm0 : 0 <= m) by (apply Z.div_pos; lia).
  set (d := Zdigits2 m) in *.
  assert (Hd0 : 0 <= d) by apply Zdigits2_nonneg.
  assert (Hmd : m < 2 ^ d).
  { destruct (Z.eq_dec m 0) as [E0|N0].
    - rewrite E0. apply Z.pow_pos_nonneg; lia.
    - apply Zdigits2_bounds; lia. }
  assert (Hup : m / 2 ^ n < 2 ^ 53).
  { apply Z.div_lt_upper_bound; [lia|].
    rewrite <- Z.pow_add_r by lia.
    assert (2 ^ d <= 2 ^ (n + 53)) by (apply Z.pow_le_mono_r; lia). lia. }
  assert (Hlo : 0 <= m / 2 ^ n) by (apply Z.div_pos; lia).
  split; [lia|]. split; [lia|].
  intros HEgt.
  assert (Hm1 : 0 < m).
  { destruct (Z.eq_dec m 0) as [E0|N0]; [|lia].
    exfalso. unfold d in HE. rewrite E0 in HE. simpl in HE. lia. }
  assert (Hnd : n = d - 53) by lia.
  assert (2 ^ 52 <= m / 2 ^ n); [|lia].
  apply Z.div_le_lower_bound; [lia|].
  rewrite Z.mul_comm, <- Z.pow_add_r by lia.
  replace (52 + n) with (d - 1) by lia.
  apply Zdigits2_bounds; lia.
Qed.

(** [RN s a b e] has mantissa [RN_man a b e] at exponent [RN_exp a b e]. *)
Lemma RN_norm (s : bool) (a b e : Z) :
  RN_pre a b e ->
  RN s a b e = norm s (RN_man a b e) (RN_exp a b e).
Proof.
  intros H. destruct (RN_man_bounds a b e H) as (H1 & H2 & _).
  unfold RN. apply stage2_norm; assumption.
Qed.

Lemma norm_valid (s : bool) (M E : Z) :
  0 <= M <= 2 ^ 53 -> -1074 <= E -> (-1074 < E -> 2 ^ 52 <= M) ->
  valid_binary (norm s M E) = true.
Proof.
  intros HM HE Hn. unfold norm.
  destruct (Z.ltb_spec M (2 ^ 53)) as [Hlt|Hge].
  - unfold fin. destruct M as [|m|m]; try reflexivity.
    destruct (Z.leb_spec E (emax - prec)) as [Hle|Hgt]; [|reflexivity].
    unfold SpecFloat.valid_binary, bounded, canonical_mantissa.
    apply andb_true_intro. split; [|apply Z.leb_le; assumption].
    apply Z.eqb_eq. rewrite fexp_eq.
    change (Z.pos (digits2_pos m)) with (Zdigits2 (Z.pos m)).
    assert (Zdigits2 (Z.pos m) <= 53) by (apply Zdigits2_lt; lia).
    destruct (Z.eq_dec E (-1074)) as [->|Hne]; [lia|].
    assert (52 < Zdigits2 (Z.pos m)) by (apply Zdigits2_ge; lia). lia.
  - unfold fin. change (2 ^ 52) with (Z.pos (2 ^ 52)).
    destruct (Z.leb_spec (E + 1) (emax - prec)) as [Hle|Hgt]; [|reflexivity].
    unfold SpecFloat.valid_binary, bounded, canonical_mantissa.
    apply andb_true_intro. split; [|apply Z.leb_le; assumption].
    apply Z.eqb_eq. rewrite fexp_eq.
    change (Z.pos (digits2_pos (2 ^ 52))) with 53. lia.
Qed.

Lemma RN_valid (s : bool) (a b e : Z) :
  RN_pre a b e -> valid_binary (RN s a b e) = true.
Proof.
  intros H. rewrite RN_norm by assumption.
  destruct (RN_man_bounds a b e H) as (H1 & H2 & H3).
  apply norm_valid; assumption.
Qed.

(** ** Rounding is monotone *)

Lemma qpos_mono (a1 b1 a2 b2 : Z) :
  0 <= a1 -> 0 < b1 -> 0 <= a2 -> 0 < b2 ->
  a1 * b2 <= a2 * b1 -> qpos a1 b1 <= qpos a2 b2.
Proof.
  intros Ha1 Hb1 Ha2 Hb2 Hle. unfold qpos.
  pose proof (Z.div_mod a1 b1 ltac:(lia)) as H1.
  pose proof (Z.div_mod a2 b2 ltac:(lia)) as H2.
  pose proof (Z.mod_pos_bound a1 b1 Hb1) as R1.
  pose proof (Z.mod_pos_bound a2 b2 Hb2) as R2.
  set (q1 := a1 / b1) in *. set (r1 := a1 mod b1) in *.
  set (q2 := a2 / b2) in *. set (r2 := a2 mod b2) in *.
  clearbody q1 r1 q2 r2.
  assert (Hq : q1 <= q2).
  { destruct (Z_le_gt_dec q1 q2) as [|Hgt]; [assumption|exfalso].
    assert (b1 * b2 * (q2 + 1) <= b1 * b2 * q1) by (apply Z.mul_le_mono_nonneg_l; nia).
    assert (r2 * b1 < b2 * b1) by (apply Z.mul_lt_mono_pos_r; lia).
    assert (0 <= r1 * b2) by nia.
    nia. }
  assert (C1 : 0 <= (if r1 =? 0 then 0
                     else match 2 * r1 ?= b1 with Lt => 1 | Eq => 2 | Gt => 3 end) <= 3).
  { destruct (r1 =? 0); [lia|]. destruct (2 * r1 ?= b1); lia. }
  assert (C2 : 0 <= (if r2 =? 0 then 0
                     else match 2 * r2 ?= b2 with Lt => 1 | Eq => 2 | Gt => 3 end) <= 3).
  { destruct (r2 =? 0); [lia|]. destruct (2 * r2 ?= b2); lia. }
  destruct (Z.eq_dec q1 q2) as [E|N]; [|lia].
  subst q2. assert (Hr : r1 * b2 <= r2 * b1) by nia.
  destruct (Z.eqb_spec r1 0) as [E1|N1]; [lia|].
  destruct (Z.eqb_spec r2 0) as [E2|N2]; [nia|].
  destruct (Z.compare_spec (2 * r1) b1), (Z.compare_spec (2 * r2) b2); try lia; nia.
Qed.

Lemma pow2_pos (n : Z) : 0 <= n -> 0 < 2 ^ n.
Proof. intros; apply Z.pow_pos_nonneg; lia. Qed.

Lemma pow2_split (n k : Z) : 0 <= k <= n -> 2 ^ n = 2 ^ k * 2 ^ (n - k).
Proof. intros H. rewrite <- Z.pow_add_r by lia. f_equal. lia. Qed.

Lemma units_norm (M E : Z) :
  0 <= M <= 2 ^ 53 -> -1074 <= E -> (-1074 < E -> 2 ^ 52 <= M) ->
  units (norm false M E) = Z.min (M * 2 ^ (E + 1074)) (2 ^ 2098).
Proof.
  intros HM HE Hn.
  assert (HK : 2 ^ 2098 = 2 ^ 53 * 2 ^ 2045) by (apply (pow2_split 2098 53); lia).
  assert (HX : 0 < 2 ^ 2045) by (apply pow2_pos; lia).
  assert (HP : 0 < 2 ^ (E + 1074)) by (apply pow2_pos; lia).
  set (X := 2 ^ 2045) in *. set (K := 2 ^ 2098) in *.
  unfold norm.
  destruct (Z.ltb_spec M (2 ^ 53)) as [Hlt|Hge].
  - unfold fin. destruct M as [|m|m]; [simpl; lia| |lia].
    change (emax - prec) with 971.
    destruct (Z.leb_spec E 971) as [Hle|Hgt]; unfold units; fold K.
    + assert (2 ^ (E + 1074) <= X) by (apply Z.pow_le_mono_r; lia).
      set (P := 2 ^ (E + 1074)) in *. clearbody P X K.
      assert (Z.pos m * P <= (2 ^ 53 - 1) * X).
      { apply Z.mul_le_mono_nonneg; lia. }
      lia.
    + assert (2 * X <= 2 ^ (E + 1074)).
      { unfold X. change 2 with (2 ^ 1) at 1. rewrite <- Z.pow_add_r by lia.
        apply Z.pow_le_mono_r; lia. }
      set (P := 2 ^ (E + 1074)) in *. clearbody P X K.
      assert (2 ^ 52 * (2 * X) <= Z.pos m * P).
      { apply Z.mul_le_mono_nonneg; lia. }
      lia.
  - assert (M = 2 ^ 53) by lia. subst M.
    unfold fin. change (2 ^ 52) with (Z.pos (2 ^ 52)).
    assert (HP1 : 2 ^ (E + 1 + 1074) = 2 * 2 ^ (E + 1074)).
    { replace (E + 1 + 1074) with (1 + (E + 1074)) by lia.
      rewrite Z.pow_add_r by lia. reflexivity. }
    change (emax - prec) with 971.
    destruct (Z.leb_spec (E + 1) 971) as [Hle|Hgt]; unfold units; fold K.
    + rewrite HP1.
      assert (2 * 2 ^ (E + 1074) <= X).
      { unfold X. rewrite <- HP1. apply Z.pow_le_mono_r; lia. }
      set (P := 2 ^ (E + 1074)) in *. clearbody P X K. lia.
    + assert (X <= 2 ^ (E + 1074)).
      { unfold X. apply Z.pow_le_mono_r; lia. }
      set (P := 2 ^ (E + 1074)) in *. clearbody P X K. lia.
Qed.

Lemma units_RN (a b e : Z) :
  RN_pre a b e ->
  units (RN false a b e) =
  Z.min (RN_man a b e * 2 ^ (RN_exp a b e + 1074)) (2 ^ 2098).
Proof.
  intros H. rewrite RN_norm by assumption.
  destruct (RN_man_bounds a b e H) as (H1 & H2 & H3).
  apply units_norm; assumption.
Qed.

Lemma RN_exp_mono (L a1 b1 e1 a2 b2 e2 : Z) :
  RN_pre a1 b1 e1 -> RN_pre a2 b2 e2 -> vle L a1 b1 e1 a2 b2 e2 ->
  RN_exp a1 b1 e1 <= RN_exp a2 b2 e2.
Proof.
  intros (Ha1 & Hb1 & He1) (Ha2 & Hb2 & He2) (HL1 & HL2 & Hv).
  unfold RN_exp in *. rewrite !fexp_eq in *.
  set (m1 := a1 / b1) in *. set (m2 := a2 / b2) in *.
  assert (Hm1 : 0 <= m1) by (apply Z.div_pos; lia).
  assert (Hm2 : 0 <= m2) by (apply Z.div_pos; lia).
  destruct (Z.eq_dec m1 0) as [E0|N0].
  { rewrite E0 in *. simpl Zdigits2 in *. lia. }
  destruct (Z_le_gt_dec (Zdigits2 m1 + e1) (Zdigits2 m2 + e2)) as [|Hgt]; [lia|].
  exfalso.
  pose proof (Zdigits2_bounds m1 ltac:(lia)) as [Hlo1 _].
  assert (Hup2 : m2 + 1 <= 2 ^ Zdigits2 m2).
  { destruct (Z.eq_dec m2 0) as [E2|N2].
    - rewrite E2. simpl. lia.
    - pose proof (Zdigits2_bounds m2 ltac:(lia)). lia. }
  pose proof (Zdigits2_nonneg m2) as Hd2.
  assert (Hd1 : 1 <= Zdigits2 m1).
  { destruct m1; try lia. simpl. lia. }
  assert (Hmb1 : m1 * b1 <= a1).
  { unfold m1. rewrite Z.mul_comm. apply Z.mul_div_le; lia. }
  assert (Hmb2 : a2 < b2 * (m2 + 1)).
  { unfold m2. apply Z.mul_succ_div_gt; lia. }
  assert (Hpow : 2 ^ Zdigits2 m2 * 2 ^ (e2 - L) <= 2 ^ (Zdigits2 m1 - 1) * 2 ^ (e1 - L)).
  { rewrite <- !Z.pow_add_r by lia. apply Z.pow_le_mono_r; lia. }
  assert (HU : 0 < 2 ^ (e1 - L)) by (apply pow2_pos; lia).
  assert (HV : 0 < 2 ^ (e2 - L)) by (apply pow2_pos; lia).
  set (A := 2 ^ (Zdigits2 m1 - 1)) in *. set (U := 2 ^ (e1 - L)) in *.
  set (D := 2 ^ Zdigits2 m2) in *. set (V := 2 ^ (e2 - L)) in *.
  clearbody A U D V m1 m2.
  assert (S1 : A * b1 <= a1) by nia.
  assert (S2 : a2 < b2 * D) by nia.
  assert (S3 : a2 * b1 * V < b2 * D * b1 * V).
  { apply Z.mul_lt_mono_pos_r; [lia|]. apply Z.mul_lt_mono_pos_r; lia. }
  assert (S4 : b2 * D * b1 * V = (D * V) * (b1 * b2)) by ring.
  assert (S5 : (D * V) * (b1 * b2) <= (A * U) * (b1 * b2)).
  { apply Z.mul_le_mono_nonneg_r; nia. }
  assert (S6 : (A * U) * (b1 * b2) = (A * b1) * (b2 * U)) by ring.
  assert (S7 : (A * b1) * (b2 * U) <= a1 * (b2 * U)).
  { apply Z.mul_le_mono_nonneg_r; nia. }
  nia.
Qed.

(** A smaller exact value is rounded to a smaller binary64 value. *)
Lemma RN_units_mono (L a1 b1 e1 a2 b2 e2 : Z) :
  RN_pre a1 b1 e1 -> RN_pre a2 b2 e2 -> vle L a1 b1 e1 a2 b2 e2 ->
  units (RN false a1 b1 e1) <= units (RN false a2 b2 e2).
Proof.
  intros P1 P2 Hv.
  pose proof (RN_exp_mono L a1 b1 e1 a2 b2 e2 P1 P2 Hv) as HE.
  rewrite !units_RN by assumption.
  apply Z.min_le_compat_r.
  destruct (RN_man_bounds a1 b1 e1 P1) as (M1 & E1 & N1).
  destruct (RN_man_bounds a2 b2 e2 P2) as (M2 & E2 & N2).
  destruct (Z.eq_dec (RN_exp a1 b1 e1) (RN_exp a2 b2 e2)) as [Eq|Ne].
  - rewrite <- Eq. apply Z.mul_le_mono_nonneg_r.
    + apply Z.lt_le_incl, pow2_pos; lia.
    + unfold RN_man. rewrite <- Eq. set (E := RN_exp a1 b1 e1) in *.
      destruct P1 as (Ha1 & Hb1 & He1). destruct P2 as (Ha2 & Hb2 & He2).
      destruct Hv as (HL1 & HL2 & Hv).
      assert (S1 : 0 < 2 ^ (E - e1)) by (apply pow2_pos; lia).
      assert (S2 : 0 < 2 ^ (E - e2)) by (apply pow2_pos; lia).
      assert (U1 : 0 < 2 ^ (e1 - L)) by (apply pow2_pos; lia).
      assert (U2 : 0 < 2 ^ (e2 - L)) by (apply pow2_pos; lia).
      assert (T : 2 ^ (E - e1) * 2 ^ (e1 - L) = 2 ^ (E - e2) * 2 ^ (e2 - L)).
      { rewrite <- !Z.pow_add_r by lia. f_equal. lia. }
      apply rne_mono, qpos_mono; try lia; try nia.
      set (s1 := 2 ^ (E - e1)) in *. set (s2 := 2 ^ (E - e2)) in *.
      set (u1 := 2 ^ (e1 - L)) in *. set (u2 := 2 ^ (e2 - L)) in *.
      clearbody s1 s2 u1 u2.
      apply (Z.mul_le_mono_pos_r _ _ u2); [lia|].
      replace (a1 * (s2 * b2) * u2) with (a1 * b2 * u1 * s1)
        by (transitivity (a1 * b2 * (s2 * u2)); [rewrite <- T|]; ring).
      replace (a2 * (s1 * b1) * u2) with (a2 * b1 * u2 * s1) by ring.
      apply Z.mul_le_mono_nonneg_r; lia.
  - assert (Hlt : RN_exp a1 b1 e1 + 1 <= RN_exp a2 b2 e2) by lia.
    assert (H52 : 2 ^ 52 <= RN_man a2 b2 e2) by (apply N2; lia).
    assert (Hp : 2 * 2 ^ (RN_exp a1 b1 e1 + 1074) <= 2 ^ (RN_exp a2 b2 e2 + 1074)).
    { change 2 with (2 ^ 1) at 1. rewrite <- Z.pow_add_r by lia.
      apply Z.pow_le_mono_r; lia. }
    assert (Hq : 0 < 2 ^ (RN_exp a1 b1 e1 + 1074)) by (apply pow2_pos; lia).
    set (X1 := 2 ^ (RN_exp a1 b1 e1 + 1074)) in *.
    set (X2 := 2 ^ (RN_exp a2 b2 e2 + 1074)) in *.
    set (m1 := RN_man a1 b1 e1) in *. set (m2 := RN_man a2 b2 e2) in *.
    clearbody X1 X2 m1 m2.
    assert (m1 * X1 <= 2 ^ 53 * X1) by (apply Z.mul_le_mono_nonneg_r; lia).
    assert (2 ^ 52 * X2 <= m2 * X2) by (apply Z.mul_le_mono_nonneg_r; lia).
    lia.
Qed.

(** ** The order of the binary64 values *)

Lemma bounded_facts (m : positive) (e : Z) :
  bounded prec emax m e = true ->
  -1074 <= e <= 971 /\ Z.pos m < 2 ^ 53 /\ (-1074 < e -> 2 ^ 52 <= Z.pos m) /\
  fexp prec emax (Zdigits2 (Z.pos m) + e) = e.
Proof.
  unfold bounded, canonical_mantissa. intros H.
  apply andb_prop in H. destruct H as [H1 H2].
  apply Z.eqb_eq in H1. apply Z.leb_le in H2. change (emax - prec) with 971 in H2.
  change (Z.pos (digits2_pos m)) with (Zdigits2 (Z.pos m)) in H1.
  pose proof H1 as H1'. rewrite fexp_eq in H1.
  pose proof (Zdigits2_bounds (Z.pos m) ltac:(lia)) as [Hlo Hup].
  assert (Hd : Zdigits2 (Z.pos m) <= 53) by lia.
  assert (Hp : 2 ^ Zdigits2 (Z.pos m) <= 2 ^ 53) by (apply Z.pow_le_mono_r; lia).
  split; [lia|]. split; [lia|]. split; [|exact H1'].
  intros He. assert (Hd53 : Zdigits2 (Z.pos m) = 53) by lia.
  rewrite Hd53 in Hlo. exact Hlo.
Qed.

Lemma canonical_lt (m1 : positive) (e1 : Z) (m2 : positive) (e2 : Z) :
  bounded prec emax m1 e1 = true -> bounded prec emax m2 e2 = true ->
  e1 < e2 ->
  Z.pos m1 * 2 ^ (e1 + 1074) < Z.pos m2 * 2 ^ (e2 + 1074).
Proof.
  intros B1 B2 Hlt.
  destruct (bounded_facts _ _ B1) as (E1 & M1 & _ & _).
  destruct (bounded_facts _ _ B2) as (E2 & M2 & N2 & _).
  assert (H52 : 2 ^ 52 <= Z.pos m2) by (apply N2; lia).
  assert (Hp : 2 * 2 ^ (e1 + 1074) <= 2 ^ (e2 + 1074)).
  { change 2 with (2 ^ 1) at 1. rewrite <- Z.pow_add_r by lia.
    apply Z.pow_le_mono_r; lia. }
  assert (Hq : 0 < 2 ^ (e1 + 1074)) by (apply pow2_pos; lia).
  set (X1 := 2 ^ (e1 + 1074)) in *. set (X2 := 2 ^ (e2 + 1074)) in *.
  clearbody X1 X2.
  assert (Z.pos m1 * X1 < 2 ^ 53 * X1) by (apply Z.mul_lt_mono_pos_r; lia).
  assert (2 ^ 52 * X2 <= Z.pos m2 * X2) by (apply Z.mul_le_mono_nonneg_r; lia).
  lia.
Qed.

Lemma units_finite_bounds (m : positive) (e : Z) :
  bounded prec emax m e = true ->
  0 < Z.pos m * 2 ^ (e + 1074) < 2 ^ 2098.
Proof.
  intros B. destruct (bounded_facts _ _ B) as (E & M & _ & _).
  assert (HK : 2 ^ 2098 = 2 ^ 53 * 2 ^ 2045) by (apply (pow2_split 2098 53); lia).
  assert (Hq : 0 < 2 ^ (e + 1074)) by (apply pow2_pos; lia).
  assert (Hp : 2 ^ (e + 1074) <= 2 ^ 2045) by (apply Z.pow_le_mono_r; lia).
  set (X := 2 ^ (e + 1074)) in *. set (Y := 2 ^ 2045) in *. set (K := 2 ^ 2098) in *.
  clearbody X Y K.
  assert (Z.pos m * X < 2 ^ 53 * X) by (apply Z.mul_lt_mono_pos_r; lia).
  assert (2 ^ 53 * X <= 2 ^ 53 * Y) by (apply Z.mul_le_mono_nonneg_l; lia).
  split; [|lia]. apply Z.mul_pos_pos; lia.
Qed.

Lemma units_bounds (x : spec_float) :
  valid_binary x = true -> nonneg x = true -> 0 <= units x <= 2 ^ 2098.
Proof.
  assert (HK : 0 < 2 ^ 2098) by (apply pow2_pos; lia).
  destruct x as [s|[|]| |[|] m e]; unfold units, nonneg, SpecFloat.valid_binary;
    intros V N; try discriminate; try lia.
  pose proof (units_finite_bounds m e V). lia.
Qed.

(** On valid non-negative values [<=] is the order of the unitss. *)
Lemma SFleb_units (x y : spec_float) :
  valid_binary x = true -> valid_binary y = true ->
  nonneg x = true -> nonneg y = true ->
  SFleb x y = true <-> units x <= units y.
Proof.
  assert (HK : 0 < 2 ^ 2098) by (apply pow2_pos; lia).
  intros Vx Vy Nx Ny.
  destruct x as [sx|[|]| |[|] mx ex]; try discriminate Nx;
    destruct y as [sy|[|]| |[|] my ey]; try discriminate Ny;
    unfold SpecFloat.valid_binary in Vx, Vy; unfold SFleb, SFcompare, units.
  - split; intros; [lia|reflexivity].
  - split; intros; [lia|reflexivity].
  - pose proof (units_finite_bounds my ey Vy). split; intros; [lia|reflexivity].
  - split; intros; [discriminate|lia].
  - split; intros; [lia|reflexivity].
  - pose proof (units_finite_bounds my ey Vy). split; intros; [discriminate|lia].
  - pose proof (units_finite_bounds mx ex Vx). split; intros; [discriminate|lia].
  - pose proof (units_finite_bounds mx ex Vx). split; intros; [lia|reflexivity].
  - destruct (Z.compare_spec ex ey) as [E|L|G].
    + subst ey. rewrite Pos.compare_cont_spec. cbn [Pos.switch_Eq].
      assert (Hq : 0 < 2 ^ (ex + 1074)).
      { destruct (bounded_facts _ _ Vx) as (E & _). apply pow2_pos; lia. }
      destruct (Pos.compare_spec mx my) as [E|L|G].
      * subst. split; intros; [lia|reflexivity].
      * split; intros; [|reflexivity].
        apply Z.mul_le_mono_nonneg_r; lia.
      * split; intros H; [discriminate|].
        assert (Z.pos my * 2 ^ (ex + 1074) < Z.pos mx * 2 ^ (ex + 1074))
          by (apply Z.mul_lt_mono_pos_r; lia). lia.
    + pose proof (canonical_lt _ _ _ _ Vx Vy L). split; intros; [lia|reflexivity].
    + pose proof (canonical_lt _ _ _ _ Vy Vx G). split; intros; [discriminate|lia].
Qed.

(** ** Multiplication and division by 100 *)

Lemma c100_eq : Prim2SF 100 = c100.
Proof. reflexivity. Qed.

Lemma RN_pre_exact (a e : Z) :
  0 <= a -> e <= fexp prec emax (Zdigits2 a + e) -> RN_pre a 1 e.
Proof.
  intros Ha He. unfold RN_pre, RN_exp. rewrite Z.div_1_r. repeat split; lia.
Qed.

Lemma mul100_finite (s : bool) (m : positive) (e : Z) :
  SF64mul (S754_finite s m e) c100 = RN s (Z.pos m * m100) 1 (e + -46) /\
  RN_pre (Z.pos m * m100) 1 (e + -46).
Proof.
  assert (Hpre : RN_pre (Z.pos m * m100) 1 (e + -46)).
  { apply RN_pre_exact; [unfold m100; lia|].
    rewrite fexp_eq.
    assert (52 < Zdigits2 (Z.pos m * m100)).
    { apply Zdigits2_ge; [lia|]. unfold m100. change (2 ^ 52) with 4503599627370496. lia. }
    lia. }
  split; [|exact Hpre].
  unfold SF64mul, SFmul, c100. rewrite xorb_false_r.
  change (Z.pos (m * 7036874417766400)) with (Z.pos m * m100).
  apply binary_round_aux_RN.
  - unfold m100; lia.
  - lia.
  - rewrite qpos_exact. simpl loc_code. lia.
  - destruct Hpre as (_ & _ & H). unfold RN_exp in H. rewrite Z.div_1_r in H. exact H.
Qed.

Lemma div100_finite (s : bool) (m : positive) (e : Z) :
  let e' := div100_exp m e in
  let a := Z.pos m * 2 ^ (e + 46 - e') in
  SF64div (S754_finite s m e) c100 = RN s a m100 e' /\ RN_pre a m100 e'.
Proof.
  intros e' a.
  assert (He' : e' <= e + 46) by (unfold e', div100_exp; lia).
  assert (He'' : e' <= fexp prec emax (Zdigits2 (Z.pos m) + e - 7))
    by (unfold e', div100_exp; lia).
  set (sh := e + 46 - e') in *.
  assert (Hsh : 0 <= sh) by (unfold sh; lia).
  assert (Hp : 0 < 2 ^ sh) by (apply pow2_pos; lia).
  assert (Ha : 0 < a) by (unfold a; nia).
  assert (Hpre : RN_pre a m100 e').
  { unfold RN_pre, RN_exp. split; [lia|]. split; [unfold m100; lia|].
    set (d := Zdigits2 (Z.pos m)) in *.
    pose proof (Zdigits2_bounds (Z.pos m) ltac:(lia)) as [Hlo _]. fold d in Hlo.
    assert (Hd : 1 <= d) by (unfold d; simpl; lia).
    rewrite fexp_eq in *.
    destruct (Z_lt_le_dec (d - 1 + sh) 53) as [Hsmall|Hbig].
    - pose proof (Zdigits2_nonneg (a / m100)). lia.
    - assert (Hq : 2 ^ (d + sh - 54) <= a / m100).
      { apply Z.div_le_lower_bound; [unfold m100; lia|].
        assert (m100 * 2 ^ (d + sh - 54) <= 2 ^ 53 * 2 ^ (d + sh - 54)).
        { apply Z.mul_le_mono_nonneg_r; [apply Z.lt_le_incl, pow2_pos; lia|].
          unfold m100. change (2 ^ 53) with 9007199254740992. lia. }
        assert (2 ^ 53 * 2 ^ (d + sh - 54) = 2 ^ (d - 1) * 2 ^ sh).
        { rewrite <- !Z.pow_add_r by lia. f_equal. lia. }
        assert (2 ^ (d - 1) * 2 ^ sh <= Z.pos m * 2 ^ sh)
          by (apply Z.mul_le_mono_nonneg_r; lia).
        unfold a. lia. }
      assert (d + sh - 54 < Zdigits2 (a / m100)) by (apply Zdigits2_ge; lia).
      unfold sh in *. lia. }
  split; [|exact Hpre].
  unfold SF64div, SFdiv, SFdiv_core_binary, c100. rewrite xorb_false_r.
  change (Zdigits2 (Z.pos 7036874417766400)) with 53.
  replace (Zdigits2 (Z.pos m) + e - (53 + -46)) with (Zdigits2 (Z.pos m) + e - 7) by lia.
  replace (e - -46) with (e + 46) by lia.
  fold (div100_exp m e). fold e'.
  fold sh.
  assert (Hm' : match sh with
                | 0 => Z.pos m
                | Z.pos _ => Z.shiftl (Z.pos m) sh
                | Z.neg _ => 0
                end = a).
  { unfold a. destruct sh as [|p|p] eqn:E; [rewrite Z.pow_0_r; lia| |lia].
    rewrite Z.shiftl_mul_pow2 by lia. reflexivity. }
  rewrite Hm'. change (Z.pos 7036874417766400) with m100.
  assert (Hdm : Z.div_eucl a m100 = (a / m100, a mod m100)).
  { unfold Z.div, Z.modulo. destruct (Z.div_eucl a m100); reflexivity. }
  rewrite Hdm.
  apply binary_round_aux_RN.
  - lia.
  - unfold m100; lia.
  - unfold qpos, new_location. change (Z.even m100) with true. cbv iota.
    unfold new_location_even. f_equal.
    destruct (a mod m100 =? 0); [reflexivity|].
    destruct (2 * (a mod m100) ?= m100); reflexivity.
  - destruct Hpre as (_ & _ & H). exact H.
Qed.

(** ** Whole numbers as binary64 values *)

Lemma Zdigits2_unique (m d : Z) :
  1 <= d -> 2 ^ (d - 1) <= m < 2 ^ d -> Zdigits2 m = d.
Proof.
  intros Hd [Hlo Hup].
  assert (0 < 2 ^ (d - 1)) by (apply pow2_pos; lia).
  assert (Zdigits2 m <= d) by (apply Zdigits2_lt; lia).
  assert (d - 1 < Zdigits2 m) by (apply Zdigits2_ge; lia).
  lia.
Qed.

Lemma Zdigits2_shift (m k : Z) :
  0 < m -> 0 <= k -> Zdigits2 (m * 2 ^ k) = Zdigits2 m + k.
Proof.
  intros Hm Hk.
  pose proof (Zdigits2_bounds m Hm) as [Hlo Hup].
  assert (Hd : 1 <= Zdigits2 m) by (destruct m; simpl; lia).
  assert (Hp : 0 < 2 ^ k) by (apply pow2_pos; lia).
  apply Zdigits2_unique; [lia|].
  replace (Zdigits2 m + k - 1) with (Zdigits2 m - 1 + k) by lia.
  rewrite !Z.pow_add_r by lia. split.
  - apply Z.mul_le_mono_nonneg_r; lia.
  - apply Z.mul_lt_mono_pos_r; lia.
Qed.

Lemma iter_xO (m d : positive) :
  Z.pos (Pos.iter xO m d) = Z.pos m * 2 ^ Z.pos d.
Proof.
  induction d as [|d IH] using Pos.peano_ind.
  - simpl. lia.
  - rewrite Pos.iter_succ, Pos2Z.inj_succ, Z.pow_succ_r by lia.
    change (Z.pos (Pos.iter xO m d)~0) with (2 * Z.pos (Pos.iter xO m d)).
    rewrite IH. ring.
Qed.

Lemma shl_align_spec (mx : positive) (ex ex' : Z) :
  exists mz ez,
    shl_align mx ex ex' = (mz, ez) /\ ez <= ex /\
    Z.pos mz = Z.pos mx * 2 ^ (ex - ez) /\ ez = Z.min ex ex'.
Proof.
  unfold shl_align. destruct (ex' - ex) as [|d|d] eqn:E.
  - exists mx, ex. rewrite Z.sub_diag, Z.pow_0_r. repeat split; lia.
  - exists mx, ex. rewrite Z.sub_diag, Z.pow_0_r. repeat split; lia.
  - exists (Pos.iter xO mx d), ex'. rewrite iter_xO.
    replace (ex - ex') with (Z.pos d) by lia. repeat split; lia.
Qed.

Lemma RN_man_exact (a e : Z) : RN_exp a 1 e = e -> RN_man a 1 e = a.
Proof.
  intros H. unfold RN_man. rewrite H, Z.sub_diag, Z.pow_0_r, Z.mul_1_l.
  rewrite qpos_exact. apply rne_exact.
Qed.

Lemma binary_round_RN (s : bool) (mx : positive) (ex : Z) :
  exists mz ez,
    binary_round prec emax s mx ex = RN s (Z.pos mz) 1 ez /\
    RN_pre (Z.pos mz) 1 ez /\ ez <= ex /\
    Z.pos mz = Z.pos mx * 2 ^ (ex - ez) /\
    (fexp prec emax (Zdigits2 (Z.pos mx) + ex) <= ex ->
     RN_exp (Z.pos mz) 1 ez = ez).
Proof.
  unfold binary_round.
  change (Z.pos (digits2_pos mx)) with (Zdigits2 (Z.pos mx)).
  set (E := fexp prec emax (Zdigits2 (Z.pos mx) + ex)).
  destruct (shl_align_spec mx ex E) as (mz & ez & Hs & Hle & Hmz & Hez).
  rewrite Hs. exists mz, ez.
  assert (Hp : 0 < 2 ^ (ex - ez)) by (apply pow2_pos; lia).
  assert (Hd : Zdigits2 (Z.pos mz) + ez = Zdigits2 (Z.pos mx) + ex).
  { rewrite Hmz, Zdigits2_shift by lia. lia. }
  assert (HE : RN_exp (Z.pos mz) 1 ez = E).
  { unfold RN_exp. rewrite Z.div_1_r, Hd. reflexivity. }
  assert (Hpre : RN_pre (Z.pos mz) 1 ez).
  { unfold RN_pre. rewrite HE. repeat split; lia. }
  split; [|split; [exact Hpre|split; [exact Hle|split; [exact Hmz|]]]].
  - apply binary_round_aux_RN; try lia.
    + rewrite qpos_exact. simpl loc_code. lia.
    + rewrite Hd. fold E. lia.
  - intros H. rewrite HE. lia.
Qed.

Lemma norm_facts (s : bool) (M E : Z) :
  0 <= M -> is_nanSF (norm s M E) = false /\
            (s = false -> nonneg (norm s M E) = true).
Proof.
  intros HM. unfold norm, fin.
  destruct (M <? 2 ^ 53).
  - destruct M as [|m|m]; [split; intros; subst; reflexivity| |lia].
    destruct (E <=? emax - prec); split; intros; subst; reflexivity.
  - change (2 ^ 52) with (Z.pos (2 ^ 52)).
    destruct (E + 1 <=? emax - prec); split; intros; subst; reflexivity.
Qed.

Lemma RN_facts (s : bool) (a b e : Z) :
  RN_pre a b e ->
  valid_binary (RN s a b e) = true /\ is_nanSF (RN s a b e) = false /\
  (s = false -> nonneg (RN s a b e) = true).
Proof.
  intros H. split; [apply RN_valid; assumption|].
  rewrite RN_norm by assumption. apply norm_facts.
  apply (RN_man_bounds a b e H).
Qed.

(** A whole number below [2 ^ 53] is represented exactly. *)
Lemma SF_of_Z_units (n : Z) :
  0 < n < 2 ^ 53 -> units (SF_of_Z n) = n * 2 ^ 1074.
Proof.
  intros Hn. unfold SF_of_Z, binary_normalize.
  destruct n as [|p|p]; try lia.
  destruct (binary_round_RN false p 0) as (mz & ez & -> & Hpre & Hle & Hmz & Hex).
  assert (Hd : Zdigits2 (Z.pos p) <= 53) by (apply Zdigits2_lt; lia).
  rewrite fexp_eq in Hex. specialize (Hex ltac:(lia)).
  rewrite units_RN by assumption.
  rewrite RN_man_exact by assumption. rewrite Hex.
  destruct (RN_man_bounds _ _ _ Hpre) as (_ & HE & _). rewrite Hex in HE.
  rewrite Hmz. rewrite <- Z.mul_assoc, <- Z.pow_add_r by lia.
  replace (0 - ez + (ez + 1074)) with 1074 by lia.
  apply Z.min_l.
  assert (HK : 2 ^ 2098 = 2 ^ 1024 * 2 ^ 1074) by (apply (pow2_split 2098 1024); lia).
  assert (HP : 0 < 2 ^ 1074) by (apply pow2_pos; lia).
  assert (2 ^ 53 <= 2 ^ 1024) by (apply Z.pow_le_mono_r; lia).
  rewrite HK. apply Z.mul_le_mono_nonneg_r; lia.
Qed.

Lemma SF_of_Z_facts (n : Z) :
  valid_binary (SF_of_Z n) = true /\ is_nanSF (SF_of_Z n) = false /\
  (0 <= n -> nonneg (SF_of_Z n) = true).
Proof.
  unfold SF_of_Z, binary_normalize. destruct n as [|p|p].
  - repeat split.
  - destruct (binary_round_RN false p 0) as (mz & ez & -> & Hpre & _).
    destruct (RN_facts false _ _ _ Hpre) as (H1 & H2 & H3). auto.
  - destruct (binary_round_RN true p 0) as (mz & ez & -> & Hpre & _).
    destruct (RN_facts true _ _ _ Hpre) as (H1 & H2 & H3).
    split; [exact H1|split; [exact H2|intros; lia]].
Qed.

(** ** [Math.round] *)

Lemma SF_round_facts (x : spec_float) :
  valid_binary x = true ->
  valid_binary (SF_round x) = true /\
  (is_nanSF x = false -> is_nanSF (SF_round x) = false).
Proof.
  intros V. destruct x as [s|s| |s m e]; try (split; [exact V|intros H; exact H]).
  unfold SF_round. destruct (0 <=? e); [split; [exact V|reflexivity]|].
  destruct ((2 * cond_Zopp s (Z.pos m) + 2 ^ (- e)) / 2 ^ (1 - e)) as [|p|p].
  - split; reflexivity.
  - destruct (SF_of_Z_facts (Z.pos p)) as (H1 & H2 & _). split; [exact H1|intros _; exact H2].
  - destruct (SF_of_Z_facts (Z.neg p)) as (H1 & H2 & _). split; [exact H1|intros _; exact H2].
Qed.

Lemma round_units_mono (k1 k2 : Z) : k1 <= k2 -> round_units k1 <= round_units k2.
Proof.
  intros H. unfold round_units.
  assert (0 < 2 ^ 1074) by (apply pow2_pos; lia).
  assert (0 < 2 ^ 1075) by (apply pow2_pos; lia).
  apply Z.mul_le_mono_nonneg_r; [lia|].
  apply Z.div_le_mono; lia.
Qed.

Lemma SF_round_finite_units (m : positive) (e : Z) :
  bounded prec emax m e = true ->
  units (SF_round (S754_finite false m e)) = round_units (Z.pos m * 2 ^ (e + 1074)) /\
  nonneg (SF_round (S754_finite false m e)) = true.
Proof.
  intros B. destruct (bounded_facts _ _ B) as (He & Hm & _ & _).
  assert (HW : 0 < 2 ^ 1074) by (apply pow2_pos; lia).
  assert (HW2 : 2 ^ 1075 = 2 * 2 ^ 1074).
  { change 1075 with (1 + 1074). rewrite Z.pow_add_r by lia. reflexivity. }
  unfold SF_round, round_units. rewrite HW2.
  destruct (Z.leb_spec 0 e) as [Hpos|Hneg].
  - split; [|reflexivity]. unfold units.
    rewrite Z.pow_add_r by lia.
    set (W := 2 ^ 1074) in *. set (I := Z.pos m * 2 ^ e).
    replace (Z.pos m * (2 ^ e * W)) with (I * W) by (unfold I; ring).
    replace (2 * (I * W) + W) with ((2 * I + 1) * W) by ring.
    rewrite Z.div_mul_cancel_r by lia.
    replace ((2 * I + 1) / 2) with I; [reflexivity|].
    apply Z.div_unique with 1; lia.
  - unfold cond_Zopp.
    assert (HP : 0 < 2 ^ (e + 1074)) by (apply pow2_pos; lia).
    assert (HQ : 0 < 2 ^ (- e)) by (apply pow2_pos; lia).
    assert (HW' : 2 ^ 1074 = 2 ^ (- e) * 2 ^ (e + 1074)).
    { rewrite <- Z.pow_add_r by lia. f_equal. lia. }
    assert (HQ2 : 2 ^ (1 - e) = 2 * 2 ^ (- e)).
    { replace (1 - e) with (1 + - e) by lia. rewrite Z.pow_add_r by lia. reflexivity. }
    assert (HQ1 : 2 <= 2 ^ (- e)).
    { change 2 with (2 ^ 1) at 1. apply Z.pow_le_mono_r; lia. }
    rewrite HQ2, HW'.
    set (P := 2 ^ (e + 1074)) in *. set (Q := 2 ^ (- e)) in *.
    replace (2 * (Z.pos m * P) + Q * P) with ((2 * Z.pos m + Q) * P) by ring.
    replace (2 * (Q * P)) with (2 * Q * P) by ring.
    rewrite Z.div_mul_cancel_r by lia.
    set (n := (2 * Z.pos m + Q) / (2 * Q)).
    assert (Hn0 : 0 <= n) by (apply Z.div_pos; lia).
    assert (Hn1 : n < 2 ^ 53).
    { apply Z.div_lt_upper_bound; [lia|]. clearbody Q. nia. }
    destruct n as [|p|p] eqn:En; [split; reflexivity| |lia].
    split.
    + rewrite SF_of_Z_units by lia. rewrite <- HW'. reflexivity.
    + apply SF_of_Z_facts. lia.
Qed.

(** [Math.round] of a non-negative value [x] is [floor (x + 1/2)]. *)
Lemma SF_round_units (x : spec_float) :
  valid_binary x = true -> nonneg x = true ->
  units (SF_round x) = round_units (units x) /\ nonneg (SF_round x) = true.
Proof.
  intros V N.
  assert (HW : 0 < 2 ^ 1074) by (apply pow2_pos; lia).
  destruct x as [s|[|]| |[|] m e]; try discriminate N.
  - split; [|reflexivity]. unfold SF_round, units, round_units.
    rewrite Z.mul_0_r, Z.add_0_l.
    rewrite Z.div_small; [reflexivity|].
    split; [lia|]. apply Z.pow_lt_mono_r; lia.
  - split; [|reflexivity]. unfold SF_round, units, round_units.
    assert (H1 : 2 * 2 ^ 2098 = 2 ^ 1024 * 2 ^ 1075).
    { change 2 with (2 ^ 1) at 1. rewrite <- !Z.pow_add_r by lia. reflexivity. }
    rewrite H1, Z.div_add_l by (apply Z.pow_nonzero; lia).
    rewrite (Z.div_small (2 ^ 1074)) by (split; [lia|apply Z.pow_lt_mono_r; lia]).
    rewrite Z.add_0_r, <- Z.pow_add_r by lia. reflexivity.
  - apply SF_round_finite_units. exact V.
Qed.

(** ** [round2] on the specification side *)

Lemma mul100_facts (x : spec_float) :
  valid_binary (mul100 x) = true /\
  (is_nanSF x = false -> is_nanSF (mul100 x) = false) /\
  (nonneg x = true -> nonneg (mul100 x) = true).
Proof.
  destruct x as [s|s| |s m e];
    [destruct s; repeat split; intros; (discriminate || reflexivity)
    |destruct s; repeat split; intros; (discriminate || reflexivity)
    |split; [reflexivity|split; intros; discriminate]|].
  unfold mul100. destruct (mul100_finite s m e) as [-> Hpre].
  destruct (RN_facts s _ _ _ Hpre) as (H1 & H2 & H3).
  split; [exact H1|split; [intros _; exact H2|]].
  destruct s; [discriminate|]. intros _. apply H3. reflexivity.
Qed.

Lemma div100_facts (x : spec_float) :
  valid_binary (div100 x) = true /\
  (is_nanSF x = false -> is_nanSF (div100 x) = false) /\
  (nonneg x = true -> nonneg (div100 x) = true).
Proof.
  destruct x as [s|s| |s m e];
    [destruct s; repeat split; intros; (discriminate || reflexivity)
    |destruct s; repeat split; intros; (discriminate || reflexivity)
    |split; [reflexivity|split; intros; discriminate]|].
  unfold div100. destruct (div100_finite s m e) as [-> Hpre].
  destruct (RN_facts s _ _ _ Hpre) as (H1 & H2 & H3).
  split; [exact H1|split; [intros _; exact H2|]].
  destruct s; [discriminate|]. intros _. apply H3. reflexivity.
Qed.

(** Monotonicity on the finite values extends to zero and [+infinity]. *)
Lemma units_mono_lift (f : spec_float -> spec_float) :
  (forall s, f (S754_zero s) = S754_zero s) ->
  f (S754_infinity false) = S754_infinity false ->
  (forall x, valid_binary x = true -> nonneg x = true ->
             valid_binary (f x) = true /\ nonneg (f x) = true) ->
  (forall m1 e1 m2 e2,
      bounded prec emax m1 e1 = true -> bounded prec emax m2 e2 = true ->
      Z.pos m1 * 2 ^ (e1 + 1074) <= Z.pos m2 * 2 ^ (e2 + 1074) ->
      units (f (S754_finite false m1 e1)) <= units (f (S754_finite false m2 e2))) ->
  forall x y,
    valid_binary x = true -> valid_binary y = true ->
    nonneg x = true -> nonneg y = true ->
    units x <= units y -> units (f x) <= units (f y).
Proof.
  intros Hz Hi Hg Hf x y Vx Vy Nx Ny Hk.
  destruct (Hg x Vx Nx) as [Vfx Nfx]. destruct (Hg y Vy Ny) as [Vfy Nfy].
  pose proof (units_bounds _ Vfx Nfx) as Bx. pose proof (units_bounds _ Vfy Nfy) as By.
  destruct x as [sx|[|]| |[|] mx ex]; try discriminate Nx.
  - rewrite Hz in *. unfold units at 1. lia.
  - destruct y as [sy|[|]| |[|] my ey]; try discriminate Ny.
    + exfalso. unfold units in Hk. assert (0 < 2 ^ 2098) by (apply pow2_pos; lia). lia.
    + lia.
    + exfalso. unfold units in Hk. unfold SpecFloat.valid_binary in Vy.
      pose proof (units_finite_bounds my ey Vy). lia.
  - unfold SpecFloat.valid_binary in Vx. pose proof (units_finite_bounds mx ex Vx) as Kx.
    destruct y as [sy|[|]| |[|] my ey]; try discriminate Ny.
    + exfalso. unfold units in Hk. lia.
    + rewrite Hi. unfold units at 2. lia.
    + apply Hf; assumption.
Qed.

Lemma mul100_units_mono (x y : spec_float) :
  valid_binary x = true -> valid_binary y = true ->
  nonneg x = true -> nonneg y = true ->
  units x <= units y -> units (mul100 x) <= units (mul100 y).
Proof.
  revert x y. apply (units_mono_lift mul100).
  - intros []; reflexivity.
  - reflexivity.
  - intros x V N. destruct (mul100_facts x) as (H1 & _ & H3). auto.
  - intros m1 e1 m2 e2 B1 B2 Hk. unfold mul100.
    destruct (mul100_finite false m1 e1) as [-> P1].
    destruct (mul100_finite false m2 e2) as [-> P2].
    destruct (bounded_facts _ _ B1) as (E1 & _). destruct (bounded_facts _ _ B2) as (E2 & _).
    apply (RN_units_mono (-1120)); try assumption.
    unfold vle. split; [lia|split; [lia|]].
    replace (e1 + -46 - -1120) with (e1 + 1074) by lia.
    replace (e2 + -46 - -1120) with (e2 + 1074) by lia.
    rewrite !Z.mul_1_r.
    replace (Z.pos m1 * m100 * 2 ^ (e1 + 1074)) with (Z.pos m1 * 2 ^ (e1 + 1074) * m100) by ring.
    replace (Z.pos m2 * m100 * 2 ^ (e2 + 1074)) with (Z.pos m2 * 2 ^ (e2 + 1074) * m100) by ring.
    apply Z.mul_le_mono_nonneg_r; [unfold m100; lia|exact Hk].
Qed.

Lemma div100_exp_ge (m : positive) (e : Z) : -1074 <= e -> -1074 <= div100_exp m e.
Proof. intros H. unfold div100_exp. rewrite fexp_eq. lia. Qed.

Lemma div100_units_mono (x y : spec_float) :
  valid_binary x = true -> valid_binary y = true ->
  nonneg x = true -> nonneg y = true ->
  units x <= units y -> units (div100 x) <= units (div100 y).
Proof.
  revert x y. apply (units_mono_lift div100).
  - intros []; reflexivity.
  - reflexivity.
  - intros x V N. destruct (div100_facts x) as (H1 & _ & H3). auto.
  - intros m1 e1 m2 e2 B1 B2 Hk. unfold div100.
    destruct (div100_finite false m1 e1) as [-> P1].
    destruct (div100_finite false m2 e2) as [-> P2].
    destruct (bounded_facts _ _ B1) as (E1 & _). destruct (bounded_facts _ _ B2) as (E2 & _).
    pose proof (div100_exp_ge m1 e1 ltac:(lia)) as G1.
    pose proof (div100_exp_ge m2 e2 ltac:(lia)) as G2.
    assert (L1 : div100_exp m1 e1 <= e1 + 46) by (unfold div100_exp; lia).
    assert (L2 : div100_exp m2 e2 <= e2 + 46) by (unfold div100_exp; lia).
    apply (RN_units_mono (-1074)); try assumption.
    unfold vle. split; [lia|split; [lia|]].
    set (d1 := div100_exp m1 e1) in *. set (d2 := div100_exp m2 e2) in *.
    replace (Z.pos m1 * 2 ^ (e1 + 46 - d1) * m100 * 2 ^ (d1 - -1074))
      with (Z.pos m1 * 2 ^ (e1 + 1074) * (m100 * 2 ^ 46)).
    2:{ replace (e1 + 1074) with ((e1 + 46 - d1) + (d1 - -1074) - 46) by lia.
        assert (H : 2 ^ (e1 + 46 - d1 + (d1 - -1074) - 46) * 2 ^ 46 =
                    2 ^ (e1 + 46 - d1) * 2 ^ (d1 - -1074)).
        { rewrite <- !Z.pow_add_r by lia. f_equal. lia. }
        rewrite <- !Z.mul_assoc. f_equal.
        rewrite (Z.mul_comm m100), Z.mul_assoc, H. ring. }
    replace (Z.pos m2 * 2 ^ (e2 + 46 - d2) * m100 * 2 ^ (d2 - -1074))
      with (Z.pos m2 * 2 ^ (e2 + 1074) * (m100 * 2 ^ 46)).
    2:{ replace (e2 + 1074) with ((e2 + 46 - d2) + (d2 - -1074) - 46) by lia.
        assert (H : 2 ^ (e2 + 46 - d2 + (d2 - -1074) - 46) * 2 ^ 46 =
                    2 ^ (e2 + 46 - d2) * 2 ^ (d2 - -1074)).
        { rewrite <- !Z.pow_add_r by lia. f_equal. lia. }
        rewrite <- !Z.mul_assoc. f_equal.
        rewrite (Z.mul_comm m100), Z.mul_assoc, H. ring. }
    apply Z.mul_le_mono_nonneg_r; [unfold m100; lia|exact Hk].
Qed.

Lemma SF_round_units_mono (x y : spec_float) :
  valid_binary x = true -> valid_binary y = true ->
  nonneg x = true -> nonneg y = true ->
  units x <= units y -> units (SF_round x) <= units (SF_round y).
Proof.
  intros Vx Vy Nx Ny Hk.
  destruct (SF_round_units x Vx Nx) as [-> _].
  destruct (SF_round_units y Vy Ny) as [-> _].
  apply round_units_mono; assumption.
Qed.

Lemma SF_round2_facts (x : spec_float) :
  valid_binary (SF_round2 x) = true /\
  (is_nanSF x = false -> is_nanSF (SF_round2 x) = false) /\
  (nonneg x = true -> nonneg (SF_round2 x) = true).
Proof.
  unfold SF_round2.
  destruct (mul100_facts x) as (M1 & M2 & M3).
  destruct (SF_round_facts (mul100 x) M1) as (R1 & R2).
  destruct (div100_facts (SF_round (mul100 x))) as (D1 & D2 & D3).
  split; [exact D1|split].
  - intros H. auto.
  - intros H. apply D3. apply SF_round_units; auto.
Qed.

Lemma SF_round2_mono (x y : spec_float) :
  valid_binary x = true -> valid_binary y = true ->
  nonneg x = true -> nonneg y = true ->
  SFleb x y = true -> SFleb (SF_round2 x) (SF_round2 y) = true.
Proof.
  intros Vx Vy Nx Ny H.
  apply SFleb_units in H; try assumption.
  destruct (mul100_facts x) as (Mx1 & _ & Mx3).
  destruct (mul100_facts y) as (My1 & _ & My3).
  destruct (SF_round_facts _ Mx1) as (Rx1 & _).
  destruct (SF_round_facts _ My1) as (Ry1 & _).
  destruct (SF_round_units _ Mx1 (Mx3 Nx)) as [_ Rx3].
  destruct (SF_round_units _ My1 (My3 Ny)) as [_ Ry3].
  apply SFleb_units; try apply SF_round2_facts; try assumption.
  unfold SF_round2.
  apply div100_units_mono; try assumption.
  apply SF_round_units_mono; auto.
  apply mul100_units_mono; assumption.
Qed.

(** ** The rounding error of the division by 100 *)

Lemma rne_code (q c : Z) :
  0 <= c < 4 ->
  rne (4 * q + c) =
  if c <=? 1 then q else if c =? 2 then (if Z.even q then q else q + 1) else q + 1.
Proof.
  intros Hc. unfold rne. destruct (divmod4 q c Hc) as [-> ->]. reflexivity.
Qed.

Lemma rne_qpos_near (a b : Z) :
  0 <= a -> 0 < b -> Z.abs (2 * (rne (qpos a b) * b - a)) <= b.
Proof.
  intros Ha Hb. unfold qpos.
  pose proof (Z.div_mod a b ltac:(lia)) as Hab.
  pose proof (Z.mod_pos_bound a b Hb) as Hr.
  set (q := a / b) in *. set (r := a mod b) in *. clearbody q r.
  destruct (Z.eqb_spec r 0) as [E0|N0].
  - rewrite rne_code by lia. change (0 <=? 1) with true. cbv iota. nia.
  - destruct (Z.compare_spec (2 * r) b) as [E|L|G].
    + rewrite rne_code by lia. change (2 <=? 1) with false.
      change (2 =? 2) with true. cbv iota.
      destruct (Z.even q); nia.
    + rewrite rne_code by lia. change (1 <=? 1) with true. cbv iota. nia.
    + rewrite rne_code by lia. change (3 <=? 1) with false.
      change (3 =? 2) with false. cbv iota. nia.
Qed.

Lemma div100_digits (m : positive) (e : Z) :
  -1074 < div100_exp m e ->
  Zdigits2 (Z.pos m) + e - 7 <=
  Zdigits2 (Z.pos m * 2 ^ (e + 46 - div100_exp m e) / m100) + div100_exp m e.
Proof.
  intros Hlow.
  set (e' := div100_exp m e) in *.
  assert (He' : e' <= e + 46) by (unfold e', div100_exp; lia).
  assert (He'' : e' <= fexp prec emax (Zdigits2 (Z.pos m) + e - 7))
    by (unfold e', div100_exp; lia).
  set (sh := e + 46 - e') in *.
  assert (Hsh : 0 <= sh) by (unfold sh; lia).
  assert (Hp : 0 < 2 ^ sh) by (apply pow2_pos; lia).
  set (d := Zdigits2 (Z.pos m)) in *.
  pose proof (Zdigits2_bounds (Z.pos m) ltac:(lia)) as [Hlo _]. fold d in Hlo.
  assert (Hd : 1 <= d) by (unfold d; simpl; lia).
  rewrite fexp_eq in He''.
  destruct (Z_lt_le_dec (d - 1 + sh) 53) as [Hsmall|Hbig]; [unfold sh in *; lia|].
  assert (Hq : 2 ^ (d + sh - 54) <= Z.pos m * 2 ^ sh / m100).
  { apply Z.div_le_lower_bound; [unfold m100; lia|].
    assert (m100 * 2 ^ (d + sh - 54) <= 2 ^ 53 * 2 ^ (d + sh - 54)).
    { apply Z.mul_le_mono_nonneg_r; [apply Z.lt_le_incl, pow2_pos; lia|].
      unfold m100. change (2 ^ 53) with 9007199254740992. lia. }
    assert (2 ^ 53 * 2 ^ (d + sh - 54) = 2 ^ (d - 1) * 2 ^ sh).
    { rewrite <- !Z.pow_add_r by lia. f_equal. lia. }
    assert (2 ^ (d - 1) * 2 ^ sh <= Z.pos m * 2 ^ sh)
      by (apply Z.mul_le_mono_nonneg_r; lia).
    lia. }
  assert (d + sh - 54 < Zdigits2 (Z.pos m * 2 ^ sh / m100))
    by (apply Zdigits2_ge; lia).
  unfold sh in *. lia.
Qed.

(** Dividing a value of at least 1 by [100] gives a normal number, within
    a relative error of [2 ^ -53] of the exact quotient. *)
Lemma div100_near (m : positive) (e : Z) :
  bounded prec emax m e = true ->
  2 ^ 1074 <= Z.pos m * 2 ^ (e + 1074) ->
  let U := units (div100 (S754_finite false m e)) in
  2 ^ 52 * Z.abs (100 * U - Z.pos m * 2 ^ (e + 1074)) <= 50 * U.
Proof.
  intros B Hone U.
  destruct (bounded_facts _ _ B) as (He & Hm & _ & _).
  pose proof (units_finite_bounds m e B) as [_ HNK].
  unfold U, div100. clear U.
  destruct (div100_finite false m e) as [-> Hpre].
  rewrite units_RN by exact Hpre.
  set (e' := div100_exp m e) in *.
  set (a := Z.pos m * 2 ^ (e + 46 - e')) in *.
  destruct (RN_man_bounds _ _ _ Hpre) as (HM & HE & HN).
  set (d := Zdigits2 (Z.pos m)).
  pose proof (Zdigits2_bounds (Z.pos m) ltac:(lia)) as [_ Hup]. fold d in Hup.
  assert (Hd1 : 1 <= d) by (unfold d; simpl; lia).
  assert (Hd53 : d <= 53) by (apply Zdigits2_lt; lia).
  assert (Hde : 1 <= d + e).
  { destruct (Z_lt_le_dec (d + e) 1) as [Hlt|]; [exfalso|assumption].
    assert (Z.pos m * 2 ^ (e + 1074) < 2 ^ d * 2 ^ (e + 1074))
      by (apply Z.mul_lt_mono_pos_r; [apply pow2_pos; lia|lia]).
    assert (2 ^ d * 2 ^ (e + 1074) <= 2 ^ 1074).
    { rewrite <- Z.pow_add_r by lia. apply Z.pow_le_mono_r; lia. }
    lia. }
  assert (He'lo : -1074 < e').
  { unfold e', div100_exp. rewrite fexp_eq. fold d. lia. }
  assert (He'hi : e' <= e + 46) by (unfold e', div100_exp; lia).
  pose proof (div100_digits m e He'lo) as Hdig. fold e' a d in Hdig.
  assert (HEr : -1074 < RN_exp a m100 e').
  { unfold RN_exp. rewrite fexp_eq. lia. }
  specialize (HN HEr).
  destruct Hpre as (Ha & Hb & Hee).
  set (Er := RN_exp a m100 e') in *.
  pose proof (rne_qpos_near a (2 ^ (Er - e') * m100) Ha) as Hnear.
  assert (HB : 0 < 2 ^ (Er - e')) by (apply pow2_pos; lia).
  specialize (Hnear ltac:(nia)).
  change (rne (qpos a (2 ^ (Er - e') * m100))) with (RN_man a m100 e') in Hnear.
  set (Mr := RN_man a m100 e') in *.
  assert (HQ : 0 < 2 ^ (e' + 1074)) by (apply pow2_pos; lia).
  assert (HPQ : 2 ^ (Er + 1074) = 2 ^ (Er - e') * 2 ^ (e' + 1074)).
  { rewrite <- Z.pow_add_r by lia. f_equal. lia. }
  assert (HaQ : a * 2 ^ (e' + 1074) = Z.pos m * 2 ^ (e + 1074) * 2 ^ 46).
  { unfold a. rewrite <- !Z.mul_assoc, <- !Z.pow_add_r by lia. do 2 f_equal. lia. }
  assert (Hm100 : m100 = 100 * 2 ^ 46) by reflexivity.
  assert (H46 : 0 < 2 ^ 46) by (apply pow2_pos; lia).
  set (N := Z.pos m * 2 ^ (e + 1074)) in *.
  set (P := 2 ^ (Er + 1074)) in *. set (S := 2 ^ (Er - e')) in *.
  set (Q := 2 ^ (e' + 1074)) in *. set (T := 2 ^ 46) in *.
  set (K := 2 ^ 2098) in *.
  assert (H52 : 2 ^ 52 = 4503599627370496) by reflexivity.
  rewrite H52 in *.
  clearbody N P S Q T K Mr a. clear Hdig Hup.
  assert (Herr : Z.abs (100 * (Mr * P) - N) * (2 * T) <= 100 * P * T).
  { assert (E1 : (100 * (Mr * P) - N) * (2 * T) =
                 2 * (Mr * (S * m100) - a) * Q).
    { rewrite HPQ, Hm100.
      replace (2 * (Mr * (S * (100 * T)) - a) * Q)
        with (2 * (Mr * (S * Q) * 100 * T) - 2 * (a * Q)) by ring.
      rewrite HaQ. ring. }
    assert (E2 : 100 * P * T = S * m100 * Q) by (rewrite HPQ, Hm100; ring).
    rewrite <- (Z.abs_eq (2 * T)) by lia.
    rewrite <- Z.abs_mul, E1, E2, Z.abs_mul, (Z.abs_eq Q) by lia.
    apply Z.mul_le_mono_nonneg_r; lia. }
  assert (Herr' : Z.abs (100 * (Mr * P) - N) <= 50 * P) by nia.
  assert (HPU : 4503599627370496 * P <= Mr * P)
    by (apply Z.mul_le_mono_nonneg_r; lia).
  assert (HU : Mr * P < K) by lia.
  rewrite Z.min_l by lia. lia.
Qed.

Lemma shape_finite (x : spec_float) :
  valid_binary x = true -> nonneg x = true -> 0 < units x < 2 ^ 2098 ->
  exists m e, x = S754_finite false m e /\ bounded prec emax m e = true.
Proof.
  intros V N H.
  destruct x as [s|[|]| |[|] m e]; try discriminate N; unfold units in H; try lia.
  exists m, e. split; [reflexivity|exact V].
Qed.

Lemma SF_round_finite_cases (m : positive) (e : Z) :
  bounded prec emax m e = true ->
  (0 <= e /\ SF_round (S754_finite false m e) = S754_finite false m e) \/
  SF_round (S754_finite false m e) = S754_zero false \/
  (exists n, 0 < n < 2 ^ 53 /\ SF_round (S754_finite false m e) = SF_of_Z n).
Proof.
  intros B. destruct (bounded_facts _ _ B) as (He & Hm & _ & _).
  unfold SF_round.
  destruct (Z.leb_spec 0 e) as [Hpos|Hneg]; [left; split; [exact Hpos|reflexivity]|].
  right. unfold cond_Zopp.
  assert (HQ : 0 < 2 ^ (- e)) by (apply pow2_pos; lia).
  assert (HQ2 : 2 ^ (1 - e) = 2 * 2 ^ (- e)).
  { replace (1 - e) with (1 + - e) by lia. rewrite Z.pow_add_r by lia. reflexivity. }
  assert (HQ1 : 2 <= 2 ^ (- e)).
  { change 2 with (2 ^ 1) at 1. apply Z.pow_le_mono_r; lia. }
  rewrite HQ2. set (Q := 2 ^ (- e)) in *.
  set (n := (2 * Z.pos m + Q) / (2 * Q)).
  assert (Hn0 : 0 <= n) by (apply Z.div_pos; lia).
  assert (Hn1 : n < 2 ^ 53).
  { apply Z.div_lt_upper_bound; [lia|]. clearbody Q. nia. }
  destruct n as [|p|p] eqn:En; [left; reflexivity| |lia].
  right. exists (Z.pos p). split; [lia|reflexivity].
Qed.

Lemma SF_round2_near (x : spec_float) :
  valid_binary x = true -> nonneg x = true ->
  units (mul100 x) < 2 ^ 2098 ->
  2 ^ 52 * Z.abs (100 * units (SF_round2 x) - units (SF_round (mul100 x)))
  <= 50 * units (SF_round2 x).
Proof.
  intros V N Hfin. unfold SF_round2.
  destruct (mul100_facts x) as (Vu & _ & Nu). specialize (Nu N).
  destruct (mul100 x) as [s|[|]| |[|] m e]; try discriminate Nu.
  - destruct s; simpl; lia.
  - unfold units in Hfin. lia.
  - assert (HK : 2 ^ 2098 = 2 ^ 1024 * 2 ^ 1074) by (apply (pow2_split 2098 1024); lia).
    assert (HW : 0 < 2 ^ 1074) by (apply pow2_pos; lia).
    destruct (SF_round_finite_cases m e Vu) as [[He ->]|[->|(n & Hn & ->)]].
    + apply div100_near; [exact Vu|].
      destruct (bounded_facts _ _ Vu) as (Hb & _).
      assert (2 ^ 1074 <= 2 ^ (e + 1074)) by (apply Z.pow_le_mono_r; lia).
      assert (0 < 2 ^ (e + 1074)) by lia. nia.
    + simpl. lia.
    + destruct (SF_of_Z_facts n) as (Vn & _ & Nn). specialize (Nn ltac:(lia)).
      pose proof (SF_of_Z_units n Hn) as Un.
      assert (H53 : 2 ^ 53 <= 2 ^ 1024) by (apply Z.pow_le_mono_r; lia).
      destruct (shape_finite (SF_of_Z n) Vn Nn) as (m' & e' & Em & Bm).
      { rewrite Un. split; [nia|]. rewrite HK.
        apply Z.mul_lt_mono_pos_r; lia. }
      rewrite Em in *. unfold units at 2. unfold units in Un.
      apply div100_near; [exact Bm|]. rewrite Un. nia.
Qed.

End Rounding.

(** ** [round2] on JavaScript numbers *)

Lemma Prim2SF_Math_round (u : float) :
  Prim2SF (Math.round u) = SF_round (Prim2SF u).
Proof.
  unfold Math.round. apply Prim2SF_SF2Prim.
  apply SF_round_facts, Prim2SF_valid.
Qed.

Lemma Prim2SF_round2 (t : float) : Prim2SF (round2 t) = SF_round2 (Prim2SF t).
Proof.
  unfold round2, SF_round2. rewrite div_spec, Prim2SF_Math_round, mul_spec.
  reflexivity.
Qed.

Lemma SFeqb_refl (x : spec_float) : SFeqb x x = negb (is_nanSF x).
Proof.
  destruct x as [s|[|]| |[|] m e]; try reflexivity;
    unfold SFeqb, SFcompare; rewrite Z.compare_refl, Pos.compare_cont_refl;
    reflexivity.
Qed.

Lemma is_nan_spec (x : float) : is_nan x = is_nanSF (Prim2SF x).
Proof.
  unfold is_nan. rewrite eqb_spec, SFeqb_refl. apply negb_involutive.
Qed.

(** [round2] gives [NaN] only on [NaN]. *)
Lemma round2_not_nan (t : float) : is_nan t = false -> is_nan (round2 t) = false.
Proof.
  rewrite !is_nan_spec, Prim2SF_round2. apply SF_round2_facts.
Qed.

Lemma round2_eqb_refl (t : float) :
  is_nan t = false -> (round2 t =? round2 t) = true.
Proof.
  intros H. apply round2_not_nan in H. unfold is_nan in H.
  apply negb_false_iff in H. exact H.
Qed.

Lemma leb_zero_nonneg (x : float) :
  (0 <=? x) = true <-> nonneg (Prim2SF x) = true.
Proof.
  rewrite leb_spec. change (Prim2SF 0) with (S754_zero false).
  destruct (Prim2SF x) as [s|[|]| |[|] m e]; simpl; split; intros H;
    try reflexivity; try discriminate H.
Qed.

Lemma leb_units (x y : float) :
  (0 <=? x) = true -> (0 <=? y) = true ->
  (x <=? y) = true <-> (units (Prim2SF x) <= units (Prim2SF y))%Z.
Proof.
  intros Hx Hy. rewrite leb_spec.
  apply SFleb_units; try apply Prim2SF_valid; apply leb_zero_nonneg; assumption.
Qed.

Lemma leb_nonneg_trans (x y : float) :
  (0 <=? x) = true -> (x <=? y) = true -> (0 <=? y) = true.
Proof.
  rewrite !leb_spec. change (Prim2SF 0) with (S754_zero false).
  destruct (Prim2SF x) as [s|[|]| |[|] m e]; try discriminate;
    destruct (Prim2SF y) as [s'|[|]| |[|] m' e']; simpl; intros H1 H2;
    try reflexivity; try discriminate.
Qed.

Lemma leb_trans (x y z : float) :
  (0 <=? x) = true -> (x <=? y) = true -> (y <=? z) = true -> (x <=? z) = true.
Proof.
  intros H0 H1 H2.
  pose proof (leb_nonneg_trans x y H0 H1) as Hy.
  pose proof (leb_nonneg_trans y z Hy H2) as Hz.
  apply leb_units in H1; try assumption. apply leb_units in H2; try assumption.
  apply leb_units; try assumption. lia.
Qed.

Lemma round2_nonneg (t : float) : (0 <=? t) = true -> (0 <=? round2 t) = true.
Proof.
  rewrite !leb_zero_nonneg, Prim2SF_round2. apply SF_round2_facts.
Qed.

(** [round2] is monotone on the non-negative numbers. *)
Lemma round2_mono (x y : float) :
  (0 <=? x) = true -> (x <=? y) = true -> (round2 x <=? round2 y) = true.
Proof.
  intros H0 H1.
  pose proof (leb_nonneg_trans x y H0 H1) as Hy.
  rewrite leb_spec in *. rewrite !Prim2SF_round2.
  apply SF_round2_mono; try apply Prim2SF_valid; try assumption;
    apply leb_zero_nonneg; rewrite leb_spec; assumption.
Qed.

(** [round2 t] is within a relative error of [2 ^ -53] of the quotient by
    100 of the whole number [Math.round (t * 100)]. *)
Lemma round2_near (t : float) :
  (0 <=? t) = true -> (t * 100 <? infinity) = true ->
  (2 ^ 52 * Z.abs (100 * units (Prim2SF (round2 t)) -
                   units (Prim2SF (Math.round (t * 100))))
   <= 50 * units (Prim2SF (round2 t)))%Z.
Proof.
  intros H0 Hfin.
  rewrite Prim2SF_round2, Prim2SF_Math_round, mul_spec.
  apply leb_zero_nonneg in H0.
  apply SF_round2_near; [apply Prim2SF_valid|exact H0|].
  rewrite ltb_spec, mul_spec in Hfin.
  change (Prim2SF infinity) with (S754_infinity false) in Hfin.
  change (SF64mul (Prim2SF t) (Prim2SF 100)) with (mul100 (Prim2SF t)) in Hfin.
  destruct (mul100_facts (Prim2SF t)) as (Vu & _ & Nu). specialize (Nu H0).
  assert (HK : (0 < 2 ^ 2098)%Z) by (apply Z.pow_pos_nonneg; lia).
  destruct (mul100 (Prim2SF t)) as [s|[|]| |[|] m e]; try discriminate Nu;
    try discriminate Hfin.
  - unfold units. exact HK.
  - apply (units_finite_bounds m e Vu).
Qed.

Lemma ltb_leb (x y : float) : (x <? y) = true -> (x <=? y) = true.
Proof.
  rewrite ltb_spec, leb_spec. unfold SFltb, SFleb.
  destruct (SFcompare (Prim2SF x) (Prim2SF y)) as [[| |]|]; intros H;
    try reflexivity; discriminate H.
Qed.

(** ** Sanity checks of the model on concrete values *)

Example Math_round_examples :
  Math.round 2.5 = 3 /\ Math.round 2.4 = 2 /\ Math.round (-2.5) = -2 /\
  Math.round (-2.6) = -3 /\ Math.round 0.49999999999999994 = 0 /\
  Math.round (-0.2) = -0 /\ Math.round 1e21 = 1e21 /\
  Math.round infinity = infinity /\ is_nan (Math.round nan) = true.
Proof. vm_compute. repeat split. Qed.

Example round2_examples :
  round2 0 = 0 /\ round2 0.1 = 0.1 /\ round2 1.2 = 1.2 /\
  round2 0.005 = 0.01 /\ round2 0.004 = 0 /\ round2 1.2345 = 1.23 /\
  round2 12.349999 = 12.35.
Proof. vm_compute. repeat split. Qed.

Example units_examples :
  units (Prim2SF 1) = (2 ^ 1074)%Z /\
  units (Prim2SF 2.5) = (5 * 2 ^ 1073)%Z /\
  units (Prim2SF (Math.round 2.5)) = (3 * 2 ^ 1074)%Z.
Proof. vm_compute. repeat split. Qed.

Example replace_extension_examples :
  replace_extension "clip.mp3" = "clip" /\
  replace_extension "a.b.c" = "a.b" /\
  replace_extension "dir.d/clip" = "dir.d/clip" /\
  replace_extension "clip." = "clip." /\
  replace_extension ".mp3" = "".
Proof. vm_compute. repeat split. Qed.

(** * The page: properties *)

(** ** The capture step *)

Lemma last_download_snoc (p : Page) (l : list Download) (d : Download) :
  downloads p = l ++ [d] -> last_download p = Some d.
Proof.
  unfold last_download. intros ->. rewrite map_app. simpl.
  induction (map Some l) as [|x xs IH]; [reflexivity|].
  simpl. destruct (xs ++ [Some d]) eqn:E; [destruct xs; discriminate|exact IH].
Qed.

Lemma captureViseme_spec (now : float) (viseme : string) (p : Page) :
  exec (captureViseme now viseme) p =
  if ((List.length (mouthCues p) =? 0)%nat && (now =? 0))%bool then
    set_segmentStart 0 (set_currentViseme viseme p)
  else if String.eqb viseme (currentViseme p) then p
  else set_segmentStart now
         (set_currentViseme viseme
            (set_mouthCues (mouthCues p ++ [closing_cue p now]) p)).
Proof.
  unfold captureViseme, exec, bind, gets, when, modify, ret; simpl.
  destruct ((List.length (mouthCues p) =? 0)%nat && (now =? 0))%bool; simpl.
  - rewrite String.eqb_refl. reflexivity.
  - destruct (String.eqb viseme (currentViseme p)); reflexivity.
Qed.

Lemma closeLastSegment_spec (endTime : float) (p : Page) :
  exec (closeLastSegment endTime) p =
  if segmentStart p <=? endTime
  then set_mouthCues (mouthCues p ++ [closing_cue p endTime]) p
  else p.
Proof.
  unfold closeLastSegment, exec, bind, gets, when, modify, ret; simpl.
  destruct (segmentStart p <=? endTime); reflexivity.
Qed.

Lemma finalizeAndDownloadJSON_spec (p : Page) :
  exec finalizeAndDownloadJSON p =
  let t := endTime_of (audioPlayer p) in
  let q := exec (closeLastSegment t) p in
  set_downloads (downloads q ++ [mkDownload (download_name q) (export_of q t)]) q.
Proof.
  unfold finalizeAndDownloadJSON, buildData, createDownload, exec, bind, gets,
    modify, ret; simpl.
  destruct (closeLastSegment (endTime_of (audioPlayer p)) p) as [[] q] eqn:E.
  unfold endTime_of in E. rewrite E. reflexivity.
Qed.

Lemma closeLastSegment_frame (t : float) (p : Page) :
  let q := exec (closeLastSegment t) p in
  audioPlayer q = audioPlayer p /\ currentViseme q = currentViseme p /\
  segmentStart q = segmentStart p /\ uploadedFileName q = uploadedFileName p /\
  audioDuration q = audioDuration p /\ downloads q = downloads p.
Proof.
  simpl. rewrite closeLastSegment_spec.
  destruct (segmentStart p <=? t); repeat split; reflexivity.
Qed.

(** ** reset *)

(** C8. [resetCapture] is idempotent: run twice in a row it leaves the page
    in the state one run leaves it in, in which [mouthCues] is empty,
    [currentViseme] is ["X"], [segmentStart] is 0 and [audioDuration] is
    0. *)
Theorem resetCapture_idempotent (p : Page) :
  exec (resetCapture ;; resetCapture) p = exec resetCapture p /\
  mouthCues (exec resetCapture p) = [] /\
  currentViseme (exec resetCapture p) = "X" /\
  segmentStart (exec resetCapture p) = 0 /\
  audioDuration (exec resetCapture p) = 0.
Proof. repeat split. Qed.

(** ** sample *)

Lemma frame_spec (now : float) (v : option string) (p : Page) :
  exec (frame now v) p =
  exec (captureViseme (now ||| 0) (JS.or_string v "X")) (at_frame now v p).
Proof. reflexivity. Qed.

(** While the audio is paused [analyzeAudio] does nothing. *)
Lemma analyzeAudio_paused (p : Page) :
  paused (audioPlayer p) = true -> exec analyzeAudio p = p.
Proof.
  intros H. unfold analyzeAudio, exec, bind, gets. cbn [fst snd]. rewrite H.
  reflexivity.
Qed.

Lemma exec_bind {A B : Type} (c : M A) (k : A -> M B) (p : Page) :
  exec (bind c k) p = exec (k (eval c p)) (exec c p).
Proof. unfold exec, eval, bind. destruct (c p); reflexivity. Qed.

Lemma exec_seq {A B : Type} (c : M A) (k : M B) (p : Page) :
  exec (c ;; k) p = exec k (exec c p).
Proof. apply exec_bind. Qed.

(** C2 (counterexample). The claim taken for every recorder state fails on
    the first frame of a run: from a reset state ([mouthCues] empty, clock
    at 0) [sample(0,'A')] adopts the label ['A'] and appends no cue. *)
Lemma sample_first_frame_appends_nothing : ~ sample_always_appends.
Proof.
  intros H.
  specialize (H (exec resetCapture initial) 0 "A" eq_refl).
  vm_compute in H. discriminate H.
Qed.

(** C2 (amended). For every page, [sample time label] reads the clock as
    [now = time || 0] and the label as [viseme = label || 'X'], and then:
    on the first frame of a run ([mouthCues] empty and [now === 0]) it sets
    [currentViseme] to [viseme] and [segmentStart] to 0 and appends
    nothing; otherwise, when [viseme] differs from [currentViseme], it
    appends exactly the cue [{round2(segmentStart), round2(now),
    currentViseme}] and then sets [currentViseme] to [viseme] and
    [segmentStart] to [now]; otherwise it leaves the whole recorder state
    unchanged. *)
Theorem sample_spec (p : Page) (time : float) (label : string) :
  let now := time ||| 0 in
  let viseme := JS.or_string (Some label) "X" in
  recorder (exec (sample time label) p) =
  if ((List.length (mouthCues p) =? 0)%nat && (now =? 0))%bool then
    (mouthCues p, viseme, 0, audioDuration p)
  else if String.eqb viseme (currentViseme p) then recorder p
  else (mouthCues p ++ [closing_cue p now], viseme, now, audioDuration p).
Proof.
  intros now viseme. unfold sample. rewrite frame_spec, captureViseme_spec.
  fold now viseme. change (mouthCues (at_frame time (Some label) p)) with (mouthCues p).
  change (currentViseme (at_frame time (Some label) p)) with (currentViseme p).
  destruct ((List.length (mouthCues p) =? 0)%nat && (now =? 0))%bool; [reflexivity|].
  destruct (String.eqb viseme (currentViseme p)); reflexivity.
Qed.

(** ** finalize *)

(** C4. [finalizeAndDownloadJSON] appends the cue [{round2(segmentStart),
    round2(endTime), currentViseme}] exactly when [segmentStart <= endTime],
    where [endTime] is what the audio element yields, and the object it
    exports holds the whole of [mouthCues], the closed segment included; in
    particular [sample(0,'B')] then [finalize(0)] from a reset state leaves
    exactly the one cue [{0,0,'B'}]. *)
Theorem finalize_spec :
  (forall p : Page,
     let t := endTime_of (audioPlayer p) in
     let q := exec finalizeAndDownloadJSON p in
     mouthCues q =
       (if segmentStart p <=? t then mouthCues p ++ [closing_cue p t]
        else mouthCues p) /\
     ((segmentStart p <=? t) = true <->
      List.length (mouthCues q) = S (List.length (mouthCues p))) /\
     exported_cues q =
       Some (mouthCues q)) /\
  (forall p0 : Page,
     let q := exec (resetCapture ;; sample 0 "B" ;; finalize 0) p0 in
     mouthCues q = [mkCue 0 0 "B"] /\
     exported_cues q =
       Some [mkCue 0 0 "B"]).
Proof.
  split.
  - intros p t q. unfold q. rewrite finalizeAndDownloadJSON_spec. fold t.
    cbv zeta. rewrite closeLastSegment_spec.
    split; [|split].
    + destruct (segmentStart p <=? t); reflexivity.
    + destruct (segmentStart p <=? t); simpl.
      * rewrite length_app; simpl. split; intros; [lia|reflexivity].
      * split; intros; [discriminate|lia].
    + unfold exported_cues; erewrite last_download_snoc by reflexivity. reflexivity.
  - intros p0 q. unfold q. split.
    + reflexivity.
    + rewrite !exec_seq. unfold finalize. rewrite exec_seq, finalizeAndDownloadJSON_spec.
      cbv zeta. unfold exported_cues; erewrite last_download_snoc by reflexivity. reflexivity.
Qed.

(** C6. Rapid alternation is not merged: from a reset state,
    [sample(0,'A')], [sample(0.1,'B')], [sample(0.2,'A')], [finalize(0.3)]
    leave (and export) exactly the three cues [{0,0.1,'A'}],
    [{0.1,0.2,'B'}], [{0.2,0.3,'A'}]. *)
Theorem rapid_alternation_not_merged (p0 : Page) :
  let q := exec (resetCapture ;; sample 0 "A" ;; sample 0.1 "B" ;;
                 sample 0.2 "A" ;; finalize 0.3) p0 in
  mouthCues q = [mkCue 0 0.1 "A"; mkCue 0.1 0.2 "B"; mkCue 0.2 0.3 "A"] /\
  exported_cues q =
    Some [mkCue 0 0.1 "A"; mkCue 0.1 0.2 "B"; mkCue 0.2 0.3 "A"].
Proof.
  intros q. unfold q. split.
  - vm_compute. reflexivity.
  - rewrite !exec_seq. unfold finalize.
    rewrite exec_seq, finalizeAndDownloadJSON_spec. cbv zeta.
    unfold exported_cues; erewrite last_download_snoc by reflexivity. vm_compute. reflexivity.
Qed.

(** ** export *)

(** C7. Building the export object does not write the page: [buildData]
    returns [{metadata: {soundFile, duration}, mouthCues}] read from the
    state and leaves the state as it found it, and handing the object to
    the browser only adds to the downloads.  So in
    [finalizeAndDownloadJSON] the recorder state after the export is the
    one the close step left: nothing but the cue that step may append is
    written. *)
Theorem buildData_pure (endTime : float) (p : Page) :
  exec (buildData endTime) p = p /\
  eval (buildData endTime) p =
    mkData (mkMetadata (or_str (uploadedFileName p) "unknown") (round2 endTime))
           (mouthCues p) /\
  (forall d : ExportData,
     recorder (exec (createDownload d) p) = recorder p /\
     uploadedFileName (exec (createDownload d) p) = uploadedFileName p /\
     audioPlayer (exec (createDownload d) p) = audioPlayer p) /\
  (let q := exec (closeLastSegment (endTime_of (audioPlayer p))) p in
   recorder (exec finalizeAndDownloadJSON p) = recorder q /\
   currentViseme q = currentViseme p /\ segmentStart q = segmentStart p /\
   audioDuration q = audioDuration p).
Proof.
  split; [reflexivity|]. split; [reflexivity|]. split; [repeat split|].
  cbv zeta. rewrite finalizeAndDownloadJSON_spec. cbv zeta.
  split; [reflexivity|].
  destruct (closeLastSegment_frame (endTime_of (audioPlayer p)) p)
    as (_ & H1 & H2 & _ & H3 & _).
  repeat split; assumption.
Qed.

(** ** stop *)

(** C9. In the stop handler, once playback has been stopped (which sets
    [currentTime] to 0), the branch taken when [mouthCues] is not empty
    appends nothing whenever [segmentStart >= 0]: [endTime] is 0 and
    [segmentStart < 0] is false. *)
Theorem stop_never_closes_open_segment (p : Page) :
  mouthCues p <> [] ->
  (0 <=? segmentStart p) = true ->
  let q := exec (stopBtn_stopPlayback ;; stopBtn_closeSegment) p in
  mouthCues q = mouthCues p /\ currentTime (audioPlayer q) = 0.
Proof.
  intros Hne Hge q. unfold q. clear q.
  unfold stopBtn_stopPlayback, stopBtn_closeSegment, exec, bind, gets, modify,
    when, ret; simpl.
  destruct (mouthCues p) as [|c l] eqn:E; [contradiction|]. simpl.
  assert (Hlt : (segmentStart p <? 0 ||| 0) = false).
  { change (0 ||| 0) with 0.
    rewrite ltb_spec. rewrite leb_spec in Hge.
    change (Prim2SF 0) with (S754_zero false) in *.
    destruct (Prim2SF (segmentStart p)) as [s|s| |s m e]; try reflexivity;
      destruct s; try reflexivity; discriminate Hge. }
  rewrite Hlt. simpl. rewrite E. split; reflexivity.
Qed.

Lemma stop_never_closes_open_segment_witness :
  let p := exec (resetCapture ;; sample 0 "X" ;; sample 0.5 "A") initial in
  mouthCues (exec (stopBtn_stopPlayback ;; stopBtn_closeSegment) p) =
  mouthCues p /\
  currentTime (audioPlayer (exec (stopBtn_stopPlayback ;; stopBtn_closeSegment) p)) = 0.
Proof.
  intros p.
  apply (stop_never_closes_open_segment p).
  - vm_compute. discriminate.
  - vm_compute. reflexivity.
Defined.

(** C5 (what the code does). The file [clip.mp3], 5 seconds long, is
    loaded and played; the first frame (clock at 0, no viseme yet, so
    ['X']) appends nothing, and the stop button is clicked while
    [mouthCues] is still empty.  The stop handler pushes the degenerate cue
    [{0,0,'X'}], and [finalizeAndDownloadJSON], which the handler calls
    next, closes the open segment once more: the file downloaded holds the
    two cues [{0,0,'X'}] and [{0,5,'X'}]. *)
Theorem stop_with_no_cue_exports_two_cues :
  let p := exec (audioFile_change (Some "clip.mp3") ;;
                 metadata_loaded 5 ;;
                 audioPlayer_loadedmetadata true ;;
                 playBtn_click) initial in
  mouthCues p = [] /\
  mouthCues (exec (stopBtn_stopPlayback ;; stopBtn_closeSegment) p) =
    [mkCue 0 0 "X"] /\
  last_download (exec stopBtn_click p) =
    Some (mkDownload "clip.visemes.json"
            (mkData (mkMetadata "clip.mp3" 5)
                    [mkCue 0 0 "X"; mkCue 0 5 "X"])).
Proof. vm_compute. repeat split. Qed.

(** C10. When the audio element reports a duration that is a number other
    than zero, [finalizeAndDownloadJSON] takes it as [endTime] whatever the
    playback position: the exported [metadata.duration] is
    [round2(duration)], and when the close guard [segmentStart <= duration]
    holds the last cue, in the state and in the export, is
    [{round2(segmentStart), round2(duration), currentViseme}]. *)
Theorem export_uses_full_duration (p : Page) :
  is_nan (duration (audioPlayer p)) = false ->
  (duration (audioPlayer p) =? 0) = false ->
  let d := duration (audioPlayer p) in
  let q := exec finalizeAndDownloadJSON p in
  endTime_of (audioPlayer p) = d /\
  exported_duration q = Some (round2 d) /\
  ((segmentStart p <=? d) = true ->
   last_cue (mouthCues q) =
     Some (mkCue (round2 (segmentStart p)) (round2 d) (currentViseme p)) /\
   option_map last_cue (exported_cues q) = Some (last_cue (mouthCues q))).
Proof.
  intros Hnan Hz d q.
  assert (Ht : endTime_of (audioPlayer p) = d).
  { unfold endTime_of, JS.or, JS.ToBoolean. fold d. fold d in Hnan, Hz.
    rewrite Hnan, Hz. simpl. rewrite Hnan, Hz. reflexivity. }
  split; [exact Ht|].
  unfold q, exported_duration, exported_cues.
  rewrite finalizeAndDownloadJSON_spec, Ht. cbv zeta.
  erewrite last_download_snoc by reflexivity.
  split; [reflexivity|].
  intros Hle. split; [|reflexivity].
  rewrite closeLastSegment_spec. fold d. rewrite Hle.
  unfold last_cue. simpl. rewrite map_app. simpl.
  induction (map Some (mouthCues p)) as [|y l IH]; [reflexivity|].
  simpl. destruct (l ++ [Some (closing_cue p d)]) eqn:E;
    [destruct l; discriminate|exact IH].
Qed.

Lemma export_uses_full_duration_witness :
  let p := set_audioPlayer (mkAudio false 1 5)
             (exec (resetCapture ;; sample 0 "X" ;; sample 0.5 "A") initial) in
  endTime_of (audioPlayer p) = 5 /\
  exported_duration (exec finalizeAndDownloadJSON p) = Some (round2 5) /\
  last_cue (mouthCues (exec finalizeAndDownloadJSON p)) = Some (mkCue 0.5 5 "A").
Proof.
  intros p.
  destruct (export_uses_full_duration p) as (H1 & H2 & H3).
  - vm_compute. reflexivity.
  - vm_compute. reflexivity.
  - split; [exact H1|]. split; [exact H2|].
    destruct H3 as [H3 _]; [vm_compute; reflexivity|exact H3].
Defined.

(** ** Contiguity *)

Lemma eqb_refl_not_nan (x : float) : is_nan x = false -> (x =? x) = true.
Proof. unfold is_nan. intros H. apply negb_false_iff in H. exact H. Qed.

Lemma or_zero_not_nan (t : float) : is_nan (t ||| 0) = false.
Proof.
  unfold JS.or, JS.ToBoolean.
  destruct (is_nan t) eqn:E; [reflexivity|].
  destruct (t =? 0); [reflexivity|exact E].
Qed.

Lemma round2_zero : round2 0 = 0.
Proof. reflexivity. Qed.

Lemma chain_snoc (t : float) (l : list MouthCue) (c : MouthCue) :
  chain t l -> start c = last_end t l -> is_nan (end_ c) = false ->
  chain t (l ++ [c]).
Proof.
  revert t. induction l as [|a l IH]; intros t Hc Hs Hn; simpl in *.
  - repeat split; assumption.
  - destruct Hc as (H1 & H2 & H3). repeat split; try assumption.
    apply IH; assumption.
Qed.

Lemma last_end_snoc (t : float) (l : list MouthCue) (c : MouthCue) :
  last_end t (l ++ [c]) = end_ c.
Proof. revert t. induction l as [|a l IH]; intros t; simpl; auto. Qed.

Lemma chain_adjacent (l : list MouthCue) :
  forall t : float,
    chain t l ->
    (forall (i : nat) (a b : MouthCue),
        nth_error l i = Some a -> nth_error l (S i) = Some b ->
        end_ a = start b /\ (end_ a =? start b) = true) /\
    (forall a : MouthCue, nth_error l 0 = Some a -> start a = t).
Proof.
  induction l as [|c l IH]; intros t Hc.
  - split; [intros [|i] a b H; discriminate H|intros a H; discriminate H].
  - destruct Hc as (Hs & Hn & Hc). destruct (IH _ Hc) as [IH1 IH2]. split.
    + intros [|i] a b Ha Hb; simpl in Ha, Hb.
      * injection Ha as <-. rewrite (IH2 b Hb).
        split; [reflexivity|apply eqb_refl_not_nan; exact Hn].
      * apply (IH1 i); assumption.
    + intros a Ha. simpl in Ha. injection Ha as <-. exact Hs.
Qed.

Lemma captureViseme_chain (now : float) (viseme : string) (p : Page) :
  is_nan now = false -> capture_chain p ->
  capture_chain (exec (captureViseme now viseme) p).
Proof.
  intros Hnow (Hn & Hc & Hl). rewrite captureViseme_spec.
  destruct ((List.length (mouthCues p) =? 0)%nat && (now =? 0))%bool eqn:E.
  - apply andb_prop in E. destruct E as [E _]. apply Nat.eqb_eq in E.
    destruct (mouthCues p) eqn:Ec; [|discriminate E].
    unfold capture_chain; simpl. rewrite Ec. repeat split.
  - destruct (String.eqb viseme (currentViseme p)).
    + repeat split; assumption.
    + unfold capture_chain; simpl. split; [exact Hnow|]. split.
      * apply chain_snoc; [exact Hc|simpl; symmetry; exact Hl|].
        simpl. apply round2_not_nan; exact Hnow.
      * rewrite last_end_snoc. reflexivity.
Qed.

Lemma frames_chain (l : list (float * option string)) (p : Page) :
  capture_chain p -> capture_chain (exec (frames l) p).
Proof.
  revert p. induction l as [|[now v] l IH]; intros p H; [exact H|].
  cbn [frames]. rewrite exec_seq. apply IH. rewrite frame_spec.
  apply captureViseme_chain; [apply or_zero_not_nan|exact H].
Qed.

Lemma closeLastSegment_chain (t : float) (p : Page) :
  is_nan t = false -> capture_chain p ->
  chain 0 (mouthCues (exec (closeLastSegment t) p)).
Proof.
  intros Ht (Hn & Hc & Hl). rewrite closeLastSegment_spec.
  destruct (segmentStart p <=? t); [|exact Hc].
  simpl. apply chain_snoc; [exact Hc|simpl; symmetry; exact Hl|].
  simpl. apply round2_not_nan; exact Ht.
Qed.

Lemma finalize_mouthCues (endTime : float) (p : Page) :
  let a := mkAudio (paused (audioPlayer p)) (currentTime (audioPlayer p)) endTime in
  mouthCues (exec (finalize endTime) p) =
    mouthCues (exec (closeLastSegment (endTime_of a)) p) /\
  exported_cues (exec (finalize endTime) p) =
    Some (mouthCues (exec (finalize endTime) p)).
Proof.
  intros a. unfold finalize. rewrite exec_seq.
  change (exec (modify _) p) with (set_audioPlayer a p).
  rewrite finalizeAndDownloadJSON_spec. cbv zeta.
  unfold exported_cues. erewrite last_download_snoc by reflexivity.
  split; [|reflexivity].
  change (audioPlayer (set_audioPlayer a p)) with a.
  rewrite !closeLastSegment_spec.
  change (segmentStart (set_audioPlayer a p)) with (segmentStart p).
  destruct (segmentStart p <=? endTime_of a); reflexivity.
Qed.

(** C1. Whatever the frames sampled after a reset (whatever their clock
    readings and labels), the cues left and exported by [finalize] are
    contiguous: each cue ends where the next one starts
    ([l[i].end == l[i+1].start]), and the first one starts at 0. *)
Theorem finalize_contiguous
    (p0 : Page) (l : list (float * option string)) (endTime : float) :
  let q := exec (resetCapture ;; frames l ;; finalize endTime) p0 in
  contiguous (mouthCues q) /\ exported_cues q = Some (mouthCues q).
Proof.
  intros q. unfold q. rewrite !exec_seq.
  set (p := exec (frames l) (exec resetCapture p0)).
  assert (Hp : capture_chain p).
  { apply frames_chain. repeat split. }
  destruct (finalize_mouthCues endTime p) as [Hm He].
  split; [|exact He].
  rewrite Hm.
  set (a := mkAudio (paused (audioPlayer p)) (currentTime (audioPlayer p)) endTime).
  pose proof (closeLastSegment_chain (endTime_of a) p (or_zero_not_nan _) Hp) as Hc.
  destruct (chain_adjacent _ _ Hc) as [H1 H2]. split.
  - intros i x y Hx Hy. apply (H1 i x y Hx Hy).
  - intros x Hx. rewrite (H2 x Hx). reflexivity.
Qed.

(** ** Ordering and rounding of the timestamps *)

Lemma leb_refl_nonneg (x : float) : (0 <=? x) = true -> (x <=? x) = true.
Proof. intros H. apply leb_units; [exact H|exact H|lia]. Qed.

Lemma zero_units (t : float) :
  (0 <=? t) = true -> JS.ToBoolean t = false -> units (Prim2SF t) = 0%Z.
Proof.
  intros H0 Hb. unfold JS.ToBoolean in Hb. apply negb_false_iff in Hb.
  rewrite is_nan_spec, eqb_spec in Hb. rewrite leb_spec in H0.
  change (Prim2SF 0) with (S754_zero false) in *.
  destruct (Prim2SF t) as [s|[|]| |[|] m e]; try discriminate; reflexivity.
Qed.

Lemma or_zero_bounds (t : float) :
  (0 <=? t) = true ->
  (0 <=? t ||| 0) = true /\ (t ||| 0 <=? t) = true /\
  (forall x : float, (0 <=? x) = true -> (x <=? t) = true ->
                     (x <=? t ||| 0) = true).
Proof.
  intros H0. unfold JS.or. destruct (JS.ToBoolean t) eqn:Hb.
  - split; [exact H0|]. split; [apply leb_refl_nonneg; exact H0|]. auto.
  - pose proof (zero_units t H0 Hb) as Hu.
    split; [reflexivity|]. split; [exact H0|].
    intros x Hx Hxt. apply leb_units in Hxt; try assumption.
    apply leb_units; [exact Hx|reflexivity|].
    change (units (Prim2SF 0)) with 0%Z. lia.
Qed.

Lemma closing_cue_ok (p : Page) (t : float) :
  (0 <=? segmentStart p) = true -> (segmentStart p <=? t) = true ->
  cue_ok (closing_cue p t).
Proof.
  intros H0 H1. split; simpl.
  - apply round2_mono; assumption.
  - exists (segmentStart p), t. repeat split; assumption.
Qed.

Lemma Forall_snoc {A : Type} (P : A -> Prop) (l : list A) (x : A) :
  Forall P l -> P x -> Forall P (l ++ [x]).
Proof. intros Hl Hx. apply Forall_app. split; [exact Hl|constructor; [exact Hx|constructor]]. Qed.

Lemma captureViseme_ordered (t0 t now : float) (viseme : string) (p : Page) :
  (t0 <=? t) = true ->
  (0 <=? now) = true -> (now <=? t) = true ->
  (forall x : float, (0 <=? x) = true -> (x <=? t) = true -> (x <=? now) = true) ->
  capture_ordered t0 p ->
  capture_ordered t (exec (captureViseme now viseme) p).
Proof.
  intros Ht Hn0 Hnt Hx (H0 & H1 & Hc).
  assert (Hst : (segmentStart p <=? t) = true) by (apply (leb_trans _ t0); assumption).
  assert (H0t : (0 <=? t) = true) by (apply (leb_nonneg_trans _ _ H0 Hst)).
  rewrite captureViseme_spec.
  destruct ((List.length (mouthCues p) =? 0)%nat && (now =? 0))%bool.
  - repeat split; [exact H0t|exact Hc].
  - destruct (String.eqb viseme (currentViseme p)).
    + repeat split; assumption.
    + unfold capture_ordered; simpl. repeat split; try assumption.
      apply Forall_snoc; [exact Hc|]. apply closing_cue_ok; auto.
Qed.

Lemma frames_ordered (l : list (float * option string)) :
  forall (t0 : float) (p : Page),
    nondecreasing_from t0 (map fst l) = true ->
    (0 <=? t0) = true ->
    capture_ordered t0 p ->
    exists t1 : float, capture_ordered t1 (exec (frames l) p).
Proof.
  induction l as [|[t v] l IH]; intros t0 p Hs H0 Hp.
  - exists t0. exact Hp.
  - simpl in Hs. apply andb_prop in Hs. destruct Hs as [Ht Hs].
    cbn [frames]. rewrite exec_seq.
    assert (H0t : (0 <=? t) = true) by (apply (leb_nonneg_trans _ _ H0 Ht)).
    destruct (or_zero_bounds t H0t) as (B1 & B2 & B3).
    apply (IH t); [exact Hs|exact H0t|].
    rewrite frame_spec.
    apply (captureViseme_ordered t0); try assumption.
Qed.

Lemma closeLastSegment_ordered (t t0 : float) (p : Page) :
  capture_ordered t0 p ->
  Forall cue_ok (mouthCues (exec (closeLastSegment t) p)).
Proof.
  intros (H0 & H1 & Hc). rewrite closeLastSegment_spec.
  destruct (segmentStart p <=? t) eqn:E; [|exact Hc].
  simpl. apply Forall_snoc; [exact Hc|]. apply closing_cue_ok; assumption.
Qed.

Lemma stopBtn_closeSegment_ordered (t0 : float) (p : Page) :
  capture_ordered t0 p ->
  capture_ordered t0 (exec stopBtn_closeSegment p).
Proof.
  intros (H0 & H1 & Hc).
  unfold stopBtn_closeSegment, exec, bind, gets, when, mouthCues_push, modify, ret.
  cbn [fst snd].
  destruct (List.length (mouthCues p) =? 0)%nat.
  - unfold capture_ordered; simpl. repeat split; try assumption.
    apply Forall_snoc; [exact Hc|].
    split; [reflexivity|]. exists 0, 0. repeat split.
  - destruct (segmentStart p <? currentTime (audioPlayer p) ||| 0) eqn:E.
    + unfold capture_ordered; simpl. repeat split; try assumption.
      apply Forall_snoc; [exact Hc|].
      apply (closing_cue_ok p); [exact H0|apply ltb_leb; exact E].
    + repeat split; assumption.
Qed.

Lemma stopBtn_click_exported (t0 : float) (p : Page) :
  capture_ordered t0 p ->
  exists cues : list MouthCue,
    exported_cues (exec stopBtn_click p) = Some cues /\ Forall cue_ok cues.
Proof.
  intros Hp. unfold stopBtn_click. rewrite !exec_seq.
  set (p1 := exec stopBtn_stopPlayback p).
  assert (H1 : capture_ordered t0 p1) by exact Hp.
  pose proof (stopBtn_closeSegment_ordered t0 p1 H1) as H2.
  set (p2 := exec stopBtn_closeSegment p1) in *.
  rewrite finalizeAndDownloadJSON_spec. cbv zeta.
  set (p3 := exec (closeLastSegment (endTime_of (audioPlayer p2))) p2).
  exists (mouthCues p3). split.
  - unfold exported_cues. erewrite last_download_snoc by reflexivity. reflexivity.
  - apply (closeLastSegment_ordered _ t0). exact H2.
Qed.

Lemma Math_round_units (u : float) :
  nonneg (Prim2SF u) = true ->
  units (Prim2SF (Math.round u)) = round_units (units (Prim2SF u)).
Proof.
  intros H. rewrite Prim2SF_Math_round.
  apply SF_round_units; [apply Prim2SF_valid|exact H].
Qed.

Lemma units_nonneg (x : spec_float) : (0 <= units x)%Z -> nonneg x = true.
Proof.
  destruct x as [s|[|]| |[|] m e]; simpl; intros H; try reflexivity; lia.
Qed.

(** C3 (counterexample). The invariant taken for every run fails when the
    clock goes back: the capture step has no guard on the order of its two
    times.  After a reset, [sample(0.5,'A')] closes the segment of ['X'] at
    0.5, and [sample(0,'B')] then closes the segment of ['A'], which
    started at 0.5, at 0: the cue [{0.5, 0, 'A'}] has [start > end]. *)
Lemma clock_going_back_inverts_a_cue :
  mouthCues (exec (resetCapture ;; sample 0.5 "A" ;; sample 0 "B" ;; finalize 1)
                  initial) =
    [mkCue 0 0.5 "X"; mkCue 0.5 0 "A"; mkCue 0 1 "B"] /\
  (0.5 <=? 0) = false /\
  ~ segments_always_ordered.
Proof.
  split; [vm_compute; reflexivity|]. split; [reflexivity|].
  intros H.
  specialize (H initial [(0.5, Some "A"); (0, Some "B")] 1 (mkCue 0.5 0 "A")).
  assert (Hin : In (mkCue 0.5 0 "A")
                   (mouthCues (exec (finalize 1)
                                    (exec (resetCapture ;;
                                           frames [(0.5, Some "A"); (0, Some "B")])
                                          initial)))).
  { vm_compute. right. left. reflexivity. }
  specialize (H Hin). vm_compute in H. discriminate H.
Qed.

(** C3 (amended). When the clock readings of the frames sampled after a
    reset never go back (starting from 0), every cue left by [finalize],
    and every cue exported by the stop button, has [start <= end], and its
    two timestamps
    are [round2] of non-negative times.  For a non-negative [t] whose
    product [t * 100] is finite, [round2 t] is [Math.round (t * 100) / 100]
    where [Math.round (t * 100)] is the whole number
    [n = floor (t * 100 + 1/2)], and [round2 t] is [n / 100] up to the
    rounding of the binary64 division: [|round2 t - n / 100|] is at most
    [2 ^ -53 * round2 t].  In particular a product that is exactly
    [k + 1/2] is rounded up to [k + 1].  (Values are compared in [units]
    of [2 ^ -1074].) *)
Theorem timestamps_ordered_and_rounded
    (p0 : Page) (l : list (float * option string)) (endTime : float) :
  nondecreasing_from 0 (map fst l) = true ->
  let p := exec (resetCapture ;; frames l) p0 in
  (forall c : MouthCue,
      In c (mouthCues (exec (finalize endTime) p)) -> cue_ok c) /\
  (exists cues : list MouthCue,
      exported_cues (exec stopBtn_click p) = Some cues /\
      forall c : MouthCue, In c cues -> cue_ok c) /\
  (forall t : float,
      (0 <=? t) = true -> (t * 100 <? infinity) = true ->
      exists n : Z,
        (0 <= n)%Z /\
        units (Prim2SF (Math.round (t * 100))) = (n * 2 ^ 1074)%Z /\
        n = ((2 * units (Prim2SF (t * 100)) + 2 ^ 1074) / 2 ^ 1075)%Z /\
        round2 t = Math.round (t * 100) / 100 /\
        (2 ^ 52 * Z.abs (100 * units (Prim2SF (round2 t)) - n * 2 ^ 1074)
         <= 50 * units (Prim2SF (round2 t)))%Z) /\
  (forall (t : float) (k : Z),
      (0 <= k)%Z ->
      units (Prim2SF (t * 100)) = ((2 * k + 1) * 2 ^ 1073)%Z ->
      units (Prim2SF (Math.round (t * 100))) = ((k + 1) * 2 ^ 1074)%Z).
Proof.
  intros Hs p.
  assert (Hp : exists t1, capture_ordered t1 p).
  { unfold p. rewrite exec_seq.
    apply (frames_ordered l 0); [exact Hs|reflexivity|].
    repeat split; constructor. }
  destruct Hp as [t1 Hp].
  split; [|split; [|split]].
  - intros c Hc. destruct (finalize_mouthCues endTime p) as [Hm _].
    rewrite Hm in Hc.
    pose proof (closeLastSegment_ordered
                  (endTime_of (mkAudio (paused (audioPlayer p))
                                       (currentTime (audioPlayer p)) endTime))
                  t1 p Hp) as Hall.
    rewrite Forall_forall in Hall. apply Hall. exact Hc.
  - destruct (stopBtn_click_exported t1 p Hp) as (cues & He & Hall).
    exists cues. split; [exact He|]. rewrite Forall_forall in Hall. exact Hall.
  - intros t Ht Hfin.
    assert (Hn : nonneg (Prim2SF (t * 100)) = true).
    { rewrite mul_spec. apply (mul100_facts (Prim2SF t)).
      apply leb_zero_nonneg. exact Ht. }
    pose proof (units_bounds _ (Prim2SF_valid (t * 100)) Hn) as [Hu _].
    pose proof (Math_round_units (t * 100) Hn) as Hr.
    exists ((2 * units (Prim2SF (t * 100)) + 2 ^ 1074) / 2 ^ 1075)%Z.
    split; [|split; [|split; [|split]]].
    + apply Z.div_pos; [|apply Z.pow_pos_nonneg; lia].
      assert (0 < 2 ^ 1074)%Z by (apply Z.pow_pos_nonneg; lia). lia.
    + exact Hr.
    + reflexivity.
    + reflexivity.
    + pose proof (round2_near t Ht Hfin) as Hnear.
      rewrite Hr in Hnear. exact Hnear.
  - intros t k Hk Hu.
    assert (Hn : nonneg (Prim2SF (t * 100)) = true).
    { apply units_nonneg. rewrite Hu.
      apply Z.mul_nonneg_nonneg; [lia|]. apply Z.pow_nonneg; lia. }
    rewrite Math_round_units by exact Hn. rewrite Hu. unfold round_units.
    f_equal.
    assert (H4 : (2 ^ 1074 = 2 * 2 ^ 1073)%Z).
    { change 1074%Z with (1 + 1073)%Z. rewrite Z.pow_add_r by lia. reflexivity. }
    assert (H5 : (2 ^ 1075 = 2 * 2 ^ 1074)%Z).
    { change 1075%Z with (1 + 1074)%Z. rewrite Z.pow_add_r by lia. reflexivity. }
    rewrite H5.
    replace (2 * ((2 * k + 1) * 2 ^ 1073) + 2 ^ 1074)%Z
      with ((k + 1) * (2 * 2 ^ 1074))%Z by (rewrite H4; ring).
    apply Z.div_mul.
    assert (0 < 2 ^ 1074)%Z by (apply Z.pow_pos_nonneg; lia). lia.
Qed.

Lemma timestamps_ordered_and_rounded_witness :
  let l := [(0, Some "X"); (0.5, Some "A"); (1, Some "A")] in
  nondecreasing_from 0 (map fst l) = true /\
  (forall c : MouthCue,
      In c (mouthCues (exec (finalize 1.2) (exec (resetCapture ;; frames l) initial))) ->
      cue_ok c).
Proof.
  intros l. split; [reflexivity|].
  exact (proj1 (timestamps_ordered_and_rounded initial l 1.2 eq_refl)).
Defined.

(** * Sessions *)

(** ** The handlers, step by step *)

Lemma analyzeAudio_spec (p : Page) :
  exec analyzeAudio p =
  if paused (audioPlayer p) then p
  else exec (captureViseme (currentTime (audioPlayer p) ||| 0)
                           (JS.or_string (lipsync_viseme p) "X")) p.
Proof.
  unfold analyzeAudio, exec, bind, gets. cbn [fst snd].
  destruct (paused (audioPlayer p)); reflexivity.
Qed.

Lemma playBtn_click_spec (p : Page) :
  exec playBtn_click p =
  if isConnected p then
    exec analyzeAudio
         (unpause (if currentTime (audioPlayer p) =? 0 then start_run p else p))
  else p.
Proof.
  unfold playBtn_click. rewrite exec_bind. unfold eval, gets. cbn [fst snd].
  change (exec (fun p0 : Page => (isConnected p0, p0)) p) with p.
  destruct (isConnected p); [|reflexivity]. cbn [negb].
  rewrite exec_bind. unfold eval. cbn [fst snd].
  change (exec (fun p0 : Page => (audioPlayer p0, p0)) p) with p.
  rewrite !exec_seq.
  destruct (currentTime (audioPlayer p) =? 0); reflexivity.
Qed.

Lemma stopBtn_closeSegment_spec (p : Page) :
  exec stopBtn_closeSegment p =
  if (List.length (mouthCues p) =? 0)%nat then
    set_mouthCues (mouthCues p ++ [mkCue 0 0 "X"]) p
  else if segmentStart p <? currentTime (audioPlayer p) ||| 0 then
    set_mouthCues (mouthCues p ++ [closing_cue p (currentTime (audioPlayer p) ||| 0)]) p
  else p.
Proof.
  unfold stopBtn_closeSegment, exec, bind, gets, when, mouthCues_push, modify, ret.
  cbn [fst snd].
  destruct (List.length (mouthCues p) =? 0)%nat; [reflexivity|].
  destruct (segmentStart p <? currentTime (audioPlayer p) ||| 0); reflexivity.
Qed.

Lemma captureViseme_frame (now : float) (viseme : string) (p : Page) :
  let q := exec (captureViseme now viseme) p in
  audioPlayer q = audioPlayer p /\ lipsync_viseme q = lipsync_viseme p /\
  isConnected q = isConnected p /\ uploadedFileName q = uploadedFileName p /\
  audioDuration q = audioDuration p /\ downloads q = downloads p.
Proof.
  cbv zeta. rewrite captureViseme_spec.
  destruct ((List.length (mouthCues p) =? 0)%nat && (now =? 0))%bool;
    [repeat split|].
  destruct (String.eqb viseme (currentViseme p)); repeat split.
Qed.

Lemma finalizeAndDownloadJSON_downloads (p : Page) :
  let t := endTime_of (audioPlayer p) in
  let q := exec (closeLastSegment t) p in
  downloads (exec finalizeAndDownloadJSON p) =
  downloads p ++ [mkDownload (download_name p) (export_of q t)].
Proof.
  cbv zeta. rewrite finalizeAndDownloadJSON_spec. cbv zeta.
  set (t := endTime_of (audioPlayer p)).
  destruct (closeLastSegment_frame t p) as (_ & _ & _ & Hn & _ & Hd).
  cbn [downloads set_downloads]. unfold download_name. rewrite Hn, Hd. reflexivity.
Qed.

Lemma endTime_of_not_nan (a : AudioPlayer) : is_nan (endTime_of a) = false.
Proof. unfold endTime_of. apply or_zero_not_nan. Qed.

Lemma chain_contiguous (l : list MouthCue) : chain 0 l -> contiguous l.
Proof.
  intros Hc. destruct (chain_adjacent _ _ Hc) as [H1 H2]. split.
  - intros i x y Hx Hy. apply (H1 i x y Hx Hy).
  - intros x Hx. rewrite (H2 x Hx). reflexivity.
Qed.

(** ** Contiguity of every export of a session *)

Lemma resetCapture_sound (p : Page) :
  (0 <=? currentTime (audioPlayer p)) = true -> capture_sound (exec resetCapture p).
Proof. intros H. repeat split. exact H. Qed.

Lemma captureViseme_sound (p : Page) :
  capture_sound p ->
  capture_sound (exec (captureViseme (currentTime (audioPlayer p) ||| 0)
                                     (JS.or_string (lipsync_viseme p) "X")) p).
Proof.
  intros (Hc & Hs & Ht).
  set (now := currentTime (audioPlayer p) ||| 0).
  set (viseme := JS.or_string (lipsync_viseme p) "X").
  destruct (or_zero_bounds _ Ht) as (Hnow & _ & _). fold now in Hnow.
  split; [apply captureViseme_chain; [apply or_zero_not_nan|exact Hc]|].
  destruct (captureViseme_frame now viseme p) as (Ha & _).
  cbv zeta in Ha. rewrite Ha. split; [|exact Ht].
  rewrite captureViseme_spec.
  destruct ((List.length (mouthCues p) =? 0)%nat && (now =? 0))%bool; [reflexivity|].
  destruct (String.eqb viseme (currentViseme p)); [exact Hs|exact Hnow].
Qed.

Lemma analyzeAudio_sound (p : Page) :
  capture_sound p -> capture_sound (exec analyzeAudio p).
Proof.
  intros H. rewrite analyzeAudio_spec.
  destruct (paused (audioPlayer p)); [exact H|].
  apply captureViseme_sound. exact H.
Qed.

Lemma stopBtn_closeSegment_chain (p : Page) :
  capture_chain p -> (0 <=? segmentStart p) = true ->
  currentTime (audioPlayer p) = 0 ->
  capture_chain (exec stopBtn_closeSegment p).
Proof.
  intros (Hn & Hc & Hl) Hs Ht. rewrite stopBtn_closeSegment_spec.
  destruct (mouthCues p) as [|c l] eqn:E.
  - cbn [List.length Nat.eqb]. unfold capture_chain.
    cbn [segmentStart set_mouthCues mouthCues].
    split; [exact Hn|]. split; [repeat split|].
    cbn [app last_end end_]. exact Hl.
  - cbn [List.length Nat.eqb]. rewrite Ht. change (0 ||| 0) with 0.
    assert (Hlt : (segmentStart p <? 0) = false).
    { rewrite ltb_spec. rewrite leb_spec in Hs.
      change (Prim2SF 0) with (S754_zero false) in *.
      destruct (Prim2SF (segmentStart p)) as [s|s| |s m e]; try reflexivity;
        destruct s; try reflexivity; discriminate Hs. }
    rewrite Hlt. unfold capture_chain. rewrite E.
    split; [exact Hn|]. split; [exact Hc|exact Hl].
Qed.

Lemma finalizeAndDownloadJSON_contiguous (p : Page) :
  capture_chain p -> exports_contiguous p ->
  exports_contiguous (exec finalizeAndDownloadJSON p).
Proof.
  intros Hc Hd. unfold exports_contiguous.
  rewrite finalizeAndDownloadJSON_downloads. cbv zeta.
  apply Forall_snoc; [exact Hd|]. cbn [data data_mouthCues export_of].
  apply chain_contiguous, closeLastSegment_chain; [apply endTime_of_not_nan|exact Hc].
Qed.

Lemma handle_sound (ev : Event) (p : Page) :
  clock_ok ev = true ->
  capture_sound p /\ exports_contiguous p ->
  capture_sound (exec (handle ev) p) /\ exports_contiguous (exec (handle ev) p).
Proof.
  intros Hok [Hs Hd]. pose proof Hs as (Hc & Hss & Ht).
  destruct ev as [a|v| |[name|]|connects| | | | ]; cbn [handle].
  - (* the browser *)
    split; [|exact Hd]. split; [exact Hc|]. split; [exact Hss|exact Hok].
  - (* the analyzer *)
    split; [exact Hs|exact Hd].
  - (* an animation frame *)
    split; [apply analyzeAudio_sound; exact Hs|].
    unfold exports_contiguous. rewrite analyzeAudio_spec.
    destruct (paused (audioPlayer p)); [exact Hd|].
    destruct (captureViseme_frame (currentTime (audioPlayer p) ||| 0)
                (JS.or_string (lipsync_viseme p) "X") p) as (_ & _ & _ & _ & _ & E).
    cbv zeta in E. rewrite E. exact Hd.
  - (* a file is chosen *)
    split; [repeat split|exact Hd].
  - (* no file is chosen *)
    split; [exact Hs|exact Hd].
  - (* the metadata are loaded *)
    destruct connects; (split; [exact Hs|exact Hd]).
  - (* play *)
    rewrite playBtn_click_spec.
    destruct (isConnected p); [|split; [exact Hs|exact Hd]].
    set (p1 := unpause (if currentTime (audioPlayer p) =? 0 then start_run p else p)).
    assert (H1 : capture_sound p1 /\ exports_contiguous p1).
    { unfold p1. destruct (currentTime (audioPlayer p) =? 0).
      - split; [repeat split; exact Ht|exact Hd].
      - split; [exact Hs|exact Hd]. }
    destruct H1 as [H1 H1d].
    split; [apply analyzeAudio_sound; exact H1|].
    unfold exports_contiguous. rewrite analyzeAudio_spec.
    destruct (paused (audioPlayer p1)); [exact H1d|].
    destruct (captureViseme_frame (currentTime (audioPlayer p1) ||| 0)
                (JS.or_string (lipsync_viseme p1) "X") p1) as (_ & _ & _ & _ & _ & E).
    cbv zeta in E. rewrite E. exact H1d.
  - (* pause *)
    split; [exact Hs|exact Hd].
  - (* stop *)
    unfold stopBtn_click. rewrite !exec_seq.
    set (p1 := exec stopBtn_stopPlayback p).
    assert (Hc2 : capture_chain (exec stopBtn_closeSegment p1)).
    { apply stopBtn_closeSegment_chain; [exact Hc|exact Hss|reflexivity]. }
    set (p2 := exec stopBtn_closeSegment p1) in *.
    assert (Hd2 : exports_contiguous p2).
    { unfold p2, exports_contiguous. rewrite stopBtn_closeSegment_spec.
      destruct (List.length (mouthCues p1) =? 0)%nat; [exact Hd|].
      destruct (segmentStart p1 <? currentTime (audioPlayer p1) ||| 0); exact Hd. }
    pose proof (finalizeAndDownloadJSON_contiguous p2 Hc2 Hd2) as Hd3.
    set (p3 := exec finalizeAndDownloadJSON p2) in *.
    split; [|exact Hd3].
    apply resetCapture_sound.
    unfold p3. rewrite finalizeAndDownloadJSON_spec. cbv zeta.
    cbn [audioPlayer set_downloads].
    destruct (closeLastSegment_frame (endTime_of (audioPlayer p2)) p2) as (Ea & _).
    cbv zeta in Ea. rewrite Ea. unfold p2. rewrite stopBtn_closeSegment_spec.
    destruct (List.length (mouthCues p1) =? 0)%nat; [reflexivity|].
    destruct (segmentStart p1 <? currentTime (audioPlayer p1) ||| 0); reflexivity.
  - (* the audio has ended *)
    unfold audioPlayer_ended. rewrite exec_seq.
    pose proof (finalizeAndDownloadJSON_contiguous p Hc Hd) as Hd3.
    split; [|exact Hd3].
    apply resetCapture_sound.
    rewrite finalizeAndDownloadJSON_spec. cbv zeta. cbn [audioPlayer set_downloads].
    destruct (closeLastSegment_frame (endTime_of (audioPlayer p)) p) as (Ea & _).
    cbv zeta in Ea. rewrite Ea. exact Ht.
Qed.

Lemma session_sound (evs : list Event) (p : Page) :
  forallb clock_ok evs = true ->
  capture_sound p /\ exports_contiguous p ->
  capture_sound (exec (session evs) p) /\ exports_contiguous (exec (session evs) p).
Proof.
  revert p. induction evs as [|ev evs IH]; intros p Hok H; [exact H|].
  cbn [forallb] in Hok. apply andb_prop in Hok. destruct Hok as [H1 H2].
  cbn [session]. rewrite exec_seq. apply IH; [exact H2|].
  apply handle_sound; assumption.
Qed.

(** X1. In a session whose clock is never negative, every file downloaded,
    by the stop button or at the end of the audio, holds contiguous cues:
    each cue ends where the next one starts and the first one starts at 0. *)
Theorem session_exports_contiguous (evs : list Event) :
  forallb clock_ok evs = true ->
  forall d : Download,
    In d (downloads (exec (session evs) initial)) ->
    contiguous (data_mouthCues (data d)).
Proof.
  intros Hok.
  assert (H0 : capture_sound initial /\ exports_contiguous initial).
  { split; [repeat split|constructor]. }
  destruct (session_sound evs initial Hok H0) as [_ H].
  unfold exports_contiguous in H. rewrite Forall_forall in H. exact H.
Qed.

Lemma session_exports_contiguous_witness :
  let evs := [FileChange (Some "clip.mp3"); Browser (mkAudio true 0 5);
              LoadedMetadata true; PlayClick;
              Analyzer (Some "A"); Browser (mkAudio false 0.5 5); AnimationFrame;
              StopClick] in
  forallb clock_ok evs = true /\
  forall d : Download,
    In d (downloads (exec (session evs) initial)) ->
    contiguous (data_mouthCues (data d)).
Proof.
  intros evs. split; [reflexivity|].
  exact (session_exports_contiguous evs eq_refl).
Defined.

(** ** Alternation of the visemes *)

Lemma no_repeat_snoc (l : list string) (a b : string) :
  no_repeat (l ++ [a]) -> a <> b -> no_repeat ((l ++ [a]) ++ [b]).
Proof.
  intros Hl Hab. induction l as [|x l IH].
  - split; [exact Hab|exact I].
  - cbn [app] in *. destruct (l ++ [a]) as [|y l'] eqn:E; [destruct l; discriminate E|].
    cbn [app]. destruct Hl as [Hxy Hl]. split; [exact Hxy|]. apply IH. exact Hl.
Qed.

Lemma no_repeat_app_l (l l' : list string) : no_repeat (l ++ l') -> no_repeat l.
Proof.
  induction l as [|x l IH]; intros H; [exact I|].
  destruct l as [|y l]; [exact I|].
  cbn [app] in H. destruct H as [Hxy H]. split; [exact Hxy|]. apply IH. exact H.
Qed.

Lemma no_repeat_alternating (l : list MouthCue) :
  no_repeat (map value l) -> alternating l.
Proof.
  induction l as [|x l IH]; intros H i a b Ha Hb; [destruct i; discriminate Ha|].
  destruct l as [|y l]; [destruct i; discriminate Hb|].
  cbn [map] in H. destruct H as [Hxy H].
  destruct i as [|i]; cbn [nth_error] in Ha, Hb.
  - injection Ha as <-. injection Hb as <-. exact Hxy.
  - apply (IH H i a b); assumption.
Qed.

Lemma captureViseme_visemes (now : float) (viseme : string) (p : Page) :
  no_repeat (visemes p) -> no_repeat (visemes (exec (captureViseme now viseme) p)).
Proof.
  intros H. rewrite captureViseme_spec.
  destruct ((List.length (mouthCues p) =? 0)%nat && (now =? 0))%bool eqn:E.
  - apply andb_prop in E. destruct E as [E _]. apply Nat.eqb_eq in E.
    unfold visemes. cbn [mouthCues set_segmentStart set_currentViseme currentViseme].
    destruct (mouthCues p); [exact I|discriminate E].
  - destruct (String.eqb viseme (currentViseme p)) eqn:Ev; [exact H|].
    unfold visemes. cbn [mouthCues set_segmentStart set_currentViseme set_mouthCues
                         currentViseme].
    rewrite map_app. cbn [map closing_cue value].
    apply no_repeat_snoc; [exact H|].
    intros Heq. rewrite Heq, String.eqb_refl in Ev. discriminate Ev.
Qed.

Lemma analyzeAudio_visemes (p : Page) :
  no_repeat (visemes p) -> no_repeat (visemes (exec analyzeAudio p)).
Proof.
  intros H. rewrite analyzeAudio_spec.
  destruct (paused (audioPlayer p)); [exact H|].
  apply captureViseme_visemes. exact H.
Qed.

Lemma handle_visemes (ev : Event) (p : Page) :
  no_repeat (visemes p) -> no_repeat (visemes (exec (handle ev) p)).
Proof.
  intros H.
  destruct ev as [a|v| |[name|]|connects| | | | ]; cbn [handle];
    try exact H; try exact I.
  - apply analyzeAudio_visemes. exact H.
  - destruct connects; exact H.
  - rewrite playBtn_click_spec. destruct (isConnected p); [|exact H].
    apply analyzeAudio_visemes.
    destruct (currentTime (audioPlayer p) =? 0); [exact I|exact H].
  - unfold stopBtn_click. rewrite !exec_seq. exact I.
  - unfold audioPlayer_ended. rewrite exec_seq. exact I.
Qed.

Lemma session_visemes (evs : list Event) (p : Page) :
  no_repeat (visemes p) -> no_repeat (visemes (exec (session evs) p)).
Proof.
  revert p. induction evs as [|ev evs IH]; intros p H; [exact H|].
  cbn [session]. rewrite exec_seq. apply IH, handle_visemes, H.
Qed.

Lemma session_app (l l' : list Event) (p : Page) :
  exec (session (l ++ l')) p = exec (session l') (exec (session l) p).
Proof.
  revert p. induction l as [|ev l IH]; intros p; [reflexivity|].
  cbn [app session]. rewrite !exec_seq. apply IH.
Qed.

(** X2. Whatever the session, the file exported when the audio ends never
    holds two adjacent cues with the same viseme. *)
Theorem ended_export_alternating (evs : list Event) :
  exists cues : list MouthCue,
    exported_cues (exec (session (evs ++ [Ended])) initial) = Some cues /\
    alternating cues.
Proof.
  rewrite session_app. set (p := exec (session evs) initial).
  assert (Hp : no_repeat (visemes p)) by (apply session_visemes; exact I).
  cbn [session handle]. rewrite exec_seq. unfold audioPlayer_ended. rewrite exec_seq.
  set (t := endTime_of (audioPlayer p)).
  exists (mouthCues (exec (closeLastSegment t) p)). split.
  - unfold exported_cues.
    rewrite (last_download_snoc _ (downloads p)
               (mkDownload (download_name p)
                           (export_of (exec (closeLastSegment t) p) t))); [reflexivity|].
    change (downloads (exec (ret tt) (exec resetCapture (exec finalizeAndDownloadJSON p))))
      with (downloads (exec finalizeAndDownloadJSON p)).
    rewrite finalizeAndDownloadJSON_downloads. reflexivity.
  - apply no_repeat_alternating. rewrite closeLastSegment_spec.
    destruct (segmentStart p <=? t).
    + cbn [mouthCues set_mouthCues]. rewrite map_app. exact Hp.
    + apply (no_repeat_app_l _ [currentViseme p]). exact Hp.
Qed.

(** ** Well-formed exports *)

Lemma or_str_nonempty (a b : string) : b <> "" -> or_str a b <> "".
Proof.
  intros Hb. unfold or_str. destruct (String.eqb_spec a ""); [exact Hb|assumption].
Qed.

Lemma or_string_nonempty (v : option string) (b : string) :
  b <> "" -> JS.or_string v b <> "".
Proof.
  intros Hb. destruct v as [s|]; [|exact Hb]. unfold JS.or_string.
  destruct (String.eqb_spec s ""); [exact Hb|assumption].
Qed.

Lemma closing_cue_wf (p : Page) (t : float) :
  capture_wf p -> is_nan t = false -> cue_wf (closing_cue p t).
Proof.
  intros (Hs & _ & Hv & _) Ht. repeat split; cbn [closing_cue start end_ value].
  - apply round2_not_nan, Hs.
  - apply round2_not_nan, Ht.
  - exact Hv.
Qed.

Lemma captureViseme_wf (now : float) (viseme : string) (p : Page) :
  is_nan now = false -> viseme <> "" -> capture_wf p ->
  capture_wf (exec (captureViseme now viseme) p).
Proof.
  intros Hn Hv H. pose proof H as (Hs & Hd & Hc & Hl). rewrite captureViseme_spec.
  destruct ((List.length (mouthCues p) =? 0)%nat && (now =? 0))%bool.
  - repeat split; assumption.
  - destruct (String.eqb viseme (currentViseme p)); [exact H|].
    repeat split; try assumption.
    cbn [mouthCues set_segmentStart set_currentViseme set_mouthCues].
    apply Forall_snoc; [exact Hl|]. apply closing_cue_wf; assumption.
Qed.

Lemma analyzeAudio_wf (p : Page) :
  capture_wf p /\ exports_wf p ->
  capture_wf (exec analyzeAudio p) /\ exports_wf (exec analyzeAudio p).
Proof.
  intros [H Hd]. rewrite analyzeAudio_spec.
  destruct (paused (audioPlayer p)); [split; assumption|].
  split.
  - apply captureViseme_wf;
      [apply or_zero_not_nan|apply or_string_nonempty; discriminate|exact H].
  - unfold exports_wf.
    destruct (captureViseme_frame (currentTime (audioPlayer p) ||| 0)
                (JS.or_string (lipsync_viseme p) "X") p) as (_ & _ & _ & _ & _ & E).
    cbv zeta in E. rewrite E. exact Hd.
Qed.

Lemma closeLastSegment_wf (t : float) (p : Page) :
  is_nan t = false -> capture_wf p ->
  Forall cue_wf (mouthCues (exec (closeLastSegment t) p)).
Proof.
  intros Ht H. rewrite closeLastSegment_spec.
  destruct (segmentStart p <=? t); [|apply H].
  cbn [mouthCues set_mouthCues]. apply Forall_snoc; [apply H|].
  apply closing_cue_wf; assumption.
Qed.

Lemma finalizeAndDownloadJSON_wf (p : Page) :
  capture_wf p -> exports_wf p -> exports_wf (exec finalizeAndDownloadJSON p).
Proof.
  intros H Hd. unfold exports_wf. rewrite finalizeAndDownloadJSON_downloads. cbv zeta.
  apply Forall_snoc; [exact Hd|].
  unfold export_wf. cbn [download data metadata soundFile meta_duration
                         data_mouthCues export_of].
  split; [|split; [|split]].
  - eexists. split; [|reflexivity]. apply or_str_nonempty. discriminate.
  - apply or_str_nonempty. discriminate.
  - apply round2_not_nan, endTime_of_not_nan.
  - apply closeLastSegment_wf; [apply endTime_of_not_nan|exact H].
Qed.

Lemma stopBtn_closeSegment_wf (p : Page) :
  capture_wf p -> capture_wf (exec stopBtn_closeSegment p).
Proof.
  intros H. pose proof H as (Hs & Hd & Hc & Hl). rewrite stopBtn_closeSegment_spec.
  destruct (List.length (mouthCues p) =? 0)%nat.
  - repeat split; try assumption. cbn [mouthCues set_mouthCues].
    apply Forall_snoc; [exact Hl|]. repeat split. discriminate.
  - destruct (segmentStart p <? currentTime (audioPlayer p) ||| 0); [|exact H].
    repeat split; try assumption. cbn [mouthCues set_mouthCues].
    apply Forall_snoc; [exact Hl|].
    apply closing_cue_wf; [exact H|apply or_zero_not_nan].
Qed.

Lemma resetCapture_wf (p : Page) : capture_wf (exec resetCapture p).
Proof. repeat split; [discriminate|constructor]. Qed.

Lemma handle_wf (ev : Event) (p : Page) :
  capture_wf p /\ exports_wf p ->
  capture_wf (exec (handle ev) p) /\ exports_wf (exec (handle ev) p).
Proof.
  intros [H Hd]. pose proof H as (Hs & Hdu & Hc & Hl).
  destruct ev as [a|v| |[name|]|connects| | | | ]; cbn [handle];
    try (split; [exact H|exact Hd]).
  - apply analyzeAudio_wf. split; assumption.
  - split; [apply resetCapture_wf|exact Hd].
  - assert (Hw : capture_wf (set_audioDuration (duration (audioPlayer p) ||| 0) p)).
    { repeat split; try assumption. apply or_zero_not_nan. }
    destruct connects; (split; [exact Hw|exact Hd]).
  - rewrite playBtn_click_spec. destruct (isConnected p); [|split; assumption].
    apply analyzeAudio_wf.
    destruct (currentTime (audioPlayer p) =? 0); [|split; assumption].
    split; [|exact Hd]. repeat split; [|constructor].
    apply or_string_nonempty. discriminate.
  - unfold stopBtn_click. rewrite !exec_seq.
    split; [apply resetCapture_wf|].
    set (p1 := exec stopBtn_stopPlayback p).
    assert (H1 : capture_wf p1) by exact H.
    pose proof (stopBtn_closeSegment_wf p1 H1) as H2.
    apply (finalizeAndDownloadJSON_wf _ H2).
    unfold exports_wf. rewrite stopBtn_closeSegment_spec.
    destruct (List.length (mouthCues p1) =? 0)%nat; [exact Hd|].
    destruct (segmentStart p1 <? currentTime (audioPlayer p1) ||| 0); exact Hd.
  - unfold audioPlayer_ended. rewrite exec_seq.
    split; [apply resetCapture_wf|].
    apply (finalizeAndDownloadJSON_wf _ H Hd).
Qed.

(** X3. Whatever the session, the capture state holds numbers and non-empty
    visemes only ([segmentStart] and [audioDuration] are never [NaN],
    [currentViseme] is never empty), and so does every file downloaded: it
    is named [<base>.visemes.json] for a non-empty [base], its
    [soundFile] is not empty, its [duration] and the bounds of its cues
    are never [NaN], and no cue has an empty viseme. *)
Theorem session_wf (evs : list Event) :
  capture_wf (exec (session evs) initial) /\
  forall d : Download, In d (downloads (exec (session evs) initial)) -> export_wf d.
Proof.
  assert (H : forall p, capture_wf p /\ exports_wf p ->
                        capture_wf (exec (session evs) p) /\
                        exports_wf (exec (session evs) p)).
  { induction evs as [|ev evs IH]; intros p Hp; [exact Hp|].
    cbn [session]. rewrite exec_seq. apply IH, handle_wf, Hp. }
  destruct (H initial) as [H1 H2].
  - split; [repeat split; [discriminate|constructor]|constructor].
  - split; [exact H1|]. unfold exports_wf in H2. rewrite Forall_forall in H2. exact H2.
Qed.

(** ** The number of exports *)

Lemma handle_downloads (ev : Event) (p : Page) :
  List.length (downloads (exec (handle ev) p)) =
  (List.length (downloads p) + (if exports ev then 1 else 0))%nat.
Proof.
  assert (Hf : forall q, List.length (downloads (exec finalizeAndDownloadJSON q)) =
                         (List.length (downloads q) + 1)%nat).
  { intros q. rewrite finalizeAndDownloadJSON_downloads. cbv zeta.
    rewrite length_app. reflexivity. }
  assert (Ha : forall q, downloads (exec analyzeAudio q) = downloads q).
  { intros q. rewrite analyzeAudio_spec. destruct (paused (audioPlayer q)); [reflexivity|].
    apply captureViseme_frame. }
  destruct ev as [a|v| |[name|]|connects| | | | ]; cbn [handle exports];
    try (rewrite Nat.add_0_r; reflexivity).
  - rewrite Ha, Nat.add_0_r. reflexivity.
  - destruct connects; rewrite Nat.add_0_r; reflexivity.
  - rewrite playBtn_click_spec, Nat.add_0_r.
    destruct (isConnected p); [|reflexivity]. rewrite Ha.
    destruct (currentTime (audioPlayer p) =? 0); reflexivity.
  - unfold stopBtn_click. rewrite !exec_seq.
    change (downloads (exec resetCapture ?q)) with (downloads q).
    set (p1 := exec stopBtn_stopPlayback p).
    change (List.length (downloads (exec resetCapture
              (exec finalizeAndDownloadJSON (exec stopBtn_closeSegment p1)))))
      with (List.length (downloads (exec finalizeAndDownloadJSON
                                           (exec stopBtn_closeSegment p1)))).
    rewrite Hf. f_equal. rewrite stopBtn_closeSegment_spec.
    destruct (List.length (mouthCues p1) =? 0)%nat; [reflexivity|].
    destruct (segmentStart p1 <? currentTime (audioPlayer p1) ||| 0); reflexivity.
  - unfold audioPlayer_ended. rewrite exec_seq.
    change (List.length (downloads (exec resetCapture (exec finalizeAndDownloadJSON p))))
      with (List.length (downloads (exec finalizeAndDownloadJSON p))).
    apply Hf.
Qed.

(** X4. A session downloads exactly one file for each click on the stop
    button and each end of the audio, and none on any other event. *)
Theorem session_downloads_count (evs : list Event) :
  List.length (downloads (exec (session evs) initial)) =
  List.length (filter exports evs).
Proof.
  assert (H : forall p, List.length (downloads (exec (session evs) p)) =
                        (List.length (downloads p) + List.length (filter exports evs))%nat).
  { induction evs as [|ev evs IH]; intros p.
    - cbn [filter List.length]. rewrite Nat.add_0_r. reflexivity.
    - cbn [session filter]. rewrite exec_seq, IH, handle_downloads.
      destruct (exports ev); cbn [List.length]; lia. }
  rewrite H. reflexivity.
Qed.

(** ** The play button *)

Lemma captureViseme_grows (now : float) (viseme : string) (p : Page) :
  exists suffix : list MouthCue,
    mouthCues (exec (captureViseme now viseme) p) = mouthCues p ++ suffix /\
    (List.length suffix <= 1)%nat.
Proof.
  rewrite captureViseme_spec.
  destruct ((List.length (mouthCues p) =? 0)%nat && (now =? 0))%bool.
  - exists []. split; [symmetry; apply app_nil_r|cbn; lia].
  - destruct (String.eqb viseme (currentViseme p)).
    + exists []. split; [symmetry; apply app_nil_r|cbn; lia].
    + exists [closing_cue p now]. split; [reflexivity|cbn; lia].
Qed.

Lemma analyzeAudio_grows (p : Page) :
  exists suffix : list MouthCue,
    mouthCues (exec analyzeAudio p) = mouthCues p ++ suffix /\
    (List.length suffix <= 1)%nat.
Proof.
  rewrite analyzeAudio_spec. destruct (paused (audioPlayer p)).
  - exists []. split; [symmetry; apply app_nil_r|cbn; lia].
  - apply captureViseme_grows.
Qed.

(** X5. A click on the play button while the clock reads 0 starts a new
    run: whatever had been captured is discarded ([mouthCues] is empty,
    [segmentStart] and [audioDuration] are 0), the open segment carries the
    viseme the analyzer yields (['X'] when it yields none), the audio plays,
    and nothing is downloaded. *)
Theorem play_from_zero_starts_new_run (p : Page) :
  isConnected p = true ->
  (currentTime (audioPlayer p) =? 0) = true ->
  let q := exec playBtn_click p in
  recorder q = ([], JS.or_string (lipsync_viseme p) "X", 0, 0) /\
  paused (audioPlayer q) = false /\
  downloads q = downloads p.
Proof.
  intros Hc Ht q. unfold q. rewrite playBtn_click_spec, Hc, Ht, analyzeAudio_spec.
  cbn [unpause start_run audioPlayer set_audioPlayer set_segmentStart set_currentViseme
       paused currentTime lipsync_viseme].
  change (lipsync_viseme (exec resetCapture p)) with (lipsync_viseme p).
  change (currentTime (audioPlayer (exec resetCapture p)))
    with (currentTime (audioPlayer p)).
  assert (Hnow : currentTime (audioPlayer p) ||| 0 = 0).
  { unfold JS.or, JS.ToBoolean. rewrite Ht, orb_true_r. reflexivity. }
  rewrite Hnow, captureViseme_spec. repeat split.
Qed.

Lemma play_from_zero_starts_new_run_witness :
  let p := set_audioPlayer (mkAudio true 0 5)
             (set_isConnected true
                (exec (resetCapture ;; sample 0 "X" ;; sample 0.5 "A") initial)) in
  mouthCues p = [mkCue 0 0.5 "X"] /\
  recorder (exec playBtn_click p) = ([], "A", 0, 0).
Proof.
  intros p. split; [reflexivity|].
  exact (proj1 (play_from_zero_starts_new_run p eq_refl eq_refl)).
Defined.

(** X6. Elsewhere than at 0, a click on the play button does nothing while
    no audio is connected, and resumes the capture otherwise: it runs
    [analyzeAudio] on the playing audio.  Either way every cue captured so
    far is kept, and at most one cue is appended. *)
Theorem play_resumes_capture (p : Page) :
  (currentTime (audioPlayer p) =? 0) = false ->
  let q := exec playBtn_click p in
  (isConnected p = false -> q = p) /\
  (isConnected p = true -> q = exec analyzeAudio (unpause p)) /\
  exists suffix : list MouthCue,
    mouthCues q = mouthCues p ++ suffix /\ (List.length suffix <= 1)%nat.
Proof.
  intros Ht q. unfold q. rewrite playBtn_click_spec, Ht.
  destruct (isConnected p).
  - split; [discriminate|]. split; [reflexivity|].
    apply (analyzeAudio_grows (unpause p)).
  - split; [reflexivity|]. split; [discriminate|].
    exists []. split; [symmetry; apply app_nil_r|cbn; lia].
Qed.

Lemma play_resumes_capture_witness :
  let p := set_audioPlayer (mkAudio true 0.7 5)
             (set_lipsync_viseme (Some "B")
                (set_isConnected true
                   (exec (resetCapture ;; sample 0 "X" ;; sample 0.5 "A") initial))) in
  mouthCues (exec playBtn_click p) = [mkCue 0 0.5 "X"; mkCue 0.5 0.7 "A"] /\
  exists suffix : list MouthCue,
    mouthCues (exec playBtn_click p) = mouthCues p ++ suffix /\
    (List.length suffix <= 1)%nat.
Proof.
  intros p. split; [vm_compute; reflexivity|].
  exact (proj2 (proj2 (play_resumes_capture p eq_refl))).
Defined.

(** ** Capture only appends *)

(** X7. A run of animation frames only appends to [mouthCues]: the cues
    captured before are kept as they are, in their order, and at most one
    cue is appended per frame. *)
Theorem frames_append_only (l : list (float * option string)) (p : Page) :
  exists suffix : list MouthCue,
    mouthCues (exec (frames l) p) = mouthCues p ++ suffix /\
    (List.length suffix <= List.length l)%nat.
Proof.
  revert p. induction l as [|[now v] l IH]; intros p.
  - exists []. split; [symmetry; apply app_nil_r|cbn; lia].
  - cbn [frames]. rewrite exec_seq.
    destruct (IH (exec (frame now v) p)) as (s2 & E2 & L2).
    rewrite frame_spec in E2.
    destruct (captureViseme_grows (now ||| 0) (JS.or_string v "X") (at_frame now v p))
      as (s1 & E1 & L1).
    change (mouthCues (at_frame now v p)) with (mouthCues p) in E1.
    exists (s1 ++ s2). split.
    + rewrite frame_spec, E2, E1, app_assoc. reflexivity.
    + rewrite length_app. cbn [List.length]. lia.
Qed.

(** ** The cues are the runs of the visemes *)

(** X8. Once the clock has left 0, a run of animation frames records the
    runs of the visemes it reads: the visemes of the cues, followed by the
    viseme of the open segment, are those recorded before followed by the
    sequence of visemes read on the frames in which equal neighbours are
    collapsed. *)
Theorem frames_record_runs (l : list (float * option string)) (p : Page) :
  forallb after_zero l = true ->
  visemes (exec (frames l) p) =
  map value (mouthCues p) ++ compress (currentViseme p) (labels l).
Proof.
  revert p. induction l as [|[now v] l IH]; intros p H; [reflexivity|].
  cbn [forallb] in H. apply andb_prop in H. destruct H as [Hz H].
  unfold after_zero in Hz. cbn [fst] in Hz. apply negb_true_iff in Hz.
  cbn [frames labels map snd compress]. fold (labels l).
  rewrite exec_seq, (IH _ H), frame_spec, captureViseme_spec, Hz, andb_false_r.
  change (currentViseme (at_frame now v p)) with (currentViseme p).
  change (mouthCues (at_frame now v p)) with (mouthCues p).
  destruct (String.eqb (JS.or_string v "X") (currentViseme p)); [reflexivity|].
  cbn [mouthCues currentViseme set_segmentStart set_currentViseme set_mouthCues].
  rewrite map_app, <- app_assoc. reflexivity.
Qed.

Lemma frames_record_runs_witness :
  let l := [(0.1, Some "A"); (0.2, Some "A"); (0.3, None); (0.4, Some "B");
            (0.5, Some "B")] in
  let p := exec (resetCapture ;; sample 0 "A") initial in
  forallb after_zero l = true /\
  visemes (exec (frames l) p) = ["A"; "X"; "B"].
Proof.
  intros l p. split; [reflexivity|].
  exact (frames_record_runs l p eq_refl).
Defined.

(** ** Nothing is captured while the audio is paused *)

(** X9. While the audio is paused, whatever the analyzer yields and however
    many animation frames fire, the capture state stays as it is and
    nothing is downloaded. *)
Theorem paused_captures_nothing (evs : list Event) (p : Page) :
  paused (audioPlayer p) = true ->
  forallb idle evs = true ->
  let q := exec (session evs) p in
  recorder q = recorder p /\ downloads q = downloads p /\
  paused (audioPlayer q) = true.
Proof.
  revert p. induction evs as [|ev evs IH]; intros p Hp H; [repeat split; exact Hp|].
  cbn [forallb] in H. apply andb_prop in H. destruct H as [Hev H].
  cbv zeta. cbn [session]. rewrite exec_seq.
  destruct ev as [a|v| |file|connects| | | | ]; try discriminate Hev; cbn [handle].
  - apply (IH (set_lipsync_viseme v p) Hp H).
  - rewrite (analyzeAudio_paused p Hp). apply (IH p Hp H).
  - destruct (IH (exec pauseBtn_click p) eq_refl H) as (H1 & H2 & H3).
    split; [exact H1|]. split; [exact H2|exact H3].
Qed.

Lemma paused_captures_nothing_witness :
  let p := set_audioPlayer (mkAudio true 0.7 5)
             (exec (resetCapture ;; sample 0 "X" ;; sample 0.5 "A") initial) in
  let evs := [Analyzer (Some "B"); AnimationFrame; PauseClick; AnimationFrame] in
  recorder (exec (session evs) p) = ([mkCue 0 0.5 "X"], "A", 0.5, 0).
Proof.
  intros p evs.
  exact (proj1 (paused_captures_nothing evs p eq_refl eq_refl)).
Defined.

(** ** The name of the downloaded file *)

Lemma append_nil_r (s : string) : (s ++ "")%string = s.
Proof. induction s as [|c s IH]; [reflexivity|]. cbn [append]. rewrite IH. reflexivity. Qed.

Lemma append_assoc (a b c : string) : ((a ++ b) ++ c)%string = (a ++ (b ++ c))%string.
Proof. induction a as [|x a IH]; [reflexivity|]. cbn [append]. rewrite IH. reflexivity. Qed.

Lemma string_rev_app (a b : string) :
  string_rev (a ++ b) = (string_rev b ++ string_rev a)%string.
Proof.
  induction a as [|x a IH]; cbn [append string_rev].
  - symmetry. apply append_nil_r.
  - rewrite IH. apply append_assoc.
Qed.

Lemma string_rev_involutive (s : string) : string_rev (string_rev s) = s.
Proof.
  induction s as [|c s IH]; [reflexivity|].
  cbn [string_rev]. rewrite string_rev_app, IH. reflexivity.
Qed.

Lemma no_dot_slash_app (a b : string) :
  no_dot_slash (a ++ b) = (no_dot_slash a && no_dot_slash b)%bool.
Proof.
  induction a as [|x a IH]; [reflexivity|].
  cbn [append no_dot_slash]. rewrite IH, andb_assoc. reflexivity.
Qed.

Lemma no_dot_slash_rev (s : string) : no_dot_slash (string_rev s) = no_dot_slash s.
Proof.
  induction s as [|c s IH]; [reflexivity|].
  cbn [string_rev]. rewrite no_dot_slash_app, IH. cbn [no_dot_slash].
  rewrite andb_true_r. apply andb_comm.
Qed.

Lemma no_dot_app (a b : string) : no_dot (a ++ b) = (no_dot a && no_dot b)%bool.
Proof.
  induction a as [|x a IH]; [reflexivity|].
  cbn [append no_dot]. rewrite IH, andb_assoc. reflexivity.
Qed.

Lemma no_dot_rev (s : string) : no_dot (string_rev s) = no_dot s.
Proof.
  induction s as [|c s IH]; [reflexivity|].
  cbn [string_rev]. rewrite no_dot_app, IH. cbn [no_dot].
  rewrite andb_true_r. apply andb_comm.
Qed.

(** The pattern matches a dot followed by an extension at the end. *)
Lemma strip_ext_rev_match (e r : string) :
  forall seen : nat,
    no_dot_slash e = true -> (e = "" -> seen <> O) ->
    strip_ext_rev seen (e ++ String "." r) = Some r.
Proof.
  induction e as [|c e IH]; intros seen He Hn.
  - cbn [append strip_ext_rev]. change (Ascii.eqb "." ".") with true. cbv iota.
    destruct seen; [exfalso; apply Hn; reflexivity|reflexivity].
  - cbn [no_dot_slash] in He. apply andb_prop in He. destruct He as [Hc He].
    apply andb_prop in Hc. destruct Hc as [Hd Hs].
    apply negb_true_iff in Hd, Hs.
    cbn [append strip_ext_rev]. rewrite Hd, Hs.
    apply IH; [exact He|discriminate].
Qed.

(** It matches nothing in a text without a dot. *)
Lemma strip_ext_rev_no_dot (r : string) :
  forall seen : nat, no_dot r = true -> strip_ext_rev seen r = None.
Proof.
  induction r as [|c r IH]; intros seen H; [reflexivity|].
  cbn [no_dot] in H. apply andb_prop in H. destruct H as [Hd H].
  apply negb_true_iff in Hd. cbn [strip_ext_rev]. rewrite Hd.
  destruct (Ascii.eqb c "/"); [reflexivity|]. apply IH. exact H.
Qed.

Lemma replace_extension_match (stem ext : string) :
  is_extension ext = true ->
  replace_extension (stem ++ "." ++ ext) = stem.
Proof.
  intros H. unfold is_extension in H. apply andb_prop in H. destruct H as [Hne Hp].
  apply negb_true_iff in Hne.
  unfold replace_extension.
  change ("." ++ ext)%string with (String "." ext).
  rewrite string_rev_app. cbn [string_rev]. rewrite append_assoc.
  change (String "." "" ++ string_rev stem)%string with (String "." (string_rev stem)).
  rewrite strip_ext_rev_match.
  - apply string_rev_involutive.
  - rewrite no_dot_slash_rev. exact Hp.
  - intros E. apply (f_equal string_rev) in E. rewrite string_rev_involutive in E.
    rewrite E in Hne. discriminate Hne.
Qed.

Lemma replace_extension_no_dot (s : string) :
  no_dot s = true -> replace_extension s = s.
Proof.
  intros H. unfold replace_extension.
  rewrite strip_ext_rev_no_dot; [reflexivity|]. rewrite no_dot_rev. exact H.
Qed.

Lemma append_not_empty (a : string) (c : ascii) (b : string) :
  String.eqb (a ++ String c b) "" = false.
Proof. destruct a; reflexivity. Qed.

Lemma or_str_not_empty (a b : string) : String.eqb a "" = false -> or_str a b = a.
Proof. intros H. unfold or_str. rewrite H. reflexivity. Qed.

Lemma finalizeAndDownloadJSON_last (p : Page) :
  let t := endTime_of (audioPlayer p) in
  last_download (exec finalizeAndDownloadJSON p) =
  Some (mkDownload (download_name p) (export_of (exec (closeLastSegment t) p) t)).
Proof.
  cbv zeta. apply (last_download_snoc _ (downloads p)).
  apply finalizeAndDownloadJSON_downloads.
Qed.

(** X10. When the uploaded file is named [<stem>.<ext>], where [ext] is not
    empty and holds no dot and no slash, the export is downloaded as
    [<stem>.visemes.json] ([audio.visemes.json] when [stem] is empty) and
    its [metadata.soundFile] is the whole name. *)
Theorem download_name_strips_extension (p : Page) (stem ext : string) :
  uploadedFileName p = (stem ++ "." ++ ext)%string ->
  is_extension ext = true ->
  let q := exec finalizeAndDownloadJSON p in
  option_map download (last_download q) =
    Some (or_str stem "audio" ++ ".visemes.json")%string /\
  option_map (fun d => soundFile (metadata (data d))) (last_download q) =
    Some (stem ++ "." ++ ext)%string.
Proof.
  intros Hn He q. unfold q. rewrite finalizeAndDownloadJSON_last.
  cbn [option_map download data metadata soundFile export_of].
  set (t := endTime_of (audioPlayer p)).
  destruct (closeLastSegment_frame t p) as (_ & _ & _ & Hu & _). cbv zeta in Hu.
  rewrite Hu. unfold download_name. rewrite Hn.
  change ("." ++ ext)%string with (String "." ext).
  rewrite append_not_empty.
  change (String "." ext) with ("." ++ ext)%string.
  rewrite (replace_extension_match stem ext He).
  split; [reflexivity|].
  rewrite or_str_not_empty; [reflexivity|].
  change ("." ++ ext)%string with (String "." ext). apply append_not_empty.
Qed.

Lemma download_name_strips_extension_witness :
  let p := set_uploadedFileName "my.song.mp3" initial in
  option_map download (last_download (exec finalizeAndDownloadJSON p)) =
    Some "my.song.visemes.json".
Proof.
  intros p.
  exact (proj1 (download_name_strips_extension p "my.song" "mp3" eq_refl eq_refl)).
Defined.

(** X11. When the name of the uploaded file holds no dot, the export is
    downloaded as [<name>.visemes.json] and its [metadata.soundFile] is
    the name; when there is no name at all they are [audio.visemes.json]
    and ['unknown']. *)
Theorem download_name_without_extension (p : Page) :
  no_dot (uploadedFileName p) = true ->
  let q := exec finalizeAndDownloadJSON p in
  option_map download (last_download q) =
    Some (or_str (uploadedFileName p) "audio" ++ ".visemes.json")%string /\
  option_map (fun d => soundFile (metadata (data d))) (last_download q) =
    Some (or_str (uploadedFileName p) "unknown").
Proof.
  intros Hn q. unfold q. rewrite finalizeAndDownloadJSON_last.
  cbn [option_map download data metadata soundFile export_of].
  set (t := endTime_of (audioPlayer p)).
  destruct (closeLastSegment_frame t p) as (_ & _ & _ & Hu & _). cbv zeta in Hu.
  rewrite Hu. split; [|reflexivity].
  unfold download_name. rewrite (replace_extension_no_dot _ Hn).
  destruct (String.eqb (uploadedFileName p) "") eqn:E; [|reflexivity].
  apply String.eqb_eq in E. rewrite E. reflexivity.
Qed.

Lemma download_name_without_extension_witness :
  let p := set_uploadedFileName "clip" initial in
  option_map download (last_download (exec finalizeAndDownloadJSON p)) =
    Some "clip.visemes.json" /\
  option_map (fun d => soundFile (metadata (data d)))
             (last_download (exec finalizeAndDownloadJSON p)) = Some "clip".
Proof.
  intros p. exact (download_name_without_extension p eq_refl).
Defined.

(** ** Exports carry the name of the chosen file *)







(** ** The cues of an export are sorted *)

(** X13. When the clock readings of the frames sampled after a reset never
    go back (starting from 0), the cues left by [finalize] are sorted in
    time: from each cue to the next, neither the start nor the end
    decreases. *)
Theorem finalize_sorted
    (p0 : Page) (l : list (float * option string)) (endTime : float) :
  nondecreasing_from 0 (map fst l) = true ->
  let q := exec (resetCapture ;; frames l ;; finalize endTime) p0 in
  forall (i : nat) (a b : MouthCue),
    nth_error (mouthCues q) i = Some a -> nth_error (mouthCues q) (S i) = Some b ->
    (start a <=? start b) = true /\ (end_ a <=? end_ b) = true.
Proof.
  intros Hs q i a b Ha Hb. unfold q in Ha, Hb. rewrite !exec_seq in Ha, Hb.
  set (p := exec (frames l) (exec resetCapture p0)) in *.
  assert (Hc : capture_chain p) by (apply frames_chain; repeat split).
  assert (Ho : exists t1, capture_ordered t1 p).
  { apply (frames_ordered l 0); [exact Hs|reflexivity|]. repeat split; constructor. }
  destruct Ho as [t1 Ho].
  destruct (finalize_mouthCues endTime p) as [Hm _]. rewrite Hm in Ha, Hb.
  set (t := endTime_of (mkAudio (paused (audioPlayer p))
                                (currentTime (audioPlayer p)) endTime)) in *.
  pose proof (closeLastSegment_chain t p (or_zero_not_nan _) Hc) as Hch.
  pose proof (closeLastSegment_ordered t t1 p Ho) as Hok.
  rewrite Forall_forall in Hok.
  destruct (chain_adjacent _ _ Hch) as [H1 _].
  destruct (H1 i a b Ha Hb) as [E _].
  destruct (Hok a (nth_error_In _ _ Ha)) as [Oa _].
  destruct (Hok b (nth_error_In _ _ Hb)) as [Ob _].
  split; [rewrite <- E; exact Oa|rewrite E; exact Ob].
Qed.

Lemma finalize_sorted_witness :
  let l := [(0, Some "X"); (0.5, Some "A"); (1, Some "B")] in
  let q := exec (resetCapture ;; frames l ;; finalize 1.2) initial in
  mouthCues q = [mkCue 0 0.5 "X"; mkCue 0.5 1 "A"; mkCue 1 1.2 "B"] /\
  forall (i : nat) (a b : MouthCue),
    nth_error (mouthCues q) i = Some a -> nth_error (mouthCues q) (S i) = Some b ->
    (start a <=? start b) = true /\ (end_ a <=? end_ b) = true.
Proof.
  intros l q. split; [vm_compute; reflexivity|].
  exact (finalize_sorted initial l 1.2 eq_refl).
Defined.

(** ** The stop button never exports an empty list *)

Lemma stopBtn_closeSegment_head (p : Page) :
  exists cues : list MouthCue,
    mouthCues (exec stopBtn_closeSegment p) =
    hd (mkCue 0 0 "X") (mouthCues p) :: cues.
Proof.
  rewrite stopBtn_closeSegment_spec.
  destruct (mouthCues p) as [|c l] eqn:E; cbn [List.length Nat.eqb hd].
  - exists []. reflexivity.
  - destruct (segmentStart p <? currentTime (audioPlayer p) ||| 0).
    + eexists. cbn [mouthCues set_mouthCues app]. reflexivity.
    + exists l. exact E.
Qed.

(** X14. The file exported by a click on the stop button always holds at
    least one cue: its first cue is the first cue captured or, when none
    has been captured, the degenerate cue [{0, 0, 'X'}]. *)
Theorem stop_export_not_empty (p : Page) :
  exists cues : list MouthCue,
    exported_cues (exec stopBtn_click p) =
    Some (hd (mkCue 0 0 "X") (mouthCues p) :: cues).
Proof.
  unfold stopBtn_click. rewrite !exec_seq.
  set (p1 := exec stopBtn_stopPlayback p).
  set (p2 := exec stopBtn_closeSegment p1).
  change (exported_cues (exec resetCapture (exec finalizeAndDownloadJSON p2)))
    with (exported_cues (exec finalizeAndDownloadJSON p2)).
  unfold exported_cues. rewrite finalizeAndDownloadJSON_last.
  cbn [option_map data data_mouthCues export_of].
  destruct (stopBtn_closeSegment_head p1) as [cues H2]. fold p2 in H2.
  change (mouthCues p1) with (mouthCues p) in H2.
  rewrite closeLastSegment_spec.
  destruct (segmentStart p2 <=? endTime_of (audioPlayer p2)).
  - cbn [mouthCues set_mouthCues]. rewrite H2. eexists. reflexivity.
  - rewrite H2. eexists. reflexivity.
Qed.

(** * [round2]: accuracy and round trip *)

Section RoundTrip.

Local Open Scope Z_scope.

(** ** The rounding error of the multiplication by 100 *)

(** Multiplying by [100] gives a value within half a unit in the last
    place of the exact product. *)
Lemma mul100_near (m : positive) (e : Z) :
  bounded prec emax m e = true ->
  200 * (Z.pos m * 2 ^ (e + 1074)) < 2 ^ 2098 ->
  let P := units (mul100 (S754_finite false m e)) in
  2 ^ 53 * Z.abs (P - 100 * (Z.pos m * 2 ^ (e + 1074))) <= P + 2 ^ 52.
Proof.
  intros B Hsmall P.
  destruct (bounded_facts _ _ B) as (He & Hm & _ & _).
  pose proof (units_finite_bounds m e B) as [HU0 _].
  unfold P, mul100. clear P.
  destruct (mul100_finite false m e) as [-> Hpre].
  rewrite units_RN by exact Hpre.
  destruct (RN_man_bounds _ _ _ Hpre) as (HM & HE & HN).
  destruct Hpre as (Ha & _ & Hee).
  set (a := Z.pos m * m100) in *. set (e0 := e + -46) in *.
  set (Er := RN_exp a 1 e0) in *.
  pose proof (rne_qpos_near a (2 ^ (Er - e0) * 1) Ha) as Hnear.
  assert (HS : 0 < 2 ^ (Er - e0)) by (apply pow2_pos; lia).
  specialize (Hnear ltac:(lia)).
  change (rne (qpos a (2 ^ (Er - e0) * 1))) with (RN_man a 1 e0) in Hnear.
  set (Mr := RN_man a 1 e0) in *.
  assert (HPw : 0 < 2 ^ (Er + 1074)) by (apply pow2_pos; lia).
  assert (Hm100 : m100 = 100 * 2 ^ 46) by reflexivity.
  set (U := Z.pos m * 2 ^ (e + 1074)) in *.
  assert (Herr : Z.abs (2 * (Mr * 2 ^ (Er + 1074) - 100 * U)) <= 2 ^ (Er + 1074)).
  { destruct (Z_le_gt_dec 0 (e0 + 1074)) as [Hpos|Hneg].
    - assert (HQ : 0 < 2 ^ (e0 + 1074)) by (apply pow2_pos; lia).
      assert (E1 : 2 ^ (Er + 1074) = 2 ^ (Er - e0) * 2 ^ (e0 + 1074)).
      { rewrite <- Z.pow_add_r by lia. f_equal. lia. }
      assert (E2 : 100 * U = a * 2 ^ (e0 + 1074)).
      { unfold U, a. rewrite Hm100.
        replace (e + 1074) with (46 + (e0 + 1074)) by (unfold e0; lia).
        rewrite Z.pow_add_r by lia. ring. }
      rewrite E1, E2.
      replace (2 * (Mr * (2 ^ (Er - e0) * 2 ^ (e0 + 1074)) - a * 2 ^ (e0 + 1074)))
        with (2 * (Mr * (2 ^ (Er - e0) * 1) - a) * 2 ^ (e0 + 1074)) by ring.
      rewrite Z.abs_mul, (Z.abs_eq (2 ^ (e0 + 1074))) by lia.
      apply Z.mul_le_mono_nonneg_r; lia.
    - set (c := - (e0 + 1074)).
      assert (HR : 0 < 2 ^ c) by (apply pow2_pos; unfold c; lia).
      assert (E1 : 2 ^ (Er - e0) = 2 ^ (Er + 1074) * 2 ^ c).
      { rewrite <- Z.pow_add_r by (unfold c; lia). f_equal. unfold c. lia. }
      assert (E2 : a = 100 * U * 2 ^ c).
      { unfold U, a. rewrite Hm100.
        replace 46 with (e + 1074 + c) by (unfold c, e0; lia).
        rewrite Z.pow_add_r by (unfold c, e0; lia). ring. }
      rewrite E1, E2 in Hnear.
      replace (2 * (Mr * (2 ^ (Er + 1074) * 2 ^ c * 1) - 100 * U * 2 ^ c))
        with (2 * (Mr * 2 ^ (Er + 1074) - 100 * U) * 2 ^ c) in Hnear by ring.
      rewrite Z.mul_1_r, Z.abs_mul, (Z.abs_eq (2 ^ c)) in Hnear by lia.
      apply (Z.mul_le_mono_pos_r _ _ (2 ^ c)); assumption. }
  set (Pw := 2 ^ (Er + 1074)) in *. set (K := 2 ^ 2098) in *.
  assert (H52 : 2 ^ 52 = 4503599627370496) by reflexivity.
  assert (H53 : 2 ^ 53 = 9007199254740992) by reflexivity.
  rewrite H52, H53 in *.
  assert (Hcase : 4503599627370496 * Pw <= Mr * Pw \/ Pw = 1).
  { destruct (Z.eq_dec Er (-1074)) as [E|N].
    - right. unfold Pw. rewrite E. reflexivity.
    - left. apply Z.mul_le_mono_nonneg_r; [lia|]. apply HN. lia. }
  assert (HMP : 0 <= Mr * Pw) by (apply Z.mul_nonneg_nonneg; lia).
  clearbody Pw K U Mr.
  assert (HPK : Mr * Pw < K) by (destruct Hcase; lia).
  rewrite Z.min_l by lia.
  destruct Hcase; lia.
Qed.

Lemma mul100_units_near (x : spec_float) :
  valid_binary x = true -> nonneg x = true ->
  200 * units x < 2 ^ 2098 ->
  2 ^ 53 * Z.abs (units (mul100 x) - 100 * units x) <= units (mul100 x) + 2 ^ 52.
Proof.
  intros V N H.
  destruct x as [s|[|]| |[|] m e]; try discriminate N.
  - destruct s; vm_compute; discriminate.
  - unfold units in H. assert (0 < 2 ^ 2098) by (apply pow2_pos; lia). lia.
  - apply (mul100_near m e V H).
Qed.

(** On the positive finite values [units] is one-to-one. *)
Lemma units_inj (x y : spec_float) :
  valid_binary x = true -> valid_binary y = true ->
  nonneg x = true -> nonneg y = true ->
  0 < units x < 2 ^ 2098 -> units x = units y -> x = y.
Proof.
  intros Vx Vy Nx Ny Hx E.
  destruct (shape_finite x Vx Nx Hx) as (m1 & e1 & -> & B1).
  destruct (shape_finite y Vy Ny ltac:(lia)) as (m2 & e2 & -> & B2).
  unfold units in E.
  destruct (Z_lt_le_dec e1 e2) as [H1|H1];
    [pose proof (canonical_lt _ _ _ _ B1 B2 H1); lia|].
  destruct (Z_lt_le_dec e2 e1) as [H2|H2];
    [pose proof (canonical_lt _ _ _ _ B2 B1 H2); lia|].
  assert (e1 = e2) by lia. subst e2.
  destruct (bounded_facts _ _ B1) as (He & _).
  assert (HP : 0 < 2 ^ (e1 + 1074)) by (apply pow2_pos; lia).
  apply Z.mul_cancel_r in E; [|lia]. injection E as ->. reflexivity.
Qed.

Lemma round_units_bounds (k : Z) :
  let N := round_units k in
  2 * N <= 2 * k + 2 ^ 1074 < 2 * N + 2 * 2 ^ 1074.
Proof.
  cbv zeta. unfold round_units.
  assert (HW : 0 < 2 ^ 1074) by (apply pow2_pos; lia).
  assert (HW2 : 2 ^ 1075 = 2 * 2 ^ 1074).
  { change 1075 with (1 + 1074). rewrite Z.pow_add_r by lia. reflexivity. }
  rewrite HW2. set (W := 2 ^ 1074) in *. clearbody W.
  pose proof (Z.div_mod (2 * k + W) (2 * W) ltac:(lia)) as Hd.
  pose proof (Z.mod_pos_bound (2 * k + W) (2 * W) ltac:(lia)) as Hr.
  set (q := (2 * k + W) / (2 * W)) in *. clearbody q. nia.
Qed.

Lemma round_units_unique (k n : Z) :
  2 * (n * 2 ^ 1074) <= 2 * k + 2 ^ 1074 < 2 * (n * 2 ^ 1074) + 2 * 2 ^ 1074 ->
  round_units k = n * 2 ^ 1074.
Proof.
  intros H. unfold round_units. f_equal.
  assert (HW : 0 < 2 ^ 1074) by (apply pow2_pos; lia).
  assert (HW2 : 2 ^ 1075 = 2 * 2 ^ 1074).
  { change 1075 with (1 + 1074). rewrite Z.pow_add_r by lia. reflexivity. }
  rewrite HW2. set (W := 2 ^ 1074) in *. clearbody W.
  symmetry. apply (Z.div_unique _ _ _ (2 * k + W - 2 * (n * W))); lia.
Qed.

Lemma round2_stages (x : spec_float) :
  valid_binary x = true -> nonneg x = true ->
  200 * units x < 2 ^ 2098 ->
  let u := units (mul100 x) in
  let N := units (SF_round (mul100 x)) in
  let U := units (SF_round2 x) in
  0 <= units x /\ 0 <= u /\ 0 <= U /\
  2 ^ 53 * Z.abs (u - 100 * units x) <= u + 2 ^ 52 /\
  2 * N <= 2 * u + 2 ^ 1074 < 2 * N + 2 * 2 ^ 1074 /\
  N = round_units u /\
  (u < 2 ^ 2098 -> 2 ^ 52 * Z.abs (100 * U - N) <= 50 * U).
Proof.
  intros V N H. cbv zeta.
  destruct (mul100_facts x) as (Vu & _ & Nu). specialize (Nu N).
  destruct (SF_round2_facts x) as (Vr & _ & Nr). specialize (Nr N).
  destruct (SF_round_units _ Vu Nu) as [EN _].
  split; [apply units_bounds; assumption|].
  split; [apply units_bounds; assumption|].
  split; [apply units_bounds; assumption|].
  split; [apply mul100_units_near; assumption|].
  split; [rewrite EN; apply round_units_bounds|].
  split; [exact EN|].
  intros Hu. apply SF_round2_near; assumption.
Qed.

Lemma round_units_pos (k : Z) : 0 < round_units k -> 2 ^ 1074 <= round_units k.
Proof.
  unfold round_units. intros H.
  assert (HW : 0 < 2 ^ 1074) by (apply pow2_pos; lia).
  set (q := (2 * k + 2 ^ 1074) / 2 ^ 1075) in *. set (W := 2 ^ 1074) in *.
  clearbody q W.
  destruct (Z_le_gt_dec q 0) as [Hq|Hq].
  - pose proof (Z.mul_nonpos_nonneg q W Hq ltac:(lia)). lia.
  - pose proof (Z.mul_le_mono_nonneg_r 1 q W ltac:(lia) ltac:(lia)). lia.
Qed.

(** [round2] moves a time of at most [10 ^ 9] seconds by at most half a
    hundredth, up to the roundings of the product and of the quotient. *)
Lemma SF_round2_error (x : spec_float) :
  valid_binary x = true -> nonneg x = true ->
  units x <= 10 ^ 9 * 2 ^ 1074 ->
  4096 * Z.abs (100 * units (SF_round2 x) - 100 * units x) <= 2049 * 2 ^ 1074.
Proof.
  intros V N Hx.
  assert (HW : 2 ^ 60 <= 2 ^ 1074) by (apply Z.pow_le_mono_r; lia).
  assert (HK : 2 ^ 2098 = 2 ^ 1024 * 2 ^ 1074) by (apply (pow2_split 2098 1024); lia).
  assert (HK' : 2 ^ 60 * 2 ^ 1074 <= 2 ^ 2098).
  { rewrite HK. apply Z.mul_le_mono_nonneg_r; [lia|]. apply Z.pow_le_mono_r; lia. }
  assert (Hsmall : 200 * units x < 2 ^ 2098).
  { change (2 ^ 60) with 1152921504606846976 in *. change (10 ^ 9) with 1000000000 in *.
    set (W := 2 ^ 1074) in *. set (K := 2 ^ 2098) in *. clearbody W K. lia. }
  destruct (round2_stages x V N Hsmall) as (HT & Hu & HU & Hmul & Hrnd & _ & Hdiv).
  change (2 ^ 60) with 1152921504606846976 in *.
  change (10 ^ 9) with 1000000000 in *.
  change (2 ^ 52) with 4503599627370496 in *.
  change (2 ^ 53) with 9007199254740992 in *.
  set (W := 2 ^ 1074) in *. set (K := 2 ^ 2098) in *.
  set (T := units x) in *. set (u := units (mul100 x)) in *.
  set (Nn := units (SF_round (mul100 x))) in *. set (U := units (SF_round2 x)) in *.
  clearbody W K T u Nn U. clear HK.
  assert (Hfin : u < K) by lia.
  specialize (Hdiv Hfin). lia.
Qed.

(** Rounding a rounded time of at most [10 ^ 13] seconds again gives it
    back. *)
Lemma SF_round2_idem (x : spec_float) :
  valid_binary x = true -> nonneg x = true ->
  units x <= 10 ^ 13 * 2 ^ 1074 ->
  SF_round2 (SF_round2 x) = SF_round2 x.
Proof.
  intros V N Hx.
  assert (HW : 2 ^ 60 <= 2 ^ 1074) by (apply Z.pow_le_mono_r; lia).
  assert (HK : 2 ^ 2098 = 2 ^ 1024 * 2 ^ 1074) by (apply (pow2_split 2098 1024); lia).
  assert (HK' : 2 ^ 60 * 2 ^ 1074 <= 2 ^ 2098).
  { rewrite HK. apply Z.mul_le_mono_nonneg_r; [lia|]. apply Z.pow_le_mono_r; lia. }
  clear HK.
  assert (Hsmall : 200 * units x < 2 ^ 2098).
  { change (2 ^ 60) with 1152921504606846976 in *.
    change (10 ^ 13) with 10000000000000 in *.
    set (W := 2 ^ 1074) in *. set (K := 2 ^ 2098) in *. clearbody W K. lia. }
  destruct (round2_stages x V N Hsmall) as (HT & Hu & _ & Hmul & Hrnd & EN & _).
  destruct (mul100_facts x) as (Vu & _ & Nu). specialize (Nu N).
  destruct (SF_round_facts _ Vu) as (VF & _).
  destruct (SF_round_units _ Vu Nu) as [_ NF].
  unfold SF_round2 at 1 3. fold (SF_round2 x) in *.
  set (F := SF_round (mul100 x)) in *.
  unfold SF_round2. fold F. f_equal.
  pose proof (units_bounds F VF NF) as [HN0 _].
  assert (HNhi : units F <= 2 ^ 51 * 2 ^ 1074).
  { change (2 ^ 60) with 1152921504606846976 in *.
    change (10 ^ 13) with 10000000000000 in *.
    change (2 ^ 51) with 2251799813685248.
    change (2 ^ 52) with 4503599627370496 in *.
    change (2 ^ 53) with 9007199254740992 in *.
    set (W := 2 ^ 1074) in *. set (T := units x) in *.
    set (u := units (mul100 x)) in *. set (Nn := units F) in *.
    clearbody W T u Nn. lia. }
  destruct (Z.eq_dec (units F) 0) as [E0|Hpos].
  - (* the whole number of hundredths is zero *)
    destruct F as [s|[|]| |[|] m e]; try discriminate NF.
    + destruct s; reflexivity.
    + unfold units in E0. assert (0 < 2 ^ 2098) by (apply pow2_pos; lia). lia.
    + pose proof (units_finite_bounds m e VF). unfold units in E0. lia.
  - assert (HNK : units F < 2 ^ 2098).
    { change (2 ^ 60) with 1152921504606846976 in *.
      change (2 ^ 51) with 2251799813685248 in *.
      set (W := 2 ^ 1074) in *. set (K := 2 ^ 2098) in *. clearbody W K. lia. }
    destruct (shape_finite F VF NF ltac:(lia)) as (mF & eF & EF & BF).
    assert (HNW : 2 ^ 1074 <= units F).
    { rewrite EN. apply round_units_pos. rewrite <- EN. lia. }
    pose proof (div100_near mF eF BF) as Hdiv. cbv zeta in Hdiv.
    change (Z.pos mF * 2 ^ (eF + 1074)) with (units (S754_finite false mF eF)) in Hdiv.
    rewrite <- EF in Hdiv. specialize (Hdiv HNW).
    destruct (div100_facts F) as (Vr & _ & Nr). specialize (Nr NF).
    set (r := div100 F) in *.
    pose proof (units_bounds r Vr Nr) as [HU0 _].
    assert (Hsmall' : 200 * units r < 2 ^ 2098).
    { change (2 ^ 60) with 1152921504606846976 in *.
      change (2 ^ 51) with 2251799813685248 in *.
      change (2 ^ 52) with 4503599627370496 in *.
      set (W := 2 ^ 1074) in *. set (K := 2 ^ 2098) in *.
      set (U := units r) in *. set (Nn := units F) in *.
      clearbody W K U Nn. lia. }
    pose proof (mul100_units_near r Vr Nr Hsmall') as Hmul'.
    destruct (mul100_facts r) as (Vp & _ & Np). specialize (Np Nr).
    destruct (SF_round_facts _ Vp) as (VG & _).
    destruct (SF_round_units _ Vp Np) as [EG NG].
    pose proof (units_bounds _ Vp Np) as [HP0 _].
    symmetry. apply units_inj; try assumption; [lia|].
    rewrite EG. symmetry.
    assert (Hn : exists n, units F = n * 2 ^ 1074)
      by (rewrite EN; unfold round_units; eexists; reflexivity).
    destruct Hn as [n Hn]. rewrite Hn.
    apply round_units_unique. rewrite <- Hn. clear Hn EN.
    change (2 ^ 60) with 1152921504606846976 in *.
    change (2 ^ 51) with 2251799813685248 in *.
    change (2 ^ 52) with 4503599627370496 in *.
    change (2 ^ 53) with 9007199254740992 in *.
    set (W := 2 ^ 1074) in *.
    set (U := units r) in *. set (Nn := units F) in *.
    set (P := units (mul100 r)) in *.
    clearbody W U Nn P. lia.
Qed.

End RoundTrip.

(** ** [round2] on JavaScript numbers: monotonicity, accuracy, round trip *)

(** X15. [round2] is monotone on the non-negative numbers: a later clock
    reading never gets an earlier timestamp. *)
Theorem round2_monotone (x y : float) :
  (0 <=? x) = true -> (x <=? y) = true -> (round2 x <=? round2 y) = true.
Proof. intros H0 H1. apply round2_mono; assumption. Qed.

Lemma round2_monotone_witness : (round2 1.234 <=? round2 1.236) = true.
Proof. apply (round2_monotone 1.234 1.236); reflexivity. Defined.

(** X16. [round2 t] is [NaN] exactly when [t] is: a timestamp that is a
    number stays a number. *)
Theorem round2_nan_iff (t : float) : is_nan (round2 t) = is_nan t.
Proof.
  destruct (is_nan t) eqn:E; [|apply round2_not_nan; exact E].
  rewrite is_nan_spec in *. rewrite Prim2SF_round2.
  destruct (Prim2SF t) as [s|s| |s m e]; try discriminate E. reflexivity.
Qed.

Lemma units_le_of_leb (t b : float) :
  (0 <=? t) = true -> (t <=? b) = true ->
  valid_binary (Prim2SF t) = true /\ nonneg (Prim2SF t) = true /\
  (units (Prim2SF t) <= units (Prim2SF b))%Z.
Proof.
  intros H0 H1. split; [apply Prim2SF_valid|].
  split; [apply leb_zero_nonneg; exact H0|].
  apply leb_units; [exact H0|apply (leb_nonneg_trans t b H0 H1)|exact H1].
Qed.

(** X17. For a time [t] between 0 and [10 ^ 9] seconds, [round2 t] differs
    from [t] by at most half a hundredth, up to the two binary64
    roundings: [|round2 t - t| <= 0.005 * (1 + 2 ^ -11)].  (Values are
    compared in [units] of [2 ^ -1074].) *)
Theorem round2_accurate (t : float) :
  (0 <=? t) = true -> (t <=? 1e9) = true ->
  (4096 * Z.abs (100 * units (Prim2SF (round2 t)) - 100 * units (Prim2SF t))
   <= 2049 * 2 ^ 1074)%Z.
Proof.
  intros H0 H1. destruct (units_le_of_leb t 1e9 H0 H1) as (V & N & H).
  rewrite Prim2SF_round2. apply SF_round2_error; [exact V|exact N|].
  replace (10 ^ 9 * 2 ^ 1074)%Z with (units (Prim2SF 1e9));
    [exact H|vm_compute; reflexivity].
Qed.

Lemma round2_accurate_witness :
  (4096 * Z.abs (100 * units (Prim2SF (round2 12.349999)) -
                 100 * units (Prim2SF 12.349999))
   <= 2049 * 2 ^ 1074)%Z.
Proof. apply (round2_accurate 12.349999); reflexivity. Defined.

(** X18. Rounding twice is rounding once: for a time [t] between 0 and
    [10 ^ 13] seconds, [round2 (round2 t) = round2 t].  An exported
    timestamp read back and rounded again is unchanged. *)
Theorem round2_idempotent (t : float) :
  (0 <=? t) = true -> (t <=? 1e13) = true -> round2 (round2 t) = round2 t.
Proof.
  intros H0 H1. destruct (units_le_of_leb t 1e13 H0 H1) as (V & N & H).
  assert (E : Prim2SF (round2 (round2 t)) = Prim2SF (round2 t)).
  { rewrite (Prim2SF_round2 (round2 t)), (Prim2SF_round2 t).
    apply SF_round2_idem; [exact V|exact N|].
    replace (10 ^ 13 * 2 ^ 1074)%Z with (units (Prim2SF 1e13));
      [exact H|vm_compute; reflexivity]. }
  rewrite <- (SF2Prim_Prim2SF (round2 (round2 t))), E.
  apply SF2Prim_Prim2SF.
Qed.

Lemma round2_idempotent_witness :
  round2 (round2 12.349999) = round2 12.349999.
Proof. apply (round2_idempotent 12.349999); reflexivity. Defined.
